(** * The graph state engine of the Wikipedia link map

    A shallow embedding of [src/js/main_functions.js] (rename/merge,
    expansion, traceback, highlight state machine), of the click, blur
    and removal handlers of [src/js/bindings.js] and of the link source
    of the API script (titles, articles, paragraph links, people filter),
    over a model of the two [vis.DataSet] collections [nodes] and [edges]
    the scripts share.

    JavaScript exceptions keep whatever was written before the throw, so
    every operation is a function from the state to an outcome together
    with the state reached. *)

From Stdlib Require Import String Ascii List Bool Arith ZArith Lia.
Import ListNotations.
Open Scope string_scope.
Open Scope list_scope.

Set Implicit Arguments.

(** ** Identifiers and records *)

Definition Id := string.
Definition EdgeId := nat.

(** An edge colour is either a CSS colour string or the object
    [{ inherit: 'to' }]. *)
Inductive EdgeColor :=
| CssColor (css : string)
| InheritColor (side : string).

Record Node := mkNode {
  nid : Id;
  label : string;
  value : nat;
  level : nat;
  color : string;
  parent : option Id;
  nx : Z;
  ny : Z;
  font : option string
}.

Record Edge := mkEdge {
  eid : EdgeId;
  from : Id;
  to : Id;
  ecolor : EdgeColor;
  elevel : nat;
  selectionWidth : nat;
  hoverWidth : nat;
  width : option nat
}.

(** An object literal handed to [nodes.update]: the id and the fields it
    carries; a field left out is [None]. *)
Record NodePatch := mkNodePatch {
  np_id : Id;
  np_label : option string;
  np_value : option nat;
  np_level : option nat;
  np_color : option string;
  np_parent : option (option Id);
  np_x : option Z;
  np_y : option Z;
  np_font : option (option string)
}.

Record EdgePatch := mkEdgePatch {
  ep_id : EdgeId;
  ep_from : option Id;
  ep_to : option Id;
  ep_color : option EdgeColor;
  ep_level : option nat;
  ep_selectionWidth : option nat;
  ep_hoverWidth : option nat;
  ep_width : option (option nat)
}.

(** An edge literal without id, as pushed on [newedges]; [edges.add] gives
    it an id. *)
Record NewEdge := mkNewEdge {
  ne_from : Id;
  ne_to : Id;
  ne_color : EdgeColor;
  ne_level : nat;
  ne_selectionWidth : nat;
  ne_hoverWidth : nat
}.

Definition orElse {A} (o : option A) (d : A) : A :=
  match o with Some a => a | None => d end.

(** Field-wise merge, as [DataSet.update] does on an existing item. *)
Definition patchNode (n : Node) (p : NodePatch) : Node :=
  {| nid := nid n;
     label := orElse (np_label p) (label n);
     value := orElse (np_value p) (value n);
     level := orElse (np_level p) (level n);
     color := orElse (np_color p) (color n);
     parent := orElse (np_parent p) (parent n);
     nx := orElse (np_x p) (nx n);
     ny := orElse (np_y p) (ny n);
     font := orElse (np_font p) (font n) |}.

Definition patchEdge (e : Edge) (p : EdgePatch) : Edge :=
  {| eid := eid e;
     from := orElse (ep_from p) (from e);
     to := orElse (ep_to p) (to e);
     ecolor := orElse (ep_color p) (ecolor e);
     elevel := orElse (ep_level p) (elevel e);
     selectionWidth := orElse (ep_selectionWidth p) (selectionWidth e);
     hoverWidth := orElse (ep_hoverWidth p) (hoverWidth e);
     width := orElse (ep_width p) (width e) |}.

(** [{ id: i }]: the patch that names an item and carries nothing. *)
Definition nodeRef (i : Id) : NodePatch :=
  mkNodePatch i None None None None None None None None.

Definition edgeRef (i : EdgeId) : EdgePatch :=
  mkEdgePatch i None None None None None None None.

(** [{ ...n }]: every field of the item. *)
Definition spreadNode (n : Node) : NodePatch :=
  mkNodePatch (nid n) (Some (label n)) (Some (value n)) (Some (level n))
    (Some (color n)) (Some (parent n)) (Some (nx n)) (Some (ny n))
    (Some (font n)).

Definition spreadEdge (e : Edge) : EdgePatch :=
  mkEdgePatch (eid e) (Some (from e)) (Some (to e)) (Some (ecolor e))
    (Some (elevel e)) (Some (selectionWidth e)) (Some (hoverWidth e))
    (Some (width e)).

(** The item [DataSet.update] adds when no item has the patch's id: the
    fields of the patch, the others undefined (here: empty defaults). *)
Definition nodeOfPatch (p : NodePatch) : Node :=
  patchNode (mkNode (np_id p) "" 0 0 "" None 0%Z 0%Z None) p.

Definition edgeOfPatch (p : EdgePatch) : Edge :=
  patchEdge (mkEdge (ep_id p) "" "" (CssColor "") 0 0 0 None) p.

Definition edgeOfNew (i : EdgeId) (ne : NewEdge) : Edge :=
  mkEdge i (ne_from ne) (ne_to ne) (ne_color ne) (ne_level ne)
    (ne_selectionWidth ne) (ne_hoverWidth ne) None.

(** ** The two data sets

    A [vis.DataSet] is keyed by id and keeps insertion order; queries
    return snapshots in that order.  It is a list here, because order is
    observable ([getEdgeConnecting] takes the first match, [nodes.add]
    walks its argument in order). *)

Definition NodeSet := list Node.
Definition EdgeSet := list Edge.

Definition getIds (ns : NodeSet) : list Id := map nid ns.

Definition hasId (ns : NodeSet) (i : Id) : bool :=
  existsb (fun n => String.eqb (nid n) i) ns.

(** [nodes.get(id)]: the item, or [null]. *)
Definition getNode (ns : NodeSet) (i : Id) : option Node :=
  find (fun n => String.eqb (nid n) i) ns.

(** [nodes.remove(id)]: silently nothing when the id is absent. *)
Definition removeNode (ns : NodeSet) (i : Id) : NodeSet :=
  filter (fun n => negb (String.eqb (nid n) i)) ns.

(** [nodes.update(item)]: merge into the item of that id, add otherwise. *)
Definition updateNode (ns : NodeSet) (p : NodePatch) : NodeSet :=
  if hasId ns (np_id p)
  then map (fun n => if String.eqb (nid n) (np_id p) then patchNode n p else n) ns
  else ns ++ [nodeOfPatch p].

(** [nodes.update(array)]: one item after the other. *)
Definition updateNodes (ns : NodeSet) (ps : list NodePatch) : NodeSet :=
  fold_left updateNode ps ns.

(** [nodes.add(array)]: items are added in order; an id that is already
    there throws, and the items added before it stay.  The result is the
    set reached and the offending id, if any. *)
Fixpoint addNodes (ns : NodeSet) (items : list Node) : NodeSet * option Id :=
  match items with
  | [] => (ns, None)
  | n :: rest =>
      if hasId ns (nid n) then (ns, Some (nid n))
      else addNodes (ns ++ [n]) rest
  end.

Definition hasEdgeId (es : EdgeSet) (i : EdgeId) : bool :=
  existsb (fun e => Nat.eqb (eid e) i) es.

Definition getEdge (es : EdgeSet) (i : EdgeId) : option Edge :=
  find (fun e => Nat.eqb (eid e) i) es.

Definition updateEdge (es : EdgeSet) (p : EdgePatch) : EdgeSet :=
  if hasEdgeId es (ep_id p)
  then map (fun e => if Nat.eqb (eid e) (ep_id p) then patchEdge e p else e) es
  else es ++ [edgeOfPatch p].

Definition updateEdges (es : EdgeSet) (ps : list EdgePatch) : EdgeSet :=
  fold_left updateEdge ps es.

(** The id [edges.add] generates for an item without one: fresh for the
    set (the library draws a UUID). *)
Definition freshEdgeId (es : EdgeSet) : EdgeId :=
  S (list_max (map eid es)).

Definition addEdges (es : EdgeSet) (items : list NewEdge) : EdgeSet :=
  fold_left (fun acc ne => acc ++ [edgeOfNew (freshEdgeId acc) ne]) items es.

(** ** The shared state

    The globals of [main_functions.js] ([window.isReset],
    [window.selectedNode], [window.traceedges], [window.tracenodes],
    [window.startpages]), [lastClickedNode] of [bindings.js], the loading
    icon, and the two data sets.  [journal] records every call that writes
    to a data set, oldest first; it is what the ordering properties are
    stated on. *)

Inductive Event :=
| NodesAdd (ids : list Id)
| NodesUpdate (ids : list Id)
| NodesRemove (i : Id)
| EdgesAdd (count : nat)
| EdgesUpdate (ids : list EdgeId).

Record State := mkState {
  nodes : NodeSet;
  edges : EdgeSet;
  isReset : bool;
  selectedNode : option Id;
  traceedges : list (option EdgeId);
  tracenodes : list Id;
  startpages : list Id;
  lastClickedNode : option Id;
  loading : bool;
  journal : list Event
}.

Definition setNodes (s : State) (v : NodeSet) : State :=
  mkState v (edges s) (isReset s) (selectedNode s) (traceedges s)
    (tracenodes s) (startpages s) (lastClickedNode s) (loading s) (journal s).
Definition setEdges (s : State) (v : EdgeSet) : State :=
  mkState (nodes s) v (isReset s) (selectedNode s) (traceedges s)
    (tracenodes s) (startpages s) (lastClickedNode s) (loading s) (journal s).
Definition setIsReset (s : State) (v : bool) : State :=
  mkState (nodes s) (edges s) v (selectedNode s) (traceedges s)
    (tracenodes s) (startpages s) (lastClickedNode s) (loading s) (journal s).
Definition setSelectedNode (s : State) (v : option Id) : State :=
  mkState (nodes s) (edges s) (isReset s) v (traceedges s)
    (tracenodes s) (startpages s) (lastClickedNode s) (loading s) (journal s).
Definition setTraceedges (s : State) (v : list (option EdgeId)) : State :=
  mkState (nodes s) (edges s) (isReset s) (selectedNode s) v
    (tracenodes s) (startpages s) (lastClickedNode s) (loading s) (journal s).
Definition setTracenodes (s : State) (v : list Id) : State :=
  mkState (nodes s) (edges s) (isReset s) (selectedNode s) (traceedges s)
    v (startpages s) (lastClickedNode s) (loading s) (journal s).
Definition setStartpages (s : State) (v : list Id) : State :=
  mkState (nodes s) (edges s) (isReset s) (selectedNode s) (traceedges s)
    (tracenodes s) v (lastClickedNode s) (loading s) (journal s).
Definition setLastClickedNode (s : State) (v : option Id) : State :=
  mkState (nodes s) (edges s) (isReset s) (selectedNode s) (traceedges s)
    (tracenodes s) (startpages s) v (loading s) (journal s).
Definition setLoading (s : State) (v : bool) : State :=
  mkState (nodes s) (edges s) (isReset s) (selectedNode s) (traceedges s)
    (tracenodes s) (startpages s) (lastClickedNode s) v (journal s).
Definition record (s : State) (ev : Event) : State :=
  mkState (nodes s) (edges s) (isReset s) (selectedNode s) (traceedges s)
    (tracenodes s) (startpages s) (lastClickedNode s) (loading s)
    (journal s ++ [ev]).

(** The state the scripts start from (lines 7-10 of [main_functions.js]),
    over a given graph and root set. *)
Definition initialState (ns : NodeSet) (es : EdgeSet) (roots : list Id) : State :=
  mkState ns es true None [] [] roots None false [].

(** ** Operations that may throw *)

Inductive Error :=
| TypeError            (* a property read on [null] *)
| DuplicateId (i : Id) (* [DataSet.add] on an id that exists *)
| URIError             (* [decodeURIComponent] on a malformed sequence *)
| SyntaxError          (* [querySelector] on a selector it cannot parse *)
| Unfinished.          (* the loop budget of the model ran out *)

Inductive Outcome (A : Type) :=
| Returned (a : A)
| Threw (e : Error).
Arguments Returned {A} a.
Arguments Threw {A} e.

Definition Op (A : Type) := State -> Outcome A * State.

Definition ret {A} (a : A) : Op A := fun s => (Returned a, s).
Definition throw {A} (e : Error) : Op A := fun s => (Threw e, s).
Definition bind {A B} (m : Op A) (k : A -> Op B) : Op B :=
  fun s => match m s with
           | (Returned a, s') => k a s'
           | (Threw e, s') => (Threw e, s')
           end.
Definition gets {A} (f : State -> A) : Op A := fun s => (Returned (f s), s).
Definition modify (f : State -> State) : Op unit := fun s => (Returned tt, f s).
(** [try { m } catch { h }], as the [.catch] of a promise chain. *)
Definition catch {A} (m : Op A) (h : Error -> Op A) : Op A :=
  fun s => match m s with
           | (Returned a, s') => (Returned a, s')
           | (Threw e, s') => h e s'
           end.

Declare Scope op_scope.
Delimit Scope op_scope with op.
Notation "x <- m ;; k" := (bind m (fun x => k))
  (at level 61, m at next level, right associativity) : op_scope.
Notation "m ;; k" := (bind m (fun _ => k))
  (at level 61, right associativity) : op_scope.
Open Scope op_scope.

(** [array.forEach(f)] *)
Fixpoint forEach {A} (l : list A) (f : A -> Op unit) : Op unit :=
  match l with
  | [] => ret tt
  | a :: rest => f a ;; forEach rest f
  end.

(** [array.map(f)] for a callback that may throw. *)
Fixpoint mapOutcome {A B} (f : A -> Outcome B) (l : list A) : Outcome (list B) :=
  match l with
  | [] => Returned []
  | a :: rest =>
      match f a with
      | Threw e => Threw e
      | Returned b =>
          match mapOutcome f rest with
          | Threw e => Threw e
          | Returned bs => Returned (b :: bs)
          end
      end
  end.

Definition liftOutcome {A} (o : Outcome A) : Op A := fun s => (o, s).

(** The writes to the data sets. *)
Definition nodes_update (ps : list NodePatch) : Op unit :=
  modify (fun s => record (setNodes s (updateNodes (nodes s) ps))
                          (NodesUpdate (map np_id ps))).

Definition nodes_remove (i : Id) : Op unit :=
  modify (fun s => record (setNodes s (removeNode (nodes s) i)) (NodesRemove i)).

Definition nodes_add (items : list Node) : Op unit := fun s =>
  let (ns, dup) := addNodes (nodes s) items in
  let s' := record (setNodes s ns) (NodesAdd (map nid items)) in
  match dup with
  | None => (Returned tt, s')
  | Some i => (Threw (DuplicateId i), s')
  end.

Definition edges_update (ps : list EdgePatch) : Op unit :=
  modify (fun s => record (setEdges s (updateEdges (edges s) ps))
                          (EdgesUpdate (map ep_id ps))).

Definition edges_add (items : list NewEdge) : Op unit :=
  modify (fun s => record (setEdges s (addEdges (edges s) items))
                          (EdgesAdd (length items))).

(** JavaScript truthiness of an optional id: [undefined], [null] and the
    empty string are falsy. *)
Definition truthy (o : option Id) : bool :=
  match o with
  | Some i => negb (String.eqb i "")
  | None => false
  end.

(** [a || b] on optional ids. *)
Definition orId (a b : option Id) : option Id :=
  if truthy a then a else b.

Definition optId_eqb (a b : option Id) : bool :=
  match a, b with
  | Some x, Some y => String.eqb x y
  | None, None => true
  | _, _ => false
  end.

(** ** Helpers the scripts call but do not define

    [getNormalizedId], [wordwrap], [unwrap], the colour functions and
    [getSpawnPosition] are globals of other scripts; [decodeURIComponent]
    and [Math.random] ([jitter], the offset drawn for the i-th link) are
    built in; [getConnectedEdges] and [getConnectedNodes] are answered by
    the [vis.Network].  The document is seen through [inputPresent]
    (whether [document.getElementById('input')] finds the comma field)
    and [querySelector] (what the comma field does with a selector: it
    throws on one it cannot parse, and answers whether an item matches
    otherwise).  They are parameters of the development. *)
Class Helpers := {
  getNormalizedId : string -> Id;
  wordwrap : string -> nat -> string;
  unwrap : string -> string;
  decodeURIComponent : string -> option string;
  getColor : nat -> string;
  getYellowColor : nat -> string;
  getEdgeColor : nat -> EdgeColor;
  getSpawnPosition : NodeSet -> EdgeSet -> Id -> Z * Z;
  jitter : nat -> Z * Z;
  getConnectedEdges : NodeSet -> EdgeSet -> Id -> list EdgeId;
  getConnectedNodes : NodeSet -> EdgeSet -> Id -> list Id;
  inputPresent : bool;
  querySelector : string -> Outcome bool
}.

(** Modelled from the spec: [getEdgeConnecting] is not among the sources;
    the store query "the edge that connects [a] to [b] in that direction",
    whose answer is tested for truth by the expansion.  It answers the id
    of the first such edge, or nothing. *)
Definition getEdgeConnecting (es : EdgeSet) (a b : Id) : option EdgeId :=
  option_map eid
    (find (fun e => String.eqb (from e) a && String.eqb (to e) b) es).

(** Number of edges of the store that touch a node. *)
Definition degree (es : EdgeSet) (i : Id) : nat :=
  length (filter (fun e => String.eqb (from e) i || String.eqb (to e) i) es).

(** Modelled from the spec: [updateNodeValue] is not among the sources;
    the size of a node "equals current degree (count of incident edges)",
    recomputed on request for a node that is still there. *)
Definition updateNodeValue (i : Id) : Op unit := fun s =>
  if hasId (nodes s) i
  then nodes_update
         [mkNodePatch i None (Some (degree (edges s) i)) None None None None None None] s
  else (Returned tt, s).

Section Engine.

Context {H : Helpers}.

(** The colour [colorNodes] gives a node. *)
Definition colorPatch (highlight : bool) (n : Node) : NodePatch :=
  mkNodePatch (nid n) None None None
    (Some ((if highlight then getYellowColor else getColor) (level n)))
    None None None None.

(** Modelled from the spec: [colorNodes] is not among the sources; it
    gives each listed node "a color derived from level" (the highlight
    colour when the flag is set) and writes the nodes back.  Reading the
    level of a [null] entry throws. *)
Definition colorNodes (ns : list (option Node)) (highlight : bool) : Op unit :=
  ps <- liftOutcome
          (mapOutcome
             (fun o => match o with
                       | None => Threw TypeError
                       | Some n => Returned (colorPatch highlight n)
                       end) ns) ;;
  nodes_update ps.

(** *** [renameNode] (lines 15-55) *)

(** Lines 21-30: the argument of [edges.update], built from two snapshots
    of the edge set. *)
Definition repointedEdges (es : EdgeSet) (oldId newId : Id) : list EdgePatch :=
  map (fun e => mkEdgePatch (eid e) (Some newId) (Some (to e)) (Some (ecolor e))
                  (Some (elevel e)) (Some (selectionWidth e)) (Some (hoverWidth e))
                  (Some (width e)))
      (filter (fun e => String.eqb (from e) oldId) es)
  ++
  map (fun e => mkEdgePatch (eid e) (Some (from e)) (Some newId) (Some (ecolor e))
                  (Some (elevel e)) (Some (selectionWidth e)) (Some (hoverWidth e))
                  (Some (width e)))
      (filter (fun e => String.eqb (to e) oldId) es).

(** Lines 32-41: merge into the node that has the new id, or replace the
    record. *)
Definition mergeOrReplace (oldNode : option Node) (oldId newId : Id)
    (newName : string) : Op unit :=
  ns <- gets nodes ;;
  if hasId ns newId then
    nodes_remove oldId ;;
    nodes_update [mkNodePatch newId (Some newName) None None None None None None None]
  else
    nodes_remove oldId ;;
    match oldNode with
    | None => throw TypeError
    | Some o =>
        nodes_add [mkNode newId
                     (wordwrap newName (if Nat.eqb (level o) 0 then 20 else 15))
                     (value o) (level o) (color o) (parent o) (nx o) (ny o) (font o)]
    end.

(** Lines 43-47. *)
Definition repointChildren (oldId newId : Id) : Op unit :=
  ns <- gets nodes ;;
  nodes_update
    (map (fun n => mkNodePatch (nid n) (Some (label n)) (Some (value n))
                     (Some (level n)) (Some (color n)) (Some (Some newId))
                     (Some (nx n)) (Some (ny n)) (Some (font n)))
         (filter (fun n => optId_eqb (parent n) (Some oldId)) ns)).

Definition renameId (oldId newId : Id) (i : Id) : Id :=
  if String.eqb i oldId then newId else i.

(** Lines 49-52. *)
Definition moveHighlight (oldId newId : Id) : Op unit :=
  modify (fun s =>
    let s1 := if optId_eqb (selectedNode s) (Some oldId)
              then setSelectedNode s (Some newId) else s in
    let s2 := setTracenodes s1 (map (renameId oldId newId) (tracenodes s1)) in
    setStartpages s2 (map (renameId oldId newId) (startpages s2))).

Definition renameNode (oldId : Id) (newName : string) : Op Id :=
  ns <- gets nodes ;;
  let oldNode := getNode ns oldId in
  let newId := getNormalizedId newName in
  if String.eqb newId oldId then ret oldId
  else
    es <- gets edges ;;
    edges_update (repointedEdges es oldId newId) ;;
    mergeOrReplace oldNode oldId newId newName ;;
    repointChildren oldId newId ;;
    moveHighlight oldId newId ;;
    ret newId.

(** *** [expandNodeCallback] (lines 58-112) *)

(** Lines 70-103: the loop that fills [subnodes] and [newedges]; it reads
    the data sets and writes nothing. [i] is the loop index. *)
Fixpoint buildChildren (ns : NodeSet) (es : EdgeSet) (page : Id) (lvl : nat)
    (start : Z * Z) (i : nat) (subpages : list string)
    (subnodes : list Node) (newedges : list NewEdge)
  : Outcome (list Node * list NewEdge) :=
  match subpages with
  | [] => Returned (subnodes, newedges)
  | subpage :: rest =>
      let subpageID := getNormalizedId subpage in
      let pushed :=
        if negb (existsb (String.eqb subpageID) (getIds ns)) then
          match decodeURIComponent subpage with
          | None => Threw URIError
          | Some decoded =>
              Returned
                (subnodes ++
                 [mkNode subpageID (wordwrap decoded 15) 1 lvl (getColor lvl)
                    (Some page)
                    (fst start + fst (jitter i))%Z (snd start + snd (jitter i))%Z
                    None])
          end
        else Returned subnodes in
      match pushed with
      | Threw e => Threw e
      | Returned subnodes' =>
          let newedges' :=
            match getEdgeConnecting es page subpageID with
            | None => newedges ++ [mkNewEdge page subpageID (getEdgeColor lvl) lvl 2 0]
            | Some _ => newedges
            end in
          buildChildren ns es page lvl start (S i) rest subnodes' newedges'
      end
  end.

Definition expandNodeCallback (page : Id) (data : list string) : Op unit :=
  ns <- gets nodes ;;
  es <- gets edges ;;
  match getNode ns page with
  | None => throw TypeError
  | Some node =>
      let lvl := level node + 1 in
      let start := getSpawnPosition ns es page in
      built <- liftOutcome (buildChildren ns es page lvl start 0 data [] []) ;;
      nodes_add (fst built) ;;
      edges_add (snd built) ;;
      updateNodeValue page ;;
      forEach data (fun subpage => updateNodeValue (getNormalizedId subpage))
  end.

(** *** [getSubPages] and [expandNode] (lines 115-129) *)

(** What the Wikipedia API did with the request. *)
Inductive ApiOutcome :=
| ApiAnswered (redirectedTo : string) (links : list string)
| ApiFailed.

(** How the promise of [getSubPages] settles. *)
Inductive Settled :=
| Resolved (redirectedTo : string) (links : list string)
| Rejected.

(** [getSubPages]: in people mode the chain ends in a [.catch] that answers
    the page itself and no links; otherwise a failure rejects. *)
Definition getSubPages (peopleMode : bool) (pageName : string) (api : ApiOutcome)
  : Settled :=
  match api with
  | ApiAnswered redirectedTo links => Resolved redirectedTo links
  | ApiFailed => if peopleMode then Resolved pageName [] else Rejected
  end.

Definition startLoading : Op unit := modify (fun s => setLoading s true).
Definition stopLoading : Op unit := modify (fun s => setLoading s false).

(** The synchronous part of [expandNode]: the loading icon and the page
    name read from the label (the commafield's DOM is outside the state). *)
Definition expandNodeBegin (id : Id) : Op string :=
  startLoading ;;
  ns <- gets nodes ;;
  match getNode ns id with
  | None => throw TypeError
  | Some n => ret (unwrap (label n))
  end.

(** The [.then(...).catch(...)] of [expandNode], run when the promise has
    settled. *)
Definition expandNodeSettle (id : Id) (r : Settled) : Op unit :=
  match r with
  | Resolved redirectedTo links =>
      catch (newId <- renameNode id redirectedTo ;;
             expandNodeCallback newId links ;;
             stopLoading)
            (fun _ => stopLoading)
  | Rejected => stopLoading
  end.

(** The selector of line 127, [.item[data-node-id=...]] with the id
    between double quotes. *)
Definition quote : string := String (Ascii.ascii_of_nat 34) EmptyString.

Definition itemSelector (id : Id) : string :=
  (".item[data-node-id=" ++ quote ++ id ++ quote ++ "]")%string.

(** Lines 126-128: the comma field item of the node is marked locked.
    Without the comma field the call of [querySelector] on [null] throws;
    [querySelector] throws on a selector that the id has broken.  The
    class it adds is on the document, outside the state. *)
Definition lockItem (id : Id) : Outcome unit :=
  if inputPresent then
    match querySelector (itemSelector id) with
    | Returned _ => Returned tt
    | Threw e => Threw e
    end
  else Threw TypeError.

(** The call [expandNode(id)] up to its return (lines 116-128): the icon
    shows, the request is on its way with its handlers attached (unless
    the read of the label threw), and lines 126-128 decide whether the
    call returns or throws. *)
Definition expandNodeCall (id : Id) : Op unit :=
  expandNodeBegin id ;; liftOutcome (lockItem id).

(** [expandNode] with its request answered, nothing else running between
    the call and the answer.  The outcome is that of the call; the state
    is the one the handlers of the promise leave, which run when the
    answer arrives, whether lines 126-128 threw or not. *)
Definition expandNode (peopleMode : bool) (id : Id) (api : ApiOutcome) : Op unit :=
  pagename <- expandNodeBegin id ;;
  fun s => (lockItem id,
            snd (expandNodeSettle id (getSubPages peopleMode pagename api) s)).

(** *** [getTraceBackNodes] (lines 132-148) *)

(** [nodes.get(currentNode).parent].  For [undefined] the data set answers
    with the array of all items, which has no [parent]; for an id without
    item it answers [null], and the property read throws. *)
Definition parentOf (ns : NodeSet) (currentNode : option Id) : Outcome (option Id) :=
  match currentNode with
  | None => Returned None
  | Some c =>
      match getNode ns c with
      | None => Threw TypeError
      | Some n => Returned (parent n)
      end
  end.

(** [window.startpages.indexOf(currentNode) !== -1] *)
Definition isStartPage (roots : list Id) (currentNode : option Id) : bool :=
  match currentNode with
  | None => false
  | Some c => existsb (String.eqb c) roots
  end.

(** The [while (!finished)] loop, one unfolding per pass; [budget] bounds
    the passes of the model. *)
Fixpoint traceLoop (budget : nat) (ns : NodeSet) (roots : list Id)
    (currentNode : option Id) (iterations : nat) (path : list (option Id))
  : Outcome (list (option Id)) :=
  match budget with
  | 0 => Threw Unfinished
  | S budget' =>
      let path' := path ++ [currentNode] in
      let finished := isStartPage roots currentNode in
      match parentOf ns currentNode with
      | Threw e => Threw e
      | Returned next =>
          if Nat.ltb 100 iterations then Returned []
          else if finished then Returned path'
          else traceLoop budget' ns roots next (S iterations) path'
      end
  end.

(** The ids of a path; a path the loop returns holds no [undefined]. *)
Fixpoint definedIds (path : list (option Id)) : list Id :=
  match path with
  | [] => []
  | Some i :: rest => i :: definedIds rest
  | None :: rest => definedIds rest
  end.

Definition getTraceBackNodes (ns : NodeSet) (roots : list Id) (node : Id)
  : Outcome (list Id) :=
  match traceLoop 102 ns roots (Some node) 0 [] with
  | Returned path => Returned (definedIds path)
  | Threw e => Threw e
  end.

(** *** [getTraceBackEdges] (lines 151-158)

    [tbnodes.reverse()] reverses the caller's array in place, so the
    function answers the reversed array together with the path. *)
Definition getTraceBackEdges (es : EdgeSet) (tbnodes : list Id)
  : list Id * list (option EdgeId) :=
  let reversed := rev tbnodes in
  (reversed,
   map (fun i => getEdgeConnecting es (nth i reversed "") (nth (i + 1) reversed ""))
       (seq 0 (length reversed - 1))).

(** *** [resetProperties] (lines 161-190) *)

Definition fullOpacity : string := "rgba(0, 0, 0, 1)".
Definition lowOpacity : string := "rgba(0, 0, 0, 0.3)".
Definition dimmedEdge : EdgeColor := CssColor "rgba(122, 206, 247, 0.4)".

(** [tracenodes.map(i => nodes.get(i)).filter(n => n !== null)] *)
Fixpoint storedNodes (ns : NodeSet) (ids : list Id) : list Node :=
  match ids with
  | [] => []
  | i :: rest =>
      match getNode ns i with
      | Some n => n :: storedNodes ns rest
      | None => storedNodes ns rest
      end
  end.

(** The callback of line 179: the level is read from the target node. *)
Definition resetEdge (ns : NodeSet) (e : Edge) : Outcome EdgePatch :=
  match getNode ns (to e) with
  | None => Threw TypeError
  | Some target =>
      Returned (mkEdgePatch (eid e) None None (Some (getEdgeColor (level target)))
                  None None None (Some (Some 1)))
  end.

Definition fontPatch (i : Id) (c : string) : NodePatch :=
  mkNodePatch i None None None None None None None (Some (Some c)).

Definition resetProperties : Op unit :=
  reset <- gets isReset ;;
  if reset then ret tt
  else
    modify (fun s => setSelectedNode s None) ;;
    ns <- gets nodes ;;
    tn <- gets tracenodes ;;
    let modnodes := storedNodes ns tn in
    (if Nat.ltb 0 (length modnodes)
     then colorNodes (map Some modnodes) false else ret tt) ;;
    allNodes <- gets nodes ;;
    nodes_update (map (fun n => fontPatch (nid n) fullOpacity) allNodes) ;;
    allEdges <- gets edges ;;
    ns' <- gets nodes ;;
    edgeUpdates <- liftOutcome (mapOutcome (resetEdge ns') allEdges) ;;
    edges_update edgeUpdates ;;
    modify (fun s => setTracenodes s []) ;;
    modify (fun s => setTraceedges s []) ;;
    modify (fun s => setIsReset s true).

(** *** [traceBack] (lines 193-254) *)

Definition isTrace (te : list (option EdgeId)) (e : Edge) : bool :=
  existsb (fun o => match o with Some i => Nat.eqb i (eid e) | None => false end) te.

Definition isConnected (ce : list EdgeId) (e : Edge) : bool :=
  existsb (Nat.eqb (eid e)) ce.

(** The callback of line 209. *)
Definition traceEdge (ns : NodeSet) (te : list (option EdgeId)) (ce : list EdgeId)
    (e : Edge) : Outcome EdgePatch :=
  if isTrace te e then
    Returned (mkEdgePatch (eid e) None None (Some (InheritColor "to"))
                None None None (Some (Some 5)))
  else if isConnected ce e then
    match getNode ns (to e) with
    | None => Threw TypeError
    | Some target =>
        Returned (mkEdgePatch (eid e) None None (Some (getEdgeColor (level target)))
                    None None None (Some (Some 3)))
    end
  else
    Returned (mkEdgePatch (eid e) None None (Some dimmedEdge)
                None None None (Some (Some 1))).

(** The callback of line 240. *)
Definition traceNode (node : Id) (tn : list Id) (cn : list Id) (i : Id) : NodePatch :=
  let isActive := String.eqb i node || existsb (String.eqb i) tn
                  || existsb (String.eqb i) cn in
  fontPatch i (if isActive then fullOpacity else lowOpacity).

(** Lines 196-252: what follows the reset inside the [if]. *)
Definition enterTraced (node : Id) : Op unit :=
    modify (fun s => setSelectedNode s (Some node)) ;;
    modify (fun s => setIsReset s false) ;;
    ns <- gets nodes ;;
    roots <- gets startpages ;;
    path <- liftOutcome (getTraceBackNodes ns roots node) ;;
    modify (fun s => setTracenodes s path) ;;
    es <- gets edges ;;
    let (reversed, tbedges) := getTraceBackEdges es path in
    modify (fun s => setTracenodes s reversed) ;;
    modify (fun s => setTraceedges s tbedges) ;;
    let connectedEdges := getConnectedEdges ns es node in
    let connectedNodes := getConnectedNodes ns es node in
    edgeUpdates <- liftOutcome (mapOutcome (traceEdge ns tbedges connectedEdges) es) ;;
    edges_update edgeUpdates ;;
    nodes_update (map (traceNode node reversed connectedNodes) (getIds ns)) ;;
    ns' <- gets nodes ;;
    colorNodes (map (getNode ns') reversed) true.

Definition traceBack (node : Id) : Op unit :=
  selected <- gets selectedNode ;;
  if optId_eqb (Some node) selected then ret tt
  else resetProperties ;; enterTraced node.

(** *** The removal handlers of [bindings.js] *)

(** [removeNodeEvent] (lines 128-151); [nodeAt] is what
    [network.getNodeAt] answered for the pointer. *)
Definition removeNodeEvent (nodeAt : option Id) : Op unit :=
  match nodeAt with
  | Some nodeId =>
      if truthy nodeAt then
        reset <- gets isReset ;;
        (if negb reset then resetProperties else ret tt) ;;
        ns <- gets nodes ;;
        es <- gets edges ;;
        let neighbors := getConnectedNodes ns es nodeId in
        nodes_remove nodeId ;;
        modify (fun s => if optId_eqb (lastClickedNode s) (Some nodeId)
                         then setLastClickedNode s None else s) ;;
        forEach neighbors updateNodeValue
      else ret tt
  | None => ret tt
  end.

(** The earlier [removeNodeEvent] kept in the repository, which resets
    only when the node is the selection or on the trace. *)
Definition removeNodeEventGuarded (nodeAt : option Id) : Op unit :=
  match nodeAt with
  | Some nodeId =>
      if truthy nodeAt then
        reset <- gets isReset ;;
        selected <- gets selectedNode ;;
        tn <- gets tracenodes ;;
        (if negb reset && (optId_eqb selected (Some nodeId)
                           || existsb (String.eqb nodeId) tn)
         then resetProperties else ret tt) ;;
        ns <- gets nodes ;;
        es <- gets edges ;;
        let neighbors := getConnectedNodes ns es nodeId in
        nodes_remove nodeId ;;
        modify (fun s => if optId_eqb (lastClickedNode s) (Some nodeId)
                         then setLastClickedNode s None else s) ;;
        forEach neighbors updateNodeValue
      else ret tt
  | None => ret tt
  end.

(** The click listener of the [remove-selected] button. *)
Definition removeSelected : Op unit :=
  selected <- gets selectedNode ;;
  lastClicked <- gets lastClickedNode ;;
  let nodeToRemove := orId selected lastClicked in
  match nodeToRemove with
  | Some nodeId =>
      if truthy nodeToRemove then
        ns <- gets nodes ;;
        es <- gets edges ;;
        let neighbors := getConnectedNodes ns es nodeId in
        resetProperties ;;
        nodes_remove nodeId ;;
        modify (fun s => setSelectedNode s None) ;;
        modify (fun s => setLastClickedNode s None) ;;
        forEach neighbors updateNodeValue
      else ret tt
  | None => ret tt
  end.

End Engine.

(** ** The event handlers of [bindings.js] and the link source of the API script *)

(** [String.prototype.split] with a one-character separator. *)
Fixpoint splitOn (sep : Ascii.ascii) (s : string) : list string :=
  match s with
  | EmptyString => [EmptyString]
  | String c rest =>
      if Ascii.eqb c sep then EmptyString :: splitOn sep rest
      else match splitOn sep rest with
           | first :: others => String c first :: others
           | [] => [String c EmptyString]
           end
  end.

(** [array.pop()] as a value: the last element, or [undefined]. *)
Fixpoint lastOf {A} (l : list A) : option A :=
  match l with
  | [] => None
  | [a] => Some a
  | _ :: rest => lastOf rest
  end.

(** [getPageTitleQuickly] (line 17): the last non-empty piece of the url
    between slashes, up to its first [#].  With no such piece [pop]
    answers [undefined] and the [split] on it throws. *)
Definition getPageTitleQuickly (url : string) : Outcome string :=
  match lastOf (filter (fun el => negb (String.eqb el "")) (splitOn "/"%char url)) with
  | None => Threw TypeError
  | Some piece => Returned (hd "" (splitOn "#"%char piece))
  end.

Fixpoint containsChar (c : Ascii.ascii) (s : string) : bool :=
  match s with
  | EmptyString => false
  | String d rest => Ascii.eqb d c || containsChar c rest
  end.

(** [name.endsWith(':')] *)
Fixpoint endsWithColon (s : string) : bool :=
  match s with
  | EmptyString => false
  | String c EmptyString => Ascii.eqb c ":"%char
  | String _ rest => endsWithColon rest
  end.

(** [name.slice(0, -1)] *)
Fixpoint dropLast (s : string) : string :=
  match s with
  | EmptyString => EmptyString
  | String _ EmptyString => EmptyString
  | String c rest => String c (dropLast rest)
  end.

(** [isArticle] (line 33). *)
Definition isArticle (name : string) : bool :=
  negb (containsChar ":"%char (if endsWithColon name then dropLast name else name)).

(** [title.replace(/_/g, ' ')] *)
Fixpoint underscoresToSpaces (s : string) : string :=
  match s with
  | EmptyString => EmptyString
  | String c rest =>
      String (if Ascii.eqb c "_"%char then " "%char else c) (underscoresToSpaces rest)
  end.

(** [array.indexOf(x)]; [None] is [-1]. *)
Fixpoint indexOf (x : Id) (l : list Id) : option nat :=
  match l with
  | [] => None
  | y :: rest => if String.eqb y x then Some 0 else option_map S (indexOf x rest)
  end.




(** Lines 93-97: slices of at most fifty titles. *)
Fixpoint chunksFrom (passes : nat) (titles : list string) : list (list string) :=
  match passes with
  | 0 => []
  | S passes' =>
      match titles with
      | [] => []
      | _ :: _ => firstn 50 titles :: chunksFrom passes' (skipn 50 titles)
      end
  end.

Definition chunksOf (titles : list string) : list (list string) :=
  chunksFrom (length titles) titles.

Section Handlers.

Context {H : Helpers}.

(** [String.prototype.toLowerCase], a parameter. *)
Variable toLowerCase : string -> string.




(** Lines 80-82: the links whose id occurs first at their own place. *)
Definition uniqueById (links : list string) : list string :=
  let ids := map getNormalizedId links in
  let isUnique :=
    map (fun ni => match indexOf (snd ni) ids with
                   | Some j => Nat.eqb j (fst ni)
                   | None => false
                   end)
        (combine (seq 0 (length ids)) ids) in
  map fst (filter snd (combine links isUnique)).

(** [getWikiLinks] (lines 71-83); the element is given by the [href]
    attributes of its anchors, in document order ([None] for an anchor
    without one), or is [null]. *)
Definition getWikiLinks (element : option (list (option string)))
  : Outcome (list string) :=
  match element with
  | None => Returned []
  | Some hrefs =>
      let wiki :=
        flat_map (fun href => match href with
                              | Some h => if negb (String.eqb h "") && String.prefix "/wiki/" h
                                          then [h] else []
                              | None => []
                              end) hrefs in
      match mapOutcome getPageTitleQuickly wiki with
      | Threw e => Threw e
      | Returned titles =>
          Returned (uniqueById (map underscoresToSpaces (filter isArticle titles)))
      end
  end.

(** [expandEvent] (lines 8-25); [nodesAt] is [params.nodes], and the
    expansion it may start is run to its end with the given answer of the
    link source. *)
Definition expandEvent (isTouchDevice peopleMode : bool) (api : ApiOutcome)
    (nodesAt : list Id) : Op unit :=
  match nodesAt with
  | page :: _ =>
      lastClicked <- gets lastClickedNode ;;
      if isTouchDevice || optId_eqb (Some page) lastClicked
      then expandNode peopleMode page api
      else
        modify (fun s => setLastClickedNode s (Some page)) ;;
        traceBack page
  | [] =>
      modify (fun s => setLastClickedNode s None) ;;
      resetProperties
  end.

(** [mobileTraceEvent] (lines 27-41). *)
Definition mobileTraceEvent (nodesAt : list Id) : Op unit :=
  match nodesAt with
  | page :: _ =>
      modify (fun s => setLastClickedNode s (Some page)) ;;
      traceBack page
  | [] =>
      modify (fun s => setLastClickedNode s None) ;;
      resetProperties
  end.

(** The [blurNode] listener of [bindNetwork] (lines 163-171). *)
Definition blurNode : Op unit :=
  lastClicked <- gets lastClickedNode ;;
  match lastClicked with
  | Some page => if truthy lastClicked then traceBack page else resetProperties
  | None => resetProperties
  end.

(** [selectRandomNode] (lines 83-92); [drawn] stands for the index that
    [Math.floor(Math.random() * allIds.length)] gives. *)
Definition selectRandomNode (drawn : nat) : Op (option Id) :=
  allIds <- gets (fun s => getIds (nodes s)) ;;
  if Nat.ltb 0 (length allIds) then
    let randomNodeId := nth (drawn mod length allIds) allIds "" in
    modify (fun s => setLastClickedNode s (Some randomNodeId)) ;;
    traceBack randomNodeId ;;
    ret (Some randomNodeId)
  else ret None.

End Handlers.

(** ** Fixtures: concrete helpers and small graphs *)

Definition lowerAscii (c : Ascii.ascii) : Ascii.ascii :=
  let n := Ascii.nat_of_ascii c in
  if Nat.leb 65 n && Nat.leb n 90 then Ascii.ascii_of_nat (n + 32) else c.

Fixpoint lowerString (s : string) : string :=
  match s with
  | EmptyString => EmptyString
  | String c rest => String (lowerAscii c) (lowerString rest)
  end.

Definition touches (i : Id) (e : Edge) : bool :=
  String.eqb (from e) i || String.eqb (to e) i.

(** Number of double quotes in a string. *)
Fixpoint countQuotes (s : string) : nat :=
  match s with
  | EmptyString => 0
  | String c rest =>
      (if Ascii.eqb c (Ascii.ascii_of_nat 34) then 1 else 0) + countQuotes rest
  end.

(** Helpers for the examples: ids are lower-cased names, labels are not
    wrapped, the network reports the edges of the store that touch a
    node whose two ends are stored, the comma field is there and cannot
    parse a selector in which the id brings a double quote of its own. *)
Definition demoHelpers : Helpers :=
  {| getNormalizedId := lowerString;
     wordwrap := fun s _ => s;
     unwrap := fun s => s;
     decodeURIComponent := fun s => Some s;
     getColor := fun _ => "blue";
     getYellowColor := fun _ => "yellow";
     getEdgeColor := fun _ => CssColor "grey";
     getSpawnPosition := fun _ _ _ => (0%Z, 0%Z);
     jitter := fun i => (Z.of_nat i, 5%Z);
     getConnectedEdges := fun ns es i =>
       map eid (filter (fun e => touches i e && hasId ns (from e) && hasId ns (to e)) es);
     getConnectedNodes := fun ns es i =>
       map (fun e => if String.eqb (from e) i then to e else from e)
           (filter (fun e => touches i e && hasId ns (from e) && hasId ns (to e)) es);
     inputPresent := true;
     querySelector := fun selector =>
       if Nat.eqb (countQuotes selector) 2 then Returned false else Threw SyntaxError |}.

Definition demoNode (i : Id) (lvl : nat) (p : option Id) : Node :=
  mkNode i i 1 lvl "blue" p 0%Z 0%Z None.

Definition demoEdge (i : EdgeId) (a b : Id) : Edge :=
  mkEdge i a b (CssColor "grey") 1 2 0 None.

(** A root [r] with children [b] and [c]; [d] is a child of [b]. *)
Definition demoNodes : NodeSet :=
  [demoNode "r" 0 None; demoNode "b" 1 (Some "r"); demoNode "c" 1 (Some "r");
   demoNode "d" 2 (Some "b")].

Definition demoEdges : EdgeSet :=
  [demoEdge 1 "r" "b"; demoEdge 2 "r" "c"; demoEdge 3 "b" "d"].

Definition demoState : State := initialState demoNodes demoEdges ["r"].

(** [demoState] after [traceBack "d"]: [d] is selected, the trace runs
    from [r] over [b] to [d]. *)
Definition tracedState : State :=
  Eval vm_compute in snd (@traceBack demoHelpers "d" demoState).

(** [demoState] after a right click on [b]: the record of [b] is gone,
    [d] still names it as parent and the edges that touched it are still
    in the edge set. *)
Definition orphanedState : State :=
  Eval vm_compute in snd (@removeNodeEvent demoHelpers (Some "b") demoState).

(** Two nodes that name each other as parent. *)
Definition cycleNodes : NodeSet :=
  [demoNode "a" 1 (Some "b"); demoNode "b" 1 (Some "a")].

(** [tracedState] after a reset pass. *)
Definition resetTracedState : State :=
  Eval vm_compute in snd (@resetProperties demoHelpers tracedState).

(** [orphanedState] after [traceBack "c"]: highlighted, with the edges of
    the removed [b] still in the edge set. *)
Definition strandedState : State :=
  Eval vm_compute in snd (@traceBack demoHelpers "c" orphanedState).

(** A node whose parent was never stored, in a store without edges. *)
Definition lostState : State :=
  initialState [demoNode "a" 1 (Some "zz")] [] ["r"].

(** A start page whose id holds a double quote. *)
Definition quotedId : Id := ("weird" ++ quote ++ "al")%string.

Definition quotedState : State :=
  initialState [demoNode quotedId 0 None] [] [quotedId].

(** ** Notions the properties are stated with *)

(** What one patch does to one stored item. *)
Definition applyNodePatch (p : NodePatch) (n : Node) : Node :=
  if String.eqb (nid n) (np_id p) then patchNode n p else n.

Definition applyNodePatches (ps : list NodePatch) (n : Node) : Node :=
  fold_left (fun acc p => applyNodePatch p acc) ps n.

Definition applyEdgePatch (p : EdgePatch) (e : Edge) : Edge :=
  if Nat.eqb (eid e) (ep_id p) then patchEdge e p else e.

Definition applyEdgePatches (ps : list EdgePatch) (e : Edge) : Edge :=
  fold_left (fun acc p => applyEdgePatch p acc) ps e.

(** [{ ...e, from: i }] and [{ ...e, to: i }] as edges. *)
Definition withFrom (e : Edge) (i : Id) : Edge :=
  mkEdge (eid e) i (to e) (ecolor e) (elevel e) (selectionWidth e) (hoverWidth e)
    (width e).

Definition withTo (e : Edge) (i : Id) : Edge :=
  mkEdge (eid e) (from e) i (ecolor e) (elevel e) (selectionWidth e) (hoverWidth e)
    (width e).

(** Every edge points at a stored node. *)
Definition targetsStored (ns : NodeSet) (es : EdgeSet) : Prop :=
  Forall (fun e => hasId ns (to e) = true) es.

(** With the flag on [Reset] nothing is selected and nothing is traced. *)
Definition highlightCleared (s : State) : Prop :=
  selectedNode s = None /\ tracenodes s = [] /\ traceedges s = [].

Definition highlightInv (s : State) : Prop :=
  isReset s = true -> highlightCleared s.

(** Number of stored nodes with a given id. *)
Definition countId (i : Id) (ns : NodeSet) : nat :=
  length (filter (fun n => String.eqb (nid n) i) ns).

(** The three classes of the specification, and the width of each. *)
Inductive EdgeClass := Traced | Connected | Unrelated.

Definition classWidth (c : EdgeClass) : nat :=
  match c with Traced => 5 | Connected => 3 | Unrelated => 1 end.

(** What lines 211 and 212 test: the id of the edge is among the stored
    trace edges, is among the edges the network reports. *)
Definition onPath (te : list (option EdgeId)) (e : Edge) : Prop :=
  In (Some (eid e)) te.

Definition adjacent (ce : list EdgeId) (e : Edge) : Prop :=
  In (eid e) ce.

(** An edge of the path to the root, in the graph: it runs from a node
    of the path to the next one towards the traced node.  The path is
    given from the node up to the root, so its reverse runs down. *)
Definition alongPath (path : list Id) (e : Edge) : Prop :=
  exists i, i < length path - 1 /\
            from e = nth i (rev path) "" /\ to e = nth (i + 1) (rev path) "".

(** An edge of the path to the root, as the store answers: it is the
    edge the lookup finds for two consecutive nodes of the path. *)
Definition onTrace (es : EdgeSet) (path : list Id) (e : Edge) : Prop :=
  exists i, i < length path - 1 /\
            getEdgeConnecting es (nth i (rev path) "") (nth (i + 1) (rev path) "")
            = Some (eid e).

(** The patch line 179 builds for an edge whose target is stored. *)
Definition targetLevel (ns : NodeSet) (e : Edge) : nat :=
  match getNode ns (to e) with Some target => level target | None => 0 end.

Definition resetPatch {H : Helpers} (ns : NodeSet) (e : Edge) : EdgePatch :=
  mkEdgePatch (eid e) None None (Some (getEdgeColor (targetLevel ns e)))
    None None None (Some (Some 1)).

(** The node set a reset pass leaves. *)
Definition resetNodes {H : Helpers} (ns : NodeSet) (tn : list Id) : NodeSet :=
  let modnodes := storedNodes ns tn in
  let coloured := updateNodes ns (map (colorPatch false) modnodes) in
  updateNodes coloured (map (fun n => fontPatch (nid n) fullOpacity) coloured).

(** The state a reset pass that runs to its end leaves, the journal apart. *)
Definition resetState {H : Helpers} (s : State) (log : list Event) : State :=
  let ns := resetNodes (nodes s) (tracenodes s) in
  mkState ns (updateEdges (edges s) (map (resetPatch ns) (edges s)))
    true None [] [] (startpages s) (lastClickedNode s) (loading s) log.

(** A journal entry that changes items in place. *)
Definition isUpdate (ev : Event) : Prop :=
  match ev with
  | NodesUpdate _ | EdgesUpdate _ => True
  | _ => False
  end.

(** [s'] differs from [s] by in-place updates of items only: same ids in
    both data sets, same highlight state, and a journal that grew by
    update entries. *)
Definition onlyUpdates (s s' : State) : Prop :=
  getIds (nodes s') = getIds (nodes s) /\
  map eid (edges s') = map eid (edges s) /\
  isReset s' = isReset s /\
  selectedNode s' = selectedNode s /\
  tracenodes s' = tracenodes s /\
  traceedges s' = traceedges s /\
  exists log, journal s' = journal s ++ log /\ Forall isUpdate log.

(** [{ ...n, parent: i }], the patch of line 46. *)
Definition childPatch (newId : Id) (n : Node) : NodePatch :=
  mkNodePatch (nid n) (Some (label n)) (Some (value n)) (Some (level n))
    (Some (color n)) (Some (Some newId)) (Some (nx n)) (Some (ny n))
    (Some (font n)).

(** The record line 40 hands to [nodes.add]. *)
Definition renamedRecord {H : Helpers} (o : Node) (newId : Id) (newName : string)
  : Node :=
  mkNode newId (wordwrap newName (if Nat.eqb (level o) 0 then 20 else 15))
    (value o) (level o) (color o) (parent o) (nx o) (ny o) (font o).

Definition withParent (n : Node) (p : option Id) : Node :=
  mkNode (nid n) (label n) (value n) (level n) (color n) p (nx n) (ny n) (font n).

(** The ids among [subpages] that the store does not have, in order and
    with repetitions: the ids of the records the loop of lines 70-103
    pushes on [subnodes]. *)
Definition newIds {H : Helpers} (ns : NodeSet) (subpages : list string) : list Id :=
  filter (fun i => negb (existsb (String.eqb i) (getIds ns)))
         (map getNormalizedId subpages).

(** The patch line 209 builds for an edge whose target is stored. *)
Definition tracePatch {H : Helpers} (ns : NodeSet) (te : list (option EdgeId))
    (ce : list EdgeId) (e : Edge) : EdgePatch :=
  if isTrace te e then
    mkEdgePatch (eid e) None None (Some (InheritColor "to")) None None None
      (Some (Some 5))
  else if isConnected ce e then
    mkEdgePatch (eid e) None None (Some (getEdgeColor (targetLevel ns e)))
      None None None (Some (Some 3))
  else
    mkEdgePatch (eid e) None None (Some dimmedEdge) None None None (Some (Some 1)).

(** The walk along [parent], [k] hops from [cur]. *)
Fixpoint ancestor (ns : NodeSet) (k : nat) (cur : option Id) : Outcome (option Id) :=
  match k with
  | 0 => Returned cur
  | S k' =>
      match parentOf ns cur with
      | Returned next => ancestor ns k' next
      | Threw e => Threw e
      end
  end.

(** What highlighting never touches: of a node everything but colour and
    font, of an edge everything but colour and width. *)
Definition nodeShape (n : Node) : Id * string * nat * nat * option Id * Z * Z :=
  (nid n, label n, value n, level n, parent n, nx n, ny n).

Definition edgeShape (e : Edge) : EdgeId * Id * Id * nat * nat * nat :=
  (eid e, from e, to e, elevel e, selectionWidth e, hoverWidth e).

Definition sameGraph (s s' : State) : Prop :=
  map nodeShape (nodes s') = map nodeShape (nodes s) /\
  map edgeShape (edges s') = map edgeShape (edges s) /\
  startpages s' = startpages s.

Definition cosmeticNode (p : NodePatch) : Prop :=
  np_label p = None /\ np_value p = None /\ np_level p = None /\
  np_parent p = None /\ np_x p = None /\ np_y p = None.

Definition cosmeticEdge (p : EdgePatch) : Prop :=
  ep_from p = None /\ ep_to p = None /\ ep_level p = None /\
  ep_selectionWidth p = None /\ ep_hoverWidth p = None.

(** Line 242: the nodes whose text stays opaque. *)
Definition isActive (node : Id) (tn cn : list Id) (i : Id) : Prop :=
  i = node \/ In i tn \/ In i cn.

(** The walk a traceback is meant to find: from a stored node along
    [parent], over stored nodes that are no start pages, up to the first
    start page. *)
Inductive Chain (ns : NodeSet) (roots : list Id) : Id -> list Id -> Prop :=
| ChainRoot (c : Id) (n : Node) :
    getNode ns c = Some n -> In c roots -> Chain ns roots c [c]
| ChainStep (c p : Id) (n : Node) (rest : list Id) :
    getNode ns c = Some n -> ~ In c roots -> parent n = Some p ->
    Chain ns roots p rest -> Chain ns roots c (c :: rest).

(** Every node names a stored node as parent, or none. *)
Definition parentsStored (ns : NodeSet) : Prop :=
  forall n p, In n ns -> parent n = Some p -> hasId ns p = true.

(** The node set the entry into the traced state leaves: the text
    opacities of line 240, then the highlight colour on the trace. *)
Definition tracedNodes {H : Helpers} (ns : NodeSet) (node : Id) (reversed cn : list Id)
  : NodeSet :=
  let dimmed := updateNodes ns (map (traceNode node reversed cn) (getIds ns)) in
  updateNodes dimmed (map (colorPatch true) (storedNodes dimmed reversed)).

(** A node without its size, and the pair that ties it to its parent. *)
Definition nodeFrame (n : Node)
  : Id * string * nat * string * option Id * Z * Z * option string :=
  (nid n, label n, level n, color n, parent n, nx n, ny n, font n).

Definition nodeLink (n : Node) : Id * option Id := (nid n, parent n).

(** [s'] differs from [s] in sizes of nodes only (and in the journal). *)
Definition sizesOnly (s s' : State) : Prop :=
  map nodeFrame (nodes s') = map nodeFrame (nodes s) /\
  edges s' = edges s /\ isReset s' = isReset s /\
  selectedNode s' = selectedNode s /\ traceedges s' = traceedges s /\
  tracenodes s' = tracenodes s /\ startpages s' = startpages s /\
  lastClickedNode s' = lastClickedNode s /\ loading s' = loading s.

(** At most one edge per ordered pair of ends. *)
Definition edgeEnds (e : Edge) : Id * Id := (from e, to e).

Definition uniquePairs (es : EdgeSet) : Prop := NoDup (map edgeEnds es).

(** The edge line 95 pushes for a link. *)
Definition linkEdge {H : Helpers} (page : Id) (lvl : nat) (subpage : string) : NewEdge :=
  mkNewEdge page (getNormalizedId subpage) (getEdgeColor lvl) lvl 2 0.

(** The links for which line 94 finds no edge from the page. *)
Definition unlinked {H : Helpers} (es : EdgeSet) (page : Id) (subpages : list string)
  : list string :=
  filter (fun sp => match getEdgeConnecting es page (getNormalizedId sp) with
                    | None => true
                    | Some _ => false
                    end) subpages.

(** The values of the variables of the scripts, the data sets apart. *)
Definition sameVariables (s s' : State) : Prop :=
  isReset s' = isReset s /\ selectedNode s' = selectedNode s /\
  traceedges s' = traceedges s /\ tracenodes s' = tracenodes s /\
  startpages s' = startpages s /\ lastClickedNode s' = lastClickedNode s /\
  loading s' = loading s.

(** An operation keeps a property of the state, whatever its outcome. *)
Definition preserves {A} (P : State -> Prop) (m : Op A) : Prop :=
  forall s, P s -> P (snd (m s)).

(** Lines 80-82 from a position on: [k] is the index of the first link
    of [links] in the whole list, [ids] the ids of the whole list. *)
Definition uniqueFrom {H : Helpers} (ids : list Id) (k : nat) (links : list string)
  : list string :=
  map fst
    (filter snd
       (combine links
          (map (fun ni => match indexOf (snd ni) ids with
                          | Some j => Nat.eqb j (fst ni)
                          | None => false
                          end)
               (combine (seq k (length links)) (map getNormalizedId links))))).

(** ** Properties *)

Section Properties.

Context {H : Helpers}.

(** *** Running the operations step by step *)

Lemma run_gets {A B} (f : State -> A) (k : A -> Op B) (s : State) :
  (x <- gets f ;; k x) s = k (f s) s.
Proof. reflexivity. Qed.

Lemma run_modify {B} (f : State -> State) (k : Op B) (s : State) :
  (modify f ;; k) s = k (f s).
Proof. reflexivity. Qed.

Lemma run_ret {A B} (a : A) (k : A -> Op B) (s : State) :
  (x <- ret a ;; k x) s = k a s.
Proof. reflexivity. Qed.

Lemma run_lift {A B} (a : A) (k : A -> Op B) (s : State) :
  (x <- liftOutcome (Returned a) ;; k x) s = k a s.
Proof. reflexivity. Qed.

Lemma run_nodes_update {B} (ps : list NodePatch) (k : Op B) (s : State) :
  (nodes_update ps ;; k) s =
  k (record (setNodes s (updateNodes (nodes s) ps)) (NodesUpdate (map np_id ps))).
Proof. reflexivity. Qed.

Lemma run_edges_update {B} (ps : list EdgePatch) (k : Op B) (s : State) :
  (edges_update ps ;; k) s =
  k (record (setEdges s (updateEdges (edges s) ps)) (EdgesUpdate (map ep_id ps))).
Proof. reflexivity. Qed.

Lemma run_bind {A B} (m : Op A) (k : A -> Op B) (s s' : State) (a : A) :
  m s = (Returned a, s') -> (x <- m ;; k x) s = k a s'.
Proof. intros Hm. unfold bind. now rewrite Hm. Qed.

Lemma run_bind_threw {A B} (m : Op A) (k : A -> Op B) (s s' : State) (e : Error) :
  m s = (Threw e, s') -> (x <- m ;; k x) s = (Threw e, s').
Proof. intros Hm. unfold bind. now rewrite Hm. Qed.

Lemma run_nodes_remove {B} (i : Id) (k : Op B) (s : State) :
  (nodes_remove i ;; k) s =
  k (record (setNodes s (removeNode (nodes s) i)) (NodesRemove i)).
Proof. reflexivity. Qed.

Lemma run_throw {A B} (e : Error) (k : A -> Op B) (s : State) :
  (x <- throw e ;; k x) s = (Threw e, s).
Proof. reflexivity. Qed.

Lemma run_lift_threw {A B} (e : Error) (k : A -> Op B) (s : State) :
  (x <- liftOutcome (Threw e) ;; k x) s = (Threw e, s).
Proof. reflexivity. Qed.

Ltac fields :=
  unfold record, setNodes, setEdges, setIsReset, setSelectedNode, setTraceedges,
    setTracenodes, setStartpages, setLastClickedNode, setLoading;
  cbn [nodes edges isReset selectedNode traceedges tracenodes startpages
       lastClickedNode loading journal].

Ltac step :=
  first [ rewrite run_gets | rewrite run_modify | rewrite run_ret
        | rewrite run_lift | rewrite run_nodes_update | rewrite run_edges_update
        | rewrite run_nodes_remove ];
  fields.

(** *** The data sets *)

Lemma getNode_nid (ns : NodeSet) (i : Id) (n : Node) :
  getNode ns i = Some n -> nid n = i.
Proof.
  unfold getNode. intros Hf. apply find_some in Hf.
  destruct Hf as [_ Hf]. now apply String.eqb_eq in Hf.
Qed.

Lemma getNode_In (ns : NodeSet) (i : Id) (n : Node) :
  getNode ns i = Some n -> In n ns.
Proof.
  unfold getNode. intros Hf. now apply find_some in Hf.
Qed.

Lemma hasId_In (ns : NodeSet) (i : Id) :
  hasId ns i = true <-> In i (getIds ns).
Proof.
  unfold hasId, getIds. rewrite existsb_exists, in_map_iff. split.
  - intros [n [Hin He]]. apply String.eqb_eq in He. now exists n.
  - intros [n [He Hin]]. exists n. split; [assumption|]. now apply String.eqb_eq.
Qed.

Lemma hasId_getNode (ns : NodeSet) (i : Id) :
  hasId ns i = true <-> exists n, getNode ns i = Some n.
Proof.
  unfold hasId, getNode. induction ns as [|a ns IH]; simpl.
  - split; [discriminate | intros [n Hn]; discriminate].
  - destruct (String.eqb (nid a) i); simpl.
    + split; [intros _; now exists a | reflexivity].
    + exact IH.
Qed.

Lemma getNode_None (ns : NodeSet) (i : Id) :
  getNode ns i = None <-> hasId ns i = false.
Proof.
  destruct (hasId ns i) eqn:Hh.
  - apply hasId_getNode in Hh. destruct Hh as [n Hn]. rewrite Hn.
    split; discriminate.
  - split; [reflexivity | intros _].
    destruct (getNode ns i) eqn:Hg; [|reflexivity].
    assert (hasId ns i = true) by (apply hasId_getNode; now exists n).
    congruence.
Qed.

Lemma hasId_app (ns ms : NodeSet) (i : Id) :
  hasId (ns ++ ms) i = hasId ns i || hasId ms i.
Proof. unfold hasId. apply existsb_app. Qed.

Lemma nid_applyNodePatch (p : NodePatch) (n : Node) :
  nid (applyNodePatch p n) = nid n.
Proof. unfold applyNodePatch. now destruct (String.eqb (nid n) (np_id p)). Qed.

Lemma nid_applyNodePatches (ps : list NodePatch) (n : Node) :
  nid (applyNodePatches ps n) = nid n.
Proof.
  unfold applyNodePatches. revert n.
  induction ps as [|p ps IH]; intros n; simpl; [reflexivity|].
  rewrite IH. apply nid_applyNodePatch.
Qed.

Lemma getIds_applyNodePatch (p : NodePatch) (ns : NodeSet) :
  getIds (map (applyNodePatch p) ns) = getIds ns.
Proof.
  unfold getIds. rewrite map_map. apply map_ext. intros n.
  apply nid_applyNodePatch.
Qed.

Lemma hasId_ext (ns ms : NodeSet) (i : Id) :
  getIds ns = getIds ms -> hasId ns i = hasId ms i.
Proof.
  intros He. destruct (hasId ms i) eqn:Hm.
  - apply hasId_In. rewrite He. now apply hasId_In.
  - destruct (hasId ns i) eqn:Hn; [|reflexivity].
    apply hasId_In in Hn. rewrite He in Hn. apply hasId_In in Hn. congruence.
Qed.

Lemma updateNode_stored (ns : NodeSet) (p : NodePatch) :
  hasId ns (np_id p) = true -> updateNode ns p = map (applyNodePatch p) ns.
Proof. unfold updateNode. intros ->. reflexivity. Qed.

(** An update whose ids are all stored rewrites the items in place. *)
Lemma updateNodes_stored (ps : list NodePatch) (ns : NodeSet) :
  Forall (fun p => hasId ns (np_id p) = true) ps ->
  updateNodes ns ps = map (applyNodePatches ps) ns.
Proof.
  unfold updateNodes, applyNodePatches. revert ns.
  induction ps as [|p ps IH]; intros ns Hall; simpl.
  - now rewrite map_id.
  - inversion Hall as [|p' ps' Hp Hps]; subst.
    rewrite (updateNode_stored _ _ Hp), IH.
    + now rewrite map_map.
    + eapply Forall_impl; [|exact Hps]. intros q Hq. simpl in Hq.
      rewrite <- Hq. apply hasId_ext. apply getIds_applyNodePatch.
Qed.

Lemma getIds_updateNodes_stored (ps : list NodePatch) (ns : NodeSet) :
  Forall (fun p => hasId ns (np_id p) = true) ps ->
  getIds (updateNodes ns ps) = getIds ns.
Proof.
  intros Hall. rewrite (updateNodes_stored _ Hall). unfold getIds.
  rewrite map_map. apply map_ext. intros n. apply nid_applyNodePatches.
Qed.

Lemma eid_applyEdgePatch (p : EdgePatch) (e : Edge) :
  eid (applyEdgePatch p e) = eid e.
Proof. unfold applyEdgePatch. now destruct (Nat.eqb (eid e) (ep_id p)). Qed.

Lemma eid_applyEdgePatches (ps : list EdgePatch) (e : Edge) :
  eid (applyEdgePatches ps e) = eid e.
Proof.
  unfold applyEdgePatches. revert e.
  induction ps as [|p ps IH]; intros e; simpl; [reflexivity|].
  rewrite IH. apply eid_applyEdgePatch.
Qed.

Lemma hasEdgeId_In (es : EdgeSet) (i : EdgeId) :
  hasEdgeId es i = true <-> In i (map eid es).
Proof.
  unfold hasEdgeId. rewrite existsb_exists, in_map_iff. split.
  - intros [e [Hin He]]. apply Nat.eqb_eq in He. now exists e.
  - intros [e [He Hin]]. exists e. split; [assumption|]. now apply Nat.eqb_eq.
Qed.

Lemma updateEdge_stored (es : EdgeSet) (p : EdgePatch) :
  hasEdgeId es (ep_id p) = true -> updateEdge es p = map (applyEdgePatch p) es.
Proof. unfold updateEdge. intros ->. reflexivity. Qed.

Lemma updateEdges_stored (ps : list EdgePatch) (es : EdgeSet) :
  Forall (fun p => In (ep_id p) (map eid es)) ps ->
  updateEdges es ps = map (applyEdgePatches ps) es.
Proof.
  unfold updateEdges, applyEdgePatches. revert es.
  induction ps as [|p ps IH]; intros es Hall; simpl.
  - now rewrite map_id.
  - inversion Hall as [|p' ps' Hp Hps]; subst.
    apply hasEdgeId_In in Hp.
    rewrite (updateEdge_stored _ _ Hp), IH.
    + now rewrite map_map.
    + eapply Forall_impl; [|exact Hps]. intros q Hq. simpl in Hq.
      rewrite map_map.
      erewrite map_ext; [exact Hq|]. intros e. apply eid_applyEdgePatch.
Qed.

(** *** The highlight state machine *)

Lemma optId_eqb_eq (a b : option Id) : optId_eqb a b = true <-> a = b.
Proof.
  destruct a as [x|], b as [y|]; simpl; try (split; congruence).
  rewrite String.eqb_eq. split; congruence.
Qed.

Lemma optId_eqb_refl (a : option Id) : optId_eqb a a = true.
Proof. now apply optId_eqb_eq. Qed.

Lemma optId_eqb_neq (a b : option Id) : optId_eqb a b = false <-> a <> b.
Proof.
  destruct (optId_eqb a b) eqn:He.
  - apply optId_eqb_eq in He. split; [discriminate | contradiction].
  - split; [|reflexivity]. intros _ Hab. apply optId_eqb_eq in Hab. congruence.
Qed.

(** C10. Tracing the node that is already selected does nothing at all:
    the state, journal included, is returned as it was, so no reset pass
    ran; for any other node the operation is the reset followed by the
    entry into the traced state. *)
Theorem traceBack_selected_is_noop (s : State) (node : Id) :
  (selectedNode s = Some node -> traceBack node s = (Returned tt, s)) /\
  (selectedNode s <> Some node ->
   traceBack node s = (resetProperties ;; enterTraced node) s).
Proof.
  unfold traceBack, bind, gets. split; intros Hsel.
  - rewrite Hsel, optId_eqb_refl. reflexivity.
  - assert (Hne : optId_eqb (Some node) (selectedNode s) = false)
      by (apply optId_eqb_neq; congruence).
    rewrite Hne. reflexivity.
Qed.

(** *** Expansion and the link source *)

Lemma getSubPages_rejects (peopleMode : bool) (pageName : string) (api : ApiOutcome) :
  getSubPages peopleMode pageName api = Rejected <->
  peopleMode = false /\ api = ApiFailed.
Proof.
  destruct api as [r l|], peopleMode; simpl; split;
    try discriminate; try (intros [? ?]; discriminate); auto.
Qed.

Lemma expandNodeBegin_reads (id : Id) (s : State) :
  let s1 := snd (expandNodeBegin id s) in
  nodes s1 = nodes s /\ edges s1 = edges s /\ journal s1 = journal s.
Proof.
  unfold expandNodeBegin, startLoading, bind, gets, modify, ret, throw. simpl.
  destruct (getNode (nodes s) id); simpl; auto.
Qed.

(** C4. When the promise of the link source rejects, the expansion writes
    to neither data set: nodes, edges and the journal of writes are what
    they were, both for the handler run on any state the graph is in when
    the rejection arrives and for the whole call. *)
Theorem expandNode_rejected_keeps_graph (id : Id) (s : State) :
  (let s' := snd (expandNodeSettle id Rejected s) in
   fst (expandNodeSettle id Rejected s) = Returned tt /\
   nodes s' = nodes s /\ edges s' = edges s /\ journal s' = journal s) /\
  (forall (peopleMode : bool) (api : ApiOutcome),
     (forall pageName, getSubPages peopleMode pageName api = Rejected) ->
     let s' := snd (expandNode peopleMode id api s) in
     nodes s' = nodes s /\ edges s' = edges s /\ journal s' = journal s).
Proof.
  split.
  - simpl. auto.
  - intros peopleMode api Hrej. unfold expandNode, bind.
    pose proof (expandNodeBegin_reads id s) as Hb. simpl in Hb.
    destruct (expandNodeBegin id s) as [[pagename|e] s1]; simpl in *.
    + rewrite Hrej. simpl. exact Hb.
    + exact Hb.
Qed.

(** *** Traceback *)

(** The loop never needs more than its 102 passes. *)
Lemma traceLoop_finishes (ns : NodeSet) (roots : list Id) (budget : nat) :
  forall cur iterations path,
    102 <= budget + iterations -> iterations <= 101 ->
    traceLoop budget ns roots cur iterations path <> Threw Unfinished.
Proof.
  induction budget as [|b IH]; intros cur it path Hb Hit.
  - lia.
  - simpl. destruct cur as [c|]; simpl.
    + destruct (getNode ns c) as [n|]; [|discriminate].
      destruct (Nat.ltb 100 it) eqn:Hlt; [discriminate|].
      apply Nat.ltb_ge in Hlt.
      destruct (existsb (String.eqb c) roots); [discriminate|].
      apply IH; lia.
    + destruct (Nat.ltb 100 it) eqn:Hlt; [discriminate|].
      apply Nat.ltb_ge in Hlt. apply IH; lia.
Qed.

(** The failsafe: when every node on the way is stored and none of the
    first 101 is a start page, the loop gives the empty path. *)
Lemma traceLoop_failsafe (ns : NodeSet) (roots : list Id) (budget : nat) :
  forall cur iterations path,
    budget + iterations = 102 -> iterations <= 101 ->
    (forall k, k < budget -> exists c, ancestor ns (S k) cur = Returned c) ->
    (forall k c, k + iterations <= 100 -> ancestor ns k cur = Returned c ->
                 isStartPage roots c = false) ->
    traceLoop budget ns roots cur iterations path = Returned [].
Proof.
  induction budget as [|b IH]; intros cur it path Hb Hit Hwalk Hroots.
  - lia.
  - simpl.
    destruct (Hwalk 0 ltac:(lia)) as [c0 Hc0]. simpl in Hc0.
    destruct (parentOf ns cur) as [next|e] eqn:Hp; [|discriminate].
    destruct (Nat.ltb 100 it) eqn:Hlt; [reflexivity|].
    apply Nat.ltb_ge in Hlt.
    rewrite (Hroots 0 cur ltac:(lia) eq_refl).
    apply IH.
    + lia.
    + lia.
    + intros k Hk. destruct (Hwalk (S k) ltac:(lia)) as [c Hc].
      exists c. simpl in Hc. rewrite Hp in Hc. exact Hc.
    + intros k c Hk Hc. apply (Hroots (S k) c); [lia|].
      simpl. rewrite Hp. exact Hc.
Qed.

Lemma getTraceBackNodes_failsafe (ns : NodeSet) (roots : list Id) (node : Id) :
  (forall k, k <= 102 -> exists c, ancestor ns k (Some node) = Returned c) ->
  (forall k c, k <= 100 -> ancestor ns k (Some node) = Returned c ->
               isStartPage roots c = false) ->
  getTraceBackNodes ns roots node = Returned [].
Proof.
  intros Hwalk Hroots. unfold getTraceBackNodes.
  rewrite (@traceLoop_failsafe ns roots 102 (Some node) 0 []); try reflexivity.
  - lia.
  - intros k Hk. apply Hwalk. lia.
  - intros k c Hk. apply Hroots. lia.
Qed.

Lemma definedIds_app (p q : list (option Id)) :
  definedIds (p ++ q) = definedIds p ++ definedIds q.
Proof.
  induction p as [|[i|] p IH]; simpl; [reflexivity | now rewrite IH | exact IH].
Qed.

(** Once the walk has left the stored chain ([undefined] as current
    node), only the failsafe ends the loop. *)
Lemma traceLoop_undefined (ns : NodeSet) (roots : list Id) (budget : nat) :
  forall iterations path result,
    traceLoop budget ns roots None iterations path = Returned result ->
    result = [].
Proof.
  induction budget as [|b IH]; intros it path result Hrun; simpl in Hrun;
    [discriminate|].
  destruct (Nat.ltb 100 it).
  - now injection Hrun as <-.
  - eapply IH. exact Hrun.
Qed.

(** A path the loop returns holds ids only, so [definedIds] reads it off
    without loss. *)
Lemma traceLoop_defined (ns : NodeSet) (roots : list Id) (budget : nat) :
  forall cur iterations path result,
    traceLoop budget ns roots cur iterations path = Returned result ->
    map Some (definedIds path) = path ->
    map Some (definedIds result) = result.
Proof.
  induction budget as [|b IH]; intros cur it path result Hrun Hpath;
    [discriminate|].
  destruct cur as [c|].
  - simpl in Hrun. destruct (getNode ns c) as [n|]; [|discriminate].
    assert (Hpath' : map Some (definedIds (path ++ [Some c])) = path ++ [Some c])
      by (rewrite definedIds_app, map_app, Hpath; reflexivity).
    destruct (Nat.ltb 100 it); [now injection Hrun as <-|].
    destruct (existsb (String.eqb c) roots); [now injection Hrun as <-|].
    eapply IH; eassumption.
  - apply traceLoop_undefined in Hrun. now subst.
Qed.

Lemma getTraceBackNodes_exact (ns : NodeSet) (roots : list Id) (node : Id)
    (path : list Id) :
  getTraceBackNodes ns roots node = Returned path <->
  traceLoop 102 ns roots (Some node) 0 [] = Returned (map Some path).
Proof.
  unfold getTraceBackNodes.
  destruct (traceLoop 102 ns roots (Some node) 0 []) as [p|e] eqn:Hrun.
  - pose proof (@traceLoop_defined ns roots 102 (Some node) 0 [] p Hrun eq_refl) as Hdef.
    split; intros Heq.
    + injection Heq as <-. now rewrite Hdef.
    + injection Heq as ->. f_equal.
      clear. induction path as [|i path IH]; simpl; [reflexivity | now rewrite IH].
  - split; discriminate.
Qed.

(** C7. The edge derivation reverses its argument and pushes one entry per
    consecutive pair, whatever the lookup answers: the result always has
    one entry less than there are nodes, and the entry of a pair that no
    edge connects is the empty answer of the lookup. *)
Theorem getTraceBackEdges_one_entry_per_pair (es : EdgeSet) (tbnodes : list Id) :
  fst (getTraceBackEdges es tbnodes) = rev tbnodes /\
  length (snd (getTraceBackEdges es tbnodes)) = length tbnodes - 1 /\
  forall i, i < length tbnodes - 1 ->
    nth i (snd (getTraceBackEdges es tbnodes)) None =
    getEdgeConnecting es (nth i (rev tbnodes) "") (nth (i + 1) (rev tbnodes) "").
Proof.
  unfold getTraceBackEdges. simpl. split; [reflexivity|].
  rewrite length_map, length_seq, length_rev. split; [reflexivity|].
  intros i Hi.
  set (f := fun j => getEdgeConnecting es (nth j (rev tbnodes) "")
                       (nth (j + 1) (rev tbnodes) "")).
  rewrite (nth_indep _ None (f 0)) by (rewrite length_map, length_seq; exact Hi).
  rewrite map_nth, seq_nth by exact Hi. reflexivity.
Qed.

(** *** [resetProperties] *)

Lemma mapOutcome_returns {A B} (f : A -> Outcome B) (g : A -> B) (l : list A) :
  Forall (fun a => f a = Returned (g a)) l ->
  mapOutcome f l = Returned (map g l).
Proof.
  induction 1 as [|a l Ha _ IH]; simpl; [reflexivity|].
  now rewrite Ha, IH.
Qed.

Lemma colorNodes_stored (ms : list Node) (highlight : bool) (s : State) :
  colorNodes (map Some ms) highlight s =
  (Returned tt,
   record (setNodes s (updateNodes (nodes s) (map (colorPatch highlight) ms)))
          (NodesUpdate (map nid ms))).
Proof.
  unfold colorNodes, bind, liftOutcome.
  rewrite (@mapOutcome_returns _ _ _
             (fun o => match o with Some n => colorPatch highlight n
                                  | None => nodeRef "" end)).
  - unfold nodes_update, modify. rewrite !map_map. simpl.
    rewrite (map_ext (fun x => colorPatch highlight x) (colorPatch highlight))
      by reflexivity.
    reflexivity.
  - apply Forall_forall. intros o Ho. apply in_map_iff in Ho.
    destruct Ho as [n [<- _]]. reflexivity.
Qed.

Lemma storedNodes_stored (ns : NodeSet) (ids : list Id) :
  Forall (fun n => hasId ns (nid n) = true) (storedNodes ns ids).
Proof.
  induction ids as [|i ids IH]; simpl; [constructor|].
  destruct (getNode ns i) as [n|] eqn:Hg; [|exact IH].
  constructor; [|exact IH].
  rewrite (getNode_nid _ _ Hg). apply hasId_getNode. now exists n.
Qed.

Lemma getIds_resetNodes (ns : NodeSet) (tn : list Id) :
  getIds (resetNodes ns tn) = getIds ns.
Proof.
  unfold resetNodes.
  assert (Hc : getIds (updateNodes ns (map (colorPatch false) (storedNodes ns tn)))
               = getIds ns).
  { apply getIds_updateNodes_stored. apply Forall_map.
    exact (storedNodes_stored ns tn). }
  rewrite getIds_updateNodes_stored; [exact Hc|].
  apply Forall_map, Forall_forall. intros n Hn. simpl.
  apply hasId_In. unfold getIds. now apply in_map.
Qed.

Lemma targetsStored_ids (ns ms : NodeSet) (es : EdgeSet) :
  getIds ms = getIds ns -> targetsStored ns es -> targetsStored ms es.
Proof.
  unfold targetsStored. intros He Ht.
  eapply Forall_impl; [|exact Ht]. intros e Hh. simpl in *.
  rewrite <- Hh. now apply hasId_ext.
Qed.

Lemma resetEdge_stored (ns : NodeSet) (es : EdgeSet) :
  targetsStored ns es ->
  mapOutcome (resetEdge ns) es = Returned (map (resetPatch ns) es).
Proof.
  intros Ht. apply mapOutcome_returns.
  eapply Forall_impl; [|exact Ht]. intros e Hh. simpl in Hh.
  apply hasId_getNode in Hh. destruct Hh as [n Hn].
  unfold resetEdge, resetPatch, targetLevel. now rewrite Hn.
Qed.

(** A reset pass on a highlighted graph whose edges all point at stored
    nodes runs to its end, and leaves [resetState]. *)
Lemma resetProperties_runs (s : State) :
  isReset s = false ->
  targetsStored (nodes s) (edges s) ->
  exists log,
    resetProperties s = (Returned tt, resetState s (journal s ++ log)) /\
    Forall isUpdate log.
Proof.
  intros Hr Ht.
  assert (Hids := getIds_resetNodes (nodes s) (tracenodes s)).
  assert (Ht' := targetsStored_ids _ Hids Ht).
  unfold resetProperties. rewrite run_gets, Hr.
  do 3 step.
  unfold resetNodes in Ht'. unfold resetState, resetNodes.
  remember (storedNodes (nodes s) (tracenodes s)) as modnodes eqn:Hm.
  destruct (Nat.ltb 0 (length modnodes)) eqn:Hlen.
  - unfold bind at 1. rewrite colorNodes_stored. fields.
    do 4 step.
    rewrite (resetEdge_stored Ht'). do 4 step. unfold modify. fields.
    eexists. split.
    + rewrite <- ?app_assoc. reflexivity.
    + repeat constructor.
  - apply Nat.ltb_ge in Hlen.
    assert (Hnil : modnodes = []) by (destruct modnodes; simpl in Hlen; [reflexivity|lia]).
    rewrite Hnil in *.
    change (updateNodes (nodes s) (map (colorPatch false) [])) with (nodes s) in *.
    do 5 step.
    rewrite (resetEdge_stored Ht'). do 4 step. unfold modify. fields.
    eexists. split.
    + rewrite <- ?app_assoc. reflexivity.
    + repeat constructor.
Qed.
(** What a reset pass on a highlighted graph does in every case: it
    either runs to its end, or throws at line 182 on an edge whose target
    is not stored, after the node updates and before the flag is set. *)
Lemma resetProperties_outcome (s : State) :
  isReset s = false ->
  exists o s1 log,
    resetProperties s = (o, s1) /\
    getIds (nodes s1) = getIds (nodes s) /\
    journal s1 = journal s ++ log /\ Forall isUpdate log /\
    selectedNode s1 = None /\
    match o with
    | Returned _ => tracenodes s1 = [] /\ traceedges s1 = [] /\ isReset s1 = true
    | Threw _ => isReset s1 = false
    end.
Proof.
  intros Hr.
  assert (Hids := getIds_resetNodes (nodes s) (tracenodes s)).
  unfold resetProperties. rewrite run_gets, Hr.
  do 3 step. unfold resetNodes in Hids.
  remember (storedNodes (nodes s) (tracenodes s)) as modnodes eqn:Hm.
  assert (Hcol : exists log0,
            Forall isUpdate log0 /\
            (if Nat.ltb 0 (length modnodes)
             then colorNodes (map Some modnodes) false else ret tt)
              (setSelectedNode s None)
            = (Returned tt,
               mkState (updateNodes (nodes s) (map (colorPatch false) modnodes))
                 (edges s) (isReset s) None (traceedges s) (tracenodes s)
                 (startpages s) (lastClickedNode s) (loading s)
                 (journal s ++ log0))).
  { destruct (Nat.ltb 0 (length modnodes)) eqn:Hlen.
    - rewrite colorNodes_stored. fields. eexists. split; [|reflexivity].
      repeat constructor.
    - apply Nat.ltb_ge in Hlen.
      assert (Hnil : modnodes = [])
        by (destruct modnodes; simpl in Hlen; [reflexivity|lia]).
      rewrite Hnil. exists []. split; [constructor|].
      unfold ret. fields. now rewrite app_nil_r. }
  destruct Hcol as (log0 & Hlog0 & Hcol).
  erewrite run_bind by exact Hcol. do 4 step.
  match goal with
  | |- context [mapOutcome ?f ?es] => destruct (mapOutcome f es) as [ups|e]
  end.
  - do 4 step. unfold modify. fields. rewrite Hr in *.
    eexists. eexists. eexists. split; [reflexivity|]. fields.
    split; [exact Hids|].
    split; [rewrite <- !app_assoc; reflexivity|].
    split; [|repeat split; reflexivity].
    apply Forall_app. split; [exact Hlog0 | repeat constructor].
  - rewrite run_lift_threw.
    eexists. eexists. eexists. split; [reflexivity|]. fields.
    split; [exact Hids|].
    split; [rewrite <- !app_assoc; reflexivity|].
    split; [|split; [reflexivity | exact Hr]].
    apply Forall_app. split; [exact Hlog0 | repeat constructor].
Qed.

Lemma resetProperties_when_reset (s : State) :
  isReset s = true -> resetProperties s = (Returned tt, s).
Proof.
  intros Hr. unfold resetProperties, bind, gets. now rewrite Hr.
Qed.

(** X26. Reset is idempotent where it gets through.  With the flag on
    [Reset] the call returns the state untouched.  Whenever a call
    returns, calling it again on the result changes nothing, the flag is
    on [Reset] and nothing is selected or traced any more; two calls in a
    row leave what one call leaves.  The call does return on every store
    whose edges point at stored nodes. *)
Theorem resetProperties_idempotent (s : State) :
  (isReset s = true -> resetProperties s = (Returned tt, s)) /\
  (resetProperties ;; resetProperties) s = resetProperties s /\
  (forall s1,
     resetProperties s = (Returned tt, s1) ->
     resetProperties s1 = (Returned tt, s1) /\
     isReset s1 = true /\
     (highlightInv s -> highlightCleared s1)) /\
  (targetsStored (nodes s) (edges s) ->
   exists s1, resetProperties s = (Returned tt, s1)).
Proof.
  assert (Hret : forall s1, resetProperties s = (Returned tt, s1) ->
                 isReset s1 = true /\ (highlightInv s -> highlightCleared s1)).
  { intros s1 Hrun. destruct (isReset s) eqn:Hr.
    - rewrite (resetProperties_when_reset s Hr) in Hrun. injection Hrun as <-.
      split; [exact Hr|]. intros Hinv. now apply Hinv.
    - destruct (resetProperties_outcome s Hr)
        as (o & s1' & log & Hrun' & _ & _ & _ & Hsel & Ho).
      rewrite Hrun in Hrun'. injection Hrun' as <- <-.
      destruct Ho as (Htn & Hte & Hflag).
      split; [exact Hflag|]. intros _. unfold highlightCleared. auto. }
  split; [apply resetProperties_when_reset|].
  split.
  { unfold bind. destruct (resetProperties s) as [[[]|e] s1] eqn:Hrun; [|reflexivity].
    apply resetProperties_when_reset. now apply Hret. }
  split.
  { intros s1 Hrun. destruct (Hret s1 Hrun) as [Hflag Hc].
    split; [now apply resetProperties_when_reset|]. now split. }
  intros Ht. destruct (isReset s) eqn:Hr.
  - exists s. now apply resetProperties_when_reset.
  - destruct (resetProperties_runs s Hr Ht) as [log [Hrun _]]. eexists. exact Hrun.
Qed.

(** *** Removal *)

Lemma onlyUpdates_refl (s : State) : onlyUpdates s s.
Proof.
  unfold onlyUpdates. repeat split; auto.
  exists []. split; [now rewrite app_nil_r | constructor].
Qed.

Lemma onlyUpdates_trans (s1 s2 s3 : State) :
  onlyUpdates s1 s2 -> onlyUpdates s2 s3 -> onlyUpdates s1 s3.
Proof.
  unfold onlyUpdates.
  intros (A1 & A2 & A3 & A4 & A5 & A6 & l1 & A7 & A8)
         (B1 & B2 & B3 & B4 & B5 & B6 & l2 & B7 & B8).
  repeat split; try congruence.
  exists (l1 ++ l2). split.
  - rewrite B7, A7. now rewrite app_assoc.
  - apply Forall_app. now split.
Qed.

Lemma updateNodeValue_onlyUpdates (i : Id) (s : State) :
  exists s', updateNodeValue i s = (Returned tt, s') /\ onlyUpdates s s'.
Proof.
  unfold updateNodeValue. destruct (hasId (nodes s) i) eqn:Hh.
  - eexists. split; [reflexivity|].
    unfold onlyUpdates. simpl. repeat split; auto.
    + apply (@getIds_updateNodes_stored [_]). constructor; [exact Hh | constructor].
    + eexists. split; [reflexivity|]. repeat constructor.
  - exists s. split; [reflexivity | apply onlyUpdates_refl].
Qed.

Lemma forEach_onlyUpdates {A} (f : A -> Op unit) (l : list A) :
  (forall a s, exists s', f a s = (Returned tt, s') /\ onlyUpdates s s') ->
  forall s, exists s', forEach l f s = (Returned tt, s') /\ onlyUpdates s s'.
Proof.
  intros Hf. induction l as [|a l IH]; intros s; simpl.
  - exists s. split; [reflexivity | apply onlyUpdates_refl].
  - unfold bind. destruct (Hf a s) as [s1 [H1 U1]]. rewrite H1.
    destruct (IH s1) as [s2 [H2 U2]]. exists s2. split; [exact H2|].
    eapply onlyUpdates_trans; eassumption.
Qed.

Lemma hasId_removeNode (ns : NodeSet) (i : Id) : hasId (removeNode ns i) i = false.
Proof.
  apply not_true_is_false. intros Hh. apply hasId_In in Hh.
  unfold getIds, removeNode in Hh. apply in_map_iff in Hh.
  destruct Hh as [n [Hn Hin]]. apply filter_In in Hin. destruct Hin as [_ Hf].
  apply negb_true_iff in Hf. apply String.eqb_neq in Hf. contradiction.
Qed.

Lemma existsb_eqb_In (i : Id) (l : list Id) :
  existsb (String.eqb i) l = true <-> In i l.
Proof.
  rewrite existsb_exists. split.
  - intros [x [Hin He]]. apply String.eqb_eq in He. now subst.
  - intros Hin. exists i. split; [assumption | apply String.eqb_refl].
Qed.

(** What both right-click handlers do once the reset has run. *)
Lemma removal_after_reset (nodeId : Id) (neighbors : list Id) (s1 : State) :
  highlightCleared s1 -> isReset s1 = true ->
  exists s' later,
    (nodes_remove nodeId ;;
     modify (fun s => if optId_eqb (lastClickedNode s) (Some nodeId)
                      then setLastClickedNode s None else s) ;;
     forEach neighbors updateNodeValue) s1 = (Returned tt, s') /\
    journal s' = journal s1 ++ NodesRemove nodeId :: later /\
    Forall isUpdate later /\
    hasId (nodes s') nodeId = false /\
    highlightCleared s' /\ isReset s' = true.
Proof.
  intros (Hsel & Htn & Hte) Hr.
  unfold bind, nodes_remove, modify.
  set (s2 := record (setNodes s1 (removeNode (nodes s1) nodeId)) (NodesRemove nodeId)).
  set (s3 := if optId_eqb (lastClickedNode s2) (Some nodeId)
             then setLastClickedNode s2 None else s2).
  destruct (forEach_onlyUpdates updateNodeValue neighbors
              updateNodeValue_onlyUpdates s3)
    as (s' & Hrun & Hids & _ & Hr' & Hsel' & Htn' & Hte' & later & Hj & Hup).
  assert (E3 : nodes s3 = removeNode (nodes s1) nodeId /\
               journal s3 = journal s1 ++ [NodesRemove nodeId] /\
               isReset s3 = isReset s1 /\ selectedNode s3 = selectedNode s1 /\
               tracenodes s3 = tracenodes s1 /\ traceedges s3 = traceedges s1).
  { unfold s3. destruct (optId_eqb (lastClickedNode s2) (Some nodeId));
      simpl; repeat split; reflexivity. }
  destruct E3 as (En & Ej & Er & Es & Et & Ee).
  exists s', later. split; [exact Hrun|].
  split; [rewrite Hj, Ej, <- app_assoc; reflexivity|].
  split; [exact Hup|].
  split.
  - rewrite (hasId_ext _ (nodes s3)) by exact Hids.
    rewrite En. apply hasId_removeNode.
  - unfold highlightCleared. repeat split; congruence.
Qed.

(** What follows the reset in both right-click handlers. *)
Lemma handlers_reset_first (s : State) (nodeId : Id) (handler : option Id -> Op unit) :
  truthy (Some nodeId) = true ->
  isReset s = false ->
  selectedNode s = Some nodeId \/ In nodeId (tracenodes s) ->
  handler = removeNodeEvent \/ handler = removeNodeEventGuarded ->
  handler (Some nodeId) s =
  (resetProperties ;;
   ns <- gets nodes ;;
   es <- gets edges ;;
   nodes_remove nodeId ;;
   modify (fun s => if optId_eqb (lastClickedNode s) (Some nodeId)
                    then setLastClickedNode s None else s) ;;
   forEach (getConnectedNodes ns es nodeId) updateNodeValue) s.
Proof.
  intros Htruthy Hr Hin [-> | ->].
  - unfold removeNodeEvent. rewrite Htruthy, run_gets, Hr. reflexivity.
  - unfold removeNodeEventGuarded. rewrite Htruthy, !run_gets, Hr.
    assert (Hg : optId_eqb (selectedNode s) (Some nodeId)
                 || existsb (String.eqb nodeId) (tracenodes s) = true).
    { apply orb_true_iff. destruct Hin as [Hs | Hi].
      - left. now apply optId_eqb_eq.
      - right. now apply existsb_eqb_In. }
    rewrite Hg. reflexivity.
Qed.

(** The button handler takes the neighbours first and then resets, before
    it removes the node, whatever the flag says. *)
Lemma removeSelected_resets_first (s : State) (nodeId : Id) :
  orId (selectedNode s) (lastClickedNode s) = Some nodeId ->
  truthy (Some nodeId) = true ->
  removeSelected s =
  (resetProperties ;;
   nodes_remove nodeId ;;
   modify (fun s => setSelectedNode s None) ;;
   modify (fun s => setLastClickedNode s None) ;;
   forEach (getConnectedNodes (nodes s) (edges s) nodeId) updateNodeValue) s.
Proof.
  intros Hsel Htruthy. unfold removeSelected. rewrite !run_gets, Hsel, Htruthy.
  reflexivity.
Qed.

(** C6. Removing the selected node, or a node of the trace, while the
    highlight is on.  Either the reset runs to its end first, and then the
    journal of the handler is the journal of that reset, the removal, and
    size updates, the node is gone and neither selection nor trace names
    anything; or the reset throws, the handler stops with it and the node
    is still stored.  The first is the case on every store whose edges
    point at stored nodes.  This holds for the handler of [bindings.js]
    and for the earlier one that resets only in this case. *)
Theorem removeNodeEvent_resets_first (s : State) (nodeId : Id)
    (handler : option Id -> Op unit) :
  truthy (Some nodeId) = true ->
  isReset s = false ->
  selectedNode s = Some nodeId \/ In nodeId (tracenodes s) ->
  handler = removeNodeEvent \/ handler = removeNodeEventGuarded ->
  ((exists s1 log s' later,
      resetProperties s = (Returned tt, s1) /\
      journal s1 = journal s ++ log /\ Forall isUpdate log /\
      hasId (nodes s1) nodeId = hasId (nodes s) nodeId /\
      highlightCleared s1 /\ isReset s1 = true /\
      handler (Some nodeId) s = (Returned tt, s') /\
      journal s' = journal s1 ++ NodesRemove nodeId :: later /\
      Forall isUpdate later /\
      hasId (nodes s') nodeId = false /\
      highlightCleared s' /\ isReset s' = true)
   \/
   (exists e s1 log,
      resetProperties s = (Threw e, s1) /\
      handler (Some nodeId) s = (Threw e, s1) /\
      hasId (nodes s1) nodeId = hasId (nodes s) nodeId /\
      journal s1 = journal s ++ log /\ Forall isUpdate log))
  /\
  (targetsStored (nodes s) (edges s) ->
   exists s', handler (Some nodeId) s = (Returned tt, s')).
Proof.
  intros Htruthy Hr Hin Hh.
  pose proof (@handlers_reset_first s nodeId handler Htruthy Hr Hin Hh) as Hrun.
  destruct (resetProperties_outcome s Hr)
    as (o & s1 & log & Hreset & Hids & Hj & Hlog & Hsel & Ho).
  assert (Hcases :
    (exists s1 log s' later,
      resetProperties s = (Returned tt, s1) /\
      journal s1 = journal s ++ log /\ Forall isUpdate log /\
      hasId (nodes s1) nodeId = hasId (nodes s) nodeId /\
      highlightCleared s1 /\ isReset s1 = true /\
      handler (Some nodeId) s = (Returned tt, s') /\
      journal s' = journal s1 ++ NodesRemove nodeId :: later /\
      Forall isUpdate later /\
      hasId (nodes s') nodeId = false /\
      highlightCleared s' /\ isReset s' = true)
   \/
   (exists e s1 log,
      resetProperties s = (Threw e, s1) /\
      handler (Some nodeId) s = (Threw e, s1) /\
      hasId (nodes s1) nodeId = hasId (nodes s) nodeId /\
      journal s1 = journal s ++ log /\ Forall isUpdate log)).
  { destruct o as [[]|e].
    - left. destruct Ho as (Htn & Hte & Hflag).
      assert (Hc1 : highlightCleared s1) by (unfold highlightCleared; auto).
      destruct (@removal_after_reset nodeId
                  (getConnectedNodes (nodes s1) (edges s1) nodeId) s1 Hc1 Hflag)
        as (s' & later & Hrem & Hj' & Hlater & Hgone & Hc' & Hflag').
      exists s1, log, s', later.
      split; [exact Hreset|]. split; [exact Hj|]. split; [exact Hlog|].
      split; [now apply hasId_ext|]. split; [exact Hc1|]. split; [exact Hflag|].
      split.
      { rewrite Hrun. erewrite run_bind by exact Hreset.
        rewrite !run_gets. exact Hrem. }
      repeat split; try assumption; apply Hc'.
    - right. exists e, s1, log.
      split; [exact Hreset|].
      split; [rewrite Hrun; now apply run_bind_threw|].
      split; [now apply hasId_ext|]. now split. }
  split; [exact Hcases|].
  intros Ht. destruct (resetProperties_runs s Hr Ht) as [log' [Hruns _]].
  destruct Hcases as [(s1' & _ & s' & _ & _ & _ & _ & _ & _ & _ & Hdone & _)
                     | (e & s1' & _ & Hthrew & _)].
  - now exists s'.
  - rewrite Hruns in Hthrew. discriminate.
Qed.

(** *** Rename and merge *)

Lemma eid_injective (es : EdgeSet) (a b : Edge) :
  NoDup (map eid es) -> In a es -> In b es -> eid a = eid b -> a = b.
Proof.
  induction es as [|e es IH]; simpl; intros Hnd Ha Hb Hab; [contradiction|].
  inversion Hnd as [|x l Hnotin Hnd']; subst.
  destruct Ha as [-> | Ha], Hb as [-> | Hb]; auto.
  - exfalso. apply Hnotin. rewrite Hab. now apply in_map.
  - exfalso. apply Hnotin. rewrite <- Hab. now apply in_map.
Qed.

Lemma applyEdgePatches_app (ps qs : list EdgePatch) (e : Edge) :
  applyEdgePatches (ps ++ qs) e = applyEdgePatches qs (applyEdgePatches ps e).
Proof. unfold applyEdgePatches. apply fold_left_app. Qed.

(** Patches for other ids leave an edge alone. *)
Lemma applyEdgePatches_others (ps : list EdgePatch) (e : Edge) :
  Forall (fun p => ep_id p <> eid e) ps -> applyEdgePatches ps e = e.
Proof.
  unfold applyEdgePatches. induction 1 as [|p ps Hp _ IH]; simpl; [reflexivity|].
  unfold applyEdgePatch at 2.
  destruct (Nat.eqb (eid e) (ep_id p)) eqn:He.
  - apply Nat.eqb_eq in He. congruence.
  - exact IH.
Qed.

(** When every patch for an id writes the same edge, that edge is what
    the update leaves. *)
Lemma applyEdgePatches_same (target : Edge) (ps : list EdgePatch) :
  (forall p e0, In p ps -> ep_id p = eid target -> eid e0 = eid target ->
                patchEdge e0 p = target) ->
  forall e0, eid e0 = eid target ->
    e0 = target \/ (exists p, In p ps /\ ep_id p = eid target) ->
    applyEdgePatches ps e0 = target.
Proof.
  unfold applyEdgePatches.
  induction ps as [|p ps IH]; intros Hsame e0 He0 Hor; simpl.
  - destruct Hor as [-> | [p [[] _]]]. reflexivity.
  - assert (Hsame' : forall q e1, In q ps -> ep_id q = eid target ->
                                  eid e1 = eid target -> patchEdge e1 q = target)
      by (intros q e1 Hq; apply Hsame; now right).
    unfold applyEdgePatch at 2.
    destruct (Nat.eqb (eid e0) (ep_id p)) eqn:He.
    + apply Nat.eqb_eq in He.
      rewrite (Hsame p e0 (or_introl eq_refl)) by congruence.
      apply IH; auto.
    + apply Nat.eqb_neq in He. apply IH; auto.
      destruct Hor as [-> | [q [[<- | Hq] Hid]]]; auto.
      * congruence.
      * right. now exists q.
Qed.

Lemma repointedEdges_stored (es : EdgeSet) (oldId newId : Id) :
  Forall (fun p => In (ep_id p) (map eid es)) (repointedEdges es oldId newId).
Proof.
  unfold repointedEdges. apply Forall_app. split;
    apply Forall_map, Forall_forall; intros e He; simpl;
    apply filter_In in He; destruct He as [He _]; now apply in_map.
Qed.

(** Lines 21-30 on an edge that points at the old node. *)
Lemma repointed_incoming (es : EdgeSet) (oldId newId : Id) (e : Edge) :
  NoDup (map eid es) -> In e es -> to e = oldId ->
  applyEdgePatches (repointedEdges es oldId newId) e = withTo e newId.
Proof.
  intros Hnd Hin Hto. unfold repointedEdges. rewrite applyEdgePatches_app.
  apply applyEdgePatches_same.
  - intros p e0 Hp Hid He0. apply in_map_iff in Hp.
    destruct Hp as [e' [<- He']]. apply filter_In in He'. destruct He' as [He' _].
    simpl in Hid.
    assert (e' = e) by (apply (eid_injective es); auto).
    subst e'. unfold patchEdge, withTo. simpl. simpl in He0. now rewrite He0.
  - now rewrite eid_applyEdgePatches.
  - right. eexists. split.
    + apply in_map_iff. exists e. split; [reflexivity|].
      apply filter_In. split; [exact Hin | now apply String.eqb_eq].
    + reflexivity.
Qed.

(** Lines 21-30 on an edge that leaves the old node for another one. *)
Lemma repointed_outgoing (es : EdgeSet) (oldId newId : Id) (e : Edge) :
  NoDup (map eid es) -> In e es -> from e = oldId -> to e <> oldId ->
  applyEdgePatches (repointedEdges es oldId newId) e = withFrom e newId.
Proof.
  intros Hnd Hin Hfrom Hto. unfold repointedEdges. rewrite applyEdgePatches_app.
  match goal with
  | |- applyEdgePatches _ (applyEdgePatches ?l1 e) = _ =>
      assert (E1 : applyEdgePatches l1 e = withFrom e newId)
  end.
  { apply applyEdgePatches_same.
    - intros p e0 Hp Hid He0. apply in_map_iff in Hp.
      destruct Hp as [e' [<- He']]. apply filter_In in He'. destruct He' as [He' _].
      simpl in Hid.
      assert (e' = e) by (apply (eid_injective es); auto).
      subst e'. unfold patchEdge, withFrom. simpl. simpl in He0. now rewrite He0.
    - reflexivity.
    - right. eexists. split.
      + apply in_map_iff. exists e. split; [reflexivity|].
        apply filter_In. split; [exact Hin | now apply String.eqb_eq].
      + reflexivity. }
  rewrite E1. apply applyEdgePatches_others. apply Forall_map, Forall_forall.
  intros e' He' Hid. simpl in Hid. apply filter_In in He'.
  destruct He' as [He' Hf]. apply String.eqb_eq in Hf.
  assert (e' = e) by (apply (eid_injective es); auto).
  subst e'. contradiction.
Qed.

Lemma hasId_removeNode_other (ns : NodeSet) (i j : Id) :
  i <> j -> hasId (removeNode ns j) i = hasId ns i.
Proof.
  intros Hij. unfold hasId, removeNode.
  induction ns as [|n ns IH]; simpl; [reflexivity|].
  destruct (String.eqb (nid n) j) eqn:Hj; simpl.
  - apply String.eqb_eq in Hj.
    assert (Hni : String.eqb (nid n) i = false)
      by (apply String.eqb_neq; congruence).
    now rewrite Hni.
  - now rewrite IH.
Qed.

Lemma childPatches_stored (ns : NodeSet) (oldId newId : Id) :
  Forall (fun p => hasId ns (np_id p) = true)
    (map (childPatch newId)
         (filter (fun n => optId_eqb (parent n) (Some oldId)) ns)).
Proof.
  apply Forall_map, Forall_forall. intros n Hn. simpl.
  apply filter_In in Hn. destruct Hn as [Hn _].
  apply hasId_In. unfold getIds. now apply in_map.
Qed.

(** Lines 32-35 when the new id is stored. *)
Lemma mergeOrReplace_merges (o : option Node) (oldId newId : Id) (newName : string)
    (s : State) :
  hasId (nodes s) newId = true ->
  mergeOrReplace o oldId newId newName s =
  (Returned tt,
   mkState
     (updateNodes (removeNode (nodes s) oldId)
        [mkNodePatch newId (Some newName) None None None None None None None])
     (edges s) (isReset s) (selectedNode s) (traceedges s) (tracenodes s)
     (startpages s) (lastClickedNode s) (loading s)
     (journal s ++ [NodesRemove oldId; NodesUpdate [newId]])).
Proof.
  intros Hnew. unfold mergeOrReplace. rewrite run_gets, Hnew.
  rewrite run_nodes_remove. fields.
  unfold nodes_update, modify. fields.
  rewrite <- app_assoc. reflexivity.
Qed.

Lemma repointChildren_runs (oldId newId : Id) (s : State) :
  repointChildren oldId newId s =
  (Returned tt,
   mkState
     (updateNodes (nodes s)
        (map (childPatch newId)
           (filter (fun n => optId_eqb (parent n) (Some oldId)) (nodes s))))
     (edges s) (isReset s) (selectedNode s) (traceedges s) (tracenodes s)
     (startpages s) (lastClickedNode s) (loading s)
     (journal s ++
      [NodesUpdate
         (map np_id
            (map (childPatch newId)
               (filter (fun n => optId_eqb (parent n) (Some oldId)) (nodes s))))])).
Proof. reflexivity. Qed.

(** C1. Merge: the old node has an edge from [X] and an edge to another
    node [Y], and a different node already has the normalized new id.
    After [renameNode] the edge from [X] points at the new id, the edge
    to [Y] leaves the new id, the old record is gone, and the journal
    shows the edge update before every write to the nodes. *)
Theorem renameNode_merge_repoints (s : State) (oldId : Id) (newName : string)
    (X Y : Id) (e1 e2 : Edge) :
  getNormalizedId newName <> oldId ->
  hasId (nodes s) oldId = true ->
  hasId (nodes s) (getNormalizedId newName) = true ->
  NoDup (map eid (edges s)) ->
  In e1 (edges s) -> from e1 = X -> to e1 = oldId ->
  In e2 (edges s) -> from e2 = oldId -> to e2 = Y -> Y <> oldId ->
  exists s' kids,
    renameNode oldId newName s = (Returned (getNormalizedId newName), s') /\
    In (withTo e1 (getNormalizedId newName)) (edges s') /\
    from (withTo e1 (getNormalizedId newName)) = X /\
    In (withFrom e2 (getNormalizedId newName)) (edges s') /\
    to (withFrom e2 (getNormalizedId newName)) = Y /\
    getNode (nodes s') oldId = None /\
    journal s' =
      journal s ++
      [EdgesUpdate (map ep_id (repointedEdges (edges s) oldId (getNormalizedId newName)));
       NodesRemove oldId;
       NodesUpdate [getNormalizedId newName];
       NodesUpdate kids].
Proof.
  set (newId := getNormalizedId newName).
  intros Hne Hold Hnew Hnd He1 Hx1 Ht1 He2 Hf2 Hy2 Hy.
  assert (Hneb : String.eqb newId oldId = false) by now apply String.eqb_neq.
  unfold renameNode. rewrite run_gets. fold newId. rewrite Hneb.
  do 2 step.
  erewrite run_bind by (apply mergeOrReplace_merges; exact Hnew). fields.
  erewrite run_bind by apply repointChildren_runs. fields.
  unfold moveHighlight. step. unfold ret.
  eexists. eexists. split; [reflexivity|]. fields.
  destruct (optId_eqb (selectedNode s) (Some oldId)); fields.
  all: rewrite (@updateEdges_stored _ _ (repointedEdges_stored (edges s) oldId newId)).
  all: (split; [rewrite <- (@repointed_incoming (edges s) oldId newId e1 Hnd He1 Ht1);
                now apply in_map|]).
  all: (split; [exact Hx1|]).
  all: assert (Hto : to e2 <> oldId) by congruence.
  all: (split; [rewrite <- (@repointed_outgoing (edges s) oldId newId e2 Hnd He2 Hf2 Hto);
                now apply in_map|]).
  all: (split; [exact Hy2|]).
  all: split; [|rewrite <- ?app_assoc; reflexivity].
  all: apply getNode_None.
  all: assert (Hrm : hasId (removeNode (nodes s) oldId) newId = true)
         by (rewrite hasId_removeNode_other; assumption).
  all: erewrite hasId_ext;
         [ apply (hasId_removeNode (nodes s) oldId)
         | rewrite getIds_updateNodes_stored by apply childPatches_stored;
           apply (@getIds_updateNodes_stored [_]);
           constructor; [exact Hrm | constructor] ].
Qed.

Lemma applyNodePatches_others (ps : list NodePatch) (n : Node) :
  Forall (fun p => np_id p <> nid n) ps -> applyNodePatches ps n = n.
Proof.
  unfold applyNodePatches. induction 1 as [|p ps Hp _ IH]; simpl; [reflexivity|].
  unfold applyNodePatch at 2.
  destruct (String.eqb (nid n) (np_id p)) eqn:He.
  - apply String.eqb_eq in He. congruence.
  - exact IH.
Qed.

Lemma applyNodePatches_same (target : Node) (ps : list NodePatch) :
  (forall p n0, In p ps -> np_id p = nid target -> nid n0 = nid target ->
                patchNode n0 p = target) ->
  forall n0, nid n0 = nid target ->
    n0 = target \/ (exists p, In p ps /\ np_id p = nid target) ->
    applyNodePatches ps n0 = target.
Proof.
  unfold applyNodePatches.
  induction ps as [|p ps IH]; intros Hsame n0 Hn0 Hor; simpl.
  - destruct Hor as [-> | [p [[] _]]]. reflexivity.
  - assert (Hsame' : forall q n1, In q ps -> np_id q = nid target ->
                                  nid n1 = nid target -> patchNode n1 q = target)
      by (intros q n1 Hq; apply Hsame; now right).
    unfold applyNodePatch at 2.
    destruct (String.eqb (nid n0) (np_id p)) eqn:He.
    + apply String.eqb_eq in He.
      rewrite (Hsame p n0 (or_introl eq_refl)) by congruence.
      apply IH; auto.
    + apply String.eqb_neq in He. apply IH; auto.
      destruct Hor as [-> | [q [[<- | Hq] Hid]]]; auto.
      * congruence.
      * right. now exists q.
Qed.

Lemma getNode_map (g : Node -> Node) (ns : NodeSet) (i : Id) :
  (forall n, nid (g n) = nid n) ->
  getNode (map g ns) i = option_map g (getNode ns i).
Proof.
  intros Hg. unfold getNode. induction ns as [|n ns IH]; simpl; [reflexivity|].
  rewrite Hg. destruct (String.eqb (nid n) i); simpl; [reflexivity | exact IH].
Qed.

Lemma getNode_app_new (ns : NodeSet) (n : Node) :
  hasId ns (nid n) = false -> getNode (ns ++ [n]) (nid n) = Some n.
Proof.
  intros Hh. apply getNode_None in Hh. unfold getNode in *.
  induction ns as [|a ns IH]; simpl in *.
  - now rewrite String.eqb_refl.
  - destruct (String.eqb (nid a) (nid n)); [discriminate | now apply IH].
Qed.

Lemma renameId_parent (oldId newId : Id) (p : option Id) :
  p <> Some oldId -> option_map (renameId oldId newId) p = p.
Proof.
  destruct p as [i|]; simpl; [|reflexivity]. intros Hp. unfold renameId.
  destruct (String.eqb i oldId) eqn:He; [|reflexivity].
  apply String.eqb_eq in He. congruence.
Qed.

(** Line 46 on the record that line 40 inserted. *)
Lemma repointChildren_on_new (rest : NodeSet) (oldId : Id) (n : Node) :
  hasId rest (nid n) = false ->
  applyNodePatches
    (map (childPatch (nid n))
         (filter (fun m => optId_eqb (parent m) (Some oldId)) (rest ++ [n]))) n
  = withParent n (option_map (renameId oldId (nid n)) (parent n)).
Proof.
  intros Hfresh.
  assert (Honly : forall m, In m (rest ++ [n]) -> nid m = nid n -> m = n).
  { intros m Hm Hid. apply in_app_or in Hm. destruct Hm as [Hm | [<- | []]]; auto.
    exfalso. assert (hasId rest (nid n) = true); [|congruence].
    apply hasId_In. rewrite <- Hid. unfold getIds. now apply in_map. }
  destruct (optId_eqb (parent n) (Some oldId)) eqn:Hp.
  - apply optId_eqb_eq in Hp.
    apply applyNodePatches_same; simpl; auto.
    + intros p n0 Hin Hid Hn0. apply in_map_iff in Hin.
      destruct Hin as [m [<- Hm]]. apply filter_In in Hm. destruct Hm as [Hm _].
      simpl in Hid. rewrite (Honly m Hm Hid).
      unfold patchNode, withParent. simpl. rewrite Hn0, Hp. simpl.
      unfold renameId. now rewrite String.eqb_refl.
    + right. exists (childPatch (nid n) n). split; [|reflexivity].
      apply in_map, filter_In. split.
      * apply in_or_app. right. now left.
      * now apply optId_eqb_eq.
  - apply optId_eqb_neq in Hp. rewrite (renameId_parent _ Hp).
    rewrite applyNodePatches_others.
    + now destruct n.
    + apply Forall_map, Forall_forall. intros m Hm Hid. simpl in Hid.
      apply filter_In in Hm. destruct Hm as [Hm Hf].
      rewrite (Honly m Hm Hid) in Hf. apply optId_eqb_eq in Hf. contradiction.
Qed.

(** Lines 37-41 when no node has the new id. *)
Lemma mergeOrReplace_replaces (o : Node) (oldId newId : Id) (newName : string)
    (s : State) :
  newId <> oldId ->
  hasId (nodes s) newId = false ->
  mergeOrReplace (Some o) oldId newId newName s =
  (Returned tt,
   mkState
     (removeNode (nodes s) oldId ++ [renamedRecord o newId newName])
     (edges s) (isReset s) (selectedNode s) (traceedges s) (tracenodes s)
     (startpages s) (lastClickedNode s) (loading s)
     (journal s ++ [NodesRemove oldId; NodesAdd [newId]])).
Proof.
  intros Hne Hnew.
  assert (Hfresh : hasId (removeNode (nodes s) oldId) newId = false)
    by (rewrite hasId_removeNode_other; assumption).
  unfold mergeOrReplace. rewrite run_gets, Hnew.
  rewrite run_nodes_remove. fields.
  unfold nodes_add. fields. unfold addNodes.
  cbn [nid]. rewrite Hfresh. fields.
  rewrite <- app_assoc. reflexivity.
Qed.

(** C8. Pure rename: the record that [nodes.add] inserts under the new id
    is the old record with the id replaced and the label wrapped anew;
    value, level, colour, parent, position and font are carried over.
    When [renameNode] has returned, the stored record is that one, its
    parent following the rename when the old node was its own parent. *)
Theorem renameNode_pure_carries_over (s : State) (oldId : Id) (newName : string)
    (o : Node) :
  getNormalizedId newName <> oldId ->
  getNode (nodes s) oldId = Some o ->
  hasId (nodes s) (getNormalizedId newName) = false ->
  exists s',
    renameNode oldId newName s = (Returned (getNormalizedId newName), s') /\
    nodes s' =
      updateNodes
        (removeNode (nodes s) oldId ++ [renamedRecord o (getNormalizedId newName) newName])
        (map (childPatch (getNormalizedId newName))
           (filter (fun n => optId_eqb (parent n) (Some oldId))
              (removeNode (nodes s) oldId
               ++ [renamedRecord o (getNormalizedId newName) newName]))) /\
    getNode (nodes s') (getNormalizedId newName) =
      Some (withParent (renamedRecord o (getNormalizedId newName) newName)
              (option_map (renameId oldId (getNormalizedId newName)) (parent o))) /\
    (parent o <> Some oldId ->
     getNode (nodes s') (getNormalizedId newName) =
       Some (renamedRecord o (getNormalizedId newName) newName)) /\
    level (renamedRecord o (getNormalizedId newName) newName) = level o /\
    parent (renamedRecord o (getNormalizedId newName) newName) = parent o /\
    nx (renamedRecord o (getNormalizedId newName) newName) = nx o /\
    ny (renamedRecord o (getNormalizedId newName) newName) = ny o /\
    value (renamedRecord o (getNormalizedId newName) newName) = value o /\
    color (renamedRecord o (getNormalizedId newName) newName) = color o /\
    font (renamedRecord o (getNormalizedId newName) newName) = font o /\
    getNode (nodes s') oldId = None.
Proof.
  set (newId := getNormalizedId newName).
  intros Hne Hold Hnew.
  assert (Hneb : String.eqb newId oldId = false) by now apply String.eqb_neq.
  assert (Hfresh : hasId (removeNode (nodes s) oldId) newId = false)
    by (rewrite hasId_removeNode_other; assumption).
  set (rec := renamedRecord o newId newName).
  set (ms := removeNode (nodes s) oldId ++ [rec]).
  set (kids := map (childPatch newId)
                 (filter (fun n => optId_eqb (parent n) (Some oldId)) ms)).
  assert (Hstored : Forall (fun p => hasId ms (np_id p) = true) kids)
    by apply childPatches_stored.
  assert (Hget : getNode (updateNodes ms kids) newId =
                 Some (withParent rec (option_map (renameId oldId newId) (parent o)))).
  { rewrite (@updateNodes_stored _ _ Hstored).
    rewrite getNode_map by apply nid_applyNodePatches.
    unfold ms.
    change (getNode (removeNode (nodes s) oldId ++ [rec]) newId)
      with (getNode (removeNode (nodes s) oldId ++ [rec]) (nid rec)).
    rewrite (@getNode_app_new _ rec Hfresh). simpl. f_equal.
    apply (@repointChildren_on_new (removeNode (nodes s) oldId) oldId rec Hfresh). }
  unfold renameNode. rewrite run_gets. fold newId. rewrite Hold, Hneb.
  do 2 step.
  erewrite run_bind by (apply mergeOrReplace_replaces; assumption). fields.
  erewrite run_bind by apply repointChildren_runs. fields.
  unfold moveHighlight. step. unfold ret.
  fold rec. fold ms. fold kids.
  eexists. split; [reflexivity|].
  assert (Hn : forall st : State, nodes st = updateNodes ms kids ->
    nodes st = updateNodes ms kids /\
    getNode (nodes st) newId =
      Some (withParent rec (option_map (renameId oldId newId) (parent o))) /\
    (parent o <> Some oldId -> getNode (nodes st) newId = Some rec) /\
    level rec = level o /\ parent rec = parent o /\ nx rec = nx o /\
    ny rec = ny o /\ value rec = value o /\ color rec = color o /\
    font rec = font o /\ getNode (nodes st) oldId = None).
  { intros st ->. split; [reflexivity|]. split; [exact Hget|]. split.
    { intros Hp. rewrite Hget, (renameId_parent _ Hp). reflexivity. }
    repeat (split; [reflexivity|]).
    apply getNode_None.
    rewrite (@hasId_ext _ ms) by (apply getIds_updateNodes_stored; exact Hstored).
    unfold ms. rewrite hasId_app, hasId_removeNode.
    unfold hasId. cbn [existsb orb]. change (nid rec) with newId.
    now rewrite Hneb. }
  apply Hn. destruct (optId_eqb (selectedNode s) (Some oldId)); reflexivity.
Qed.

(** *** Expansion: one node per id *)

Lemma hasId_existsb (ns : NodeSet) (i : Id) :
  existsb (String.eqb i) (getIds ns) = hasId ns i.
Proof.
  unfold hasId, getIds. induction ns as [|n ns IH]; simpl; [reflexivity|].
  now rewrite IH, String.eqb_sym.
Qed.

Lemma countId_one (ns : NodeSet) (i : Id) :
  NoDup (getIds ns) -> In i (getIds ns) -> countId i ns = 1.
Proof.
  unfold countId, getIds. induction ns as [|n ns IH]; simpl; intros Hnd Hin.
  - contradiction.
  - inversion Hnd as [|x l Hnotin Hnd']; subst.
    destruct (String.eqb (nid n) i) eqn:He; simpl.
    + apply String.eqb_eq in He. subst i. f_equal.
      destruct (filter (fun m => String.eqb (nid m) (nid n)) ns) as [|m l] eqn:Hf;
        [reflexivity|].
      exfalso. apply Hnotin.
      assert (Hm : In m (filter (fun m => String.eqb (nid m) (nid n)) ns))
        by (rewrite Hf; now left).
      apply filter_In in Hm. destruct Hm as [Hm Hid].
      apply String.eqb_eq in Hid. rewrite <- Hid. now apply in_map.
    + apply String.eqb_neq in He. destruct Hin as [Hin | Hin]; [contradiction|].
      now apply IH.
Qed.

Lemma addNodes_keeps (items : list Node) (ns : NodeSet) (i : Id) :
  In i (getIds ns) -> In i (getIds (fst (addNodes ns items))).
Proof.
  revert ns. induction items as [|n items IH]; intros ns Hin; simpl; [exact Hin|].
  destruct (hasId ns (nid n)); simpl; [exact Hin|].
  apply IH. unfold getIds. rewrite map_app. apply in_or_app. now left.
Qed.

Lemma addNodes_NoDup (items : list Node) (ns : NodeSet) :
  NoDup (getIds ns) -> NoDup (getIds (fst (addNodes ns items))).
Proof.
  revert ns. induction items as [|n items IH]; intros ns Hnd; simpl; [exact Hnd|].
  destruct (hasId ns (nid n)) eqn:Hh; simpl; [exact Hnd|].
  apply IH. unfold getIds. rewrite map_app. simpl.
  apply NoDup_app; [exact Hnd | repeat constructor; intros [] |].
  intros x Hx [<- | []].
  assert (hasId ns (nid n) = true) by now apply hasId_In. congruence.
Qed.

(** The items of a first run of new, distinct ids all get in. *)
Lemma addNodes_prefix (items : list Node) :
  forall (ns : NodeSet) (ids1 ids2 : list Id),
    map nid items = ids1 ++ ids2 ->
    NoDup ids1 ->
    (forall i, In i ids1 -> hasId ns i = false) ->
    forall i, In i ids1 -> In i (getIds (fst (addNodes ns items))).
Proof.
  induction items as [|n items IH]; intros ns ids1 ids2 Hmap Hnd Hnew i Hi.
  - simpl in Hmap. symmetry in Hmap. apply app_eq_nil in Hmap.
    destruct Hmap as [-> _]. contradiction.
  - destruct ids1 as [|i1 ids1]; [contradiction|].
    simpl in Hmap. injection Hmap as Hn Hrest.
    inversion Hnd as [|x l Hnotin Hnd']; subst.
    simpl. rewrite (Hnew (nid n) (or_introl eq_refl)).
    destruct Hi as [<- | Hi].
    + apply addNodes_keeps. unfold getIds. rewrite map_app.
      apply in_or_app. right. now left.
    + apply (IH (ns ++ [n]) ids1 ids2 Hrest Hnd'); [|exact Hi].
      intros j Hj. rewrite hasId_app, (Hnew j (or_intror Hj)). simpl.
      rewrite orb_false_r. apply String.eqb_neq. intros Heq.
      rewrite Heq in Hnotin. contradiction.
Qed.

Lemma buildChildren_ids (ns : NodeSet) (es : EdgeSet) (page : Id) (lvl : nat)
    (start : Z * Z) (subpages : list string) :
  forall i subnodes newedges r,
    buildChildren ns es page lvl start i subpages subnodes newedges = Returned r ->
    map nid (fst r) = map nid subnodes ++ newIds ns subpages.
Proof.
  unfold newIds.
  induction subpages as [|sp rest IH]; intros i sn ne r Hb; simpl in *.
  - injection Hb as <-. simpl. now rewrite app_nil_r.
  - destruct (negb (existsb (String.eqb (getNormalizedId sp)) (getIds ns))) eqn:Hnew.
    + destruct (decodeURIComponent sp) as [decoded|]; [|discriminate].
      apply IH in Hb. rewrite Hb, map_app. simpl. now rewrite <- app_assoc.
    + now apply IH in Hb.
Qed.

Lemma buildChildren_returns (ns : NodeSet) (es : EdgeSet) (page : Id) (lvl : nat)
    (start : Z * Z) (subpages : list string) :
  Forall (fun l => decodeURIComponent l <> None) subpages ->
  forall i subnodes newedges,
    exists r, buildChildren ns es page lvl start i subpages subnodes newedges
              = Returned r.
Proof.
  induction 1 as [|sp rest Hsp _ IH]; intros i sn ne; simpl.
  - now eexists.
  - destruct (negb (existsb (String.eqb (getNormalizedId sp)) (getIds ns))).
    + destruct (decodeURIComponent sp) as [decoded|]; [|contradiction].
      apply IH.
    + apply IH.
Qed.

(** The ids the callback leaves in the store: those of [nodes.add] on the
    records built, whether or not it threw; the store is untouched when
    the page is missing or a link cannot be decoded. *)
Lemma expandNodeCallback_ids (page : Id) (links : list string) (s : State) :
  match getNode (nodes s) page with
  | None => nodes (snd (expandNodeCallback page links s)) = nodes s
  | Some node =>
      match buildChildren (nodes s) (edges s) page (level node + 1)
              (getSpawnPosition (nodes s) (edges s) page) 0 links [] [] with
      | Threw _ => nodes (snd (expandNodeCallback page links s)) = nodes s
      | Returned built =>
          getIds (nodes (snd (expandNodeCallback page links s))) =
          getIds (fst (addNodes (nodes s) (fst built)))
      end
  end.
Proof.
  unfold expandNodeCallback. rewrite !run_gets.
  destruct (getNode (nodes s) page) as [node|]; [|reflexivity].
  destruct (buildChildren (nodes s) (edges s) page (level node + 1)
              (getSpawnPosition (nodes s) (edges s) page) 0 links [] [])
    as [built|e]; [|reflexivity].
  rewrite run_lift. unfold bind at 1. unfold nodes_add.
  destruct (addNodes (nodes s) (fst built)) as [ns' dup]. fields.
  destruct dup as [i|]; [reflexivity|].
  unfold bind at 1. unfold edges_add, modify. fields.
  match goal with
  | |- getIds (nodes (snd ((_ ;; forEach _ _) ?st))) = _ =>
      destruct (updateNodeValue_onlyUpdates page st) as (s1 & H1 & U1);
      unfold bind; rewrite H1;
      destruct (forEach_onlyUpdates
                  (fun subpage => updateNodeValue (getNormalizedId subpage)) links
                  (fun a st' => updateNodeValue_onlyUpdates (getNormalizedId a) st') s1)
        as (s2 & H2 & U2);
      rewrite H2
  end.
  destruct U1 as [E1 _], U2 as [E2 _]. simpl. now rewrite E2, E1.
Qed.

Lemma newIds_app (ns : NodeSet) (l1 l2 : list string) :
  newIds ns (l1 ++ l2) = newIds ns l1 ++ newIds ns l2.
Proof. unfold newIds. now rewrite map_app, filter_app. Qed.

(** C2. Two names with one id never give two nodes.  Either the node of
    [a] is stored when [b] arrives in a later expansion, and the check of
    line 73 skips [b]; or [a] and [b] come in the same list, [a] among the
    first new ids, and then [nodes.add] takes the record of [a] and throws
    at the next record of that id.  Either way the store holds exactly one
    node with that id when the callback is left. *)
Theorem expandNodeCallback_one_node_per_id (s : State) (page : Id)
    (links : list string) (a b : string) :
  getNormalizedId a = getNormalizedId b ->
  NoDup (getIds (nodes s)) ->
  In b links ->
  hasId (nodes s) (getNormalizedId a) = true \/
  (exists pre post,
     links = pre ++ a :: post /\ In b post /\
     NoDup (newIds (nodes s) (pre ++ [a])) /\
     hasId (nodes s) page = true /\
     Forall (fun l => decodeURIComponent l <> None) links) ->
  countId (getNormalizedId b) (nodes (snd (expandNodeCallback page links s))) = 1.
Proof.
  intros Hab Hnd Hb Hcase. rewrite <- Hab.
  pose proof (expandNodeCallback_ids page links s) as Hids.
  destruct (hasId (nodes s) (getNormalizedId a)) eqn:Hstored.
  - (* the node of [a] is already there *)
    apply hasId_In in Hstored.
    destruct (getNode (nodes s) page) as [node|];
      [|rewrite Hids; now apply countId_one].
    destruct (buildChildren (nodes s) (edges s) page (level node + 1)
                (getSpawnPosition (nodes s) (edges s) page) 0 links [] [])
      as [built|e]; [|rewrite Hids; now apply countId_one].
    apply countId_one; rewrite Hids.
    + now apply addNodes_NoDup.
    + now apply addNodes_keeps.
  - (* [a] is new and comes first in this list *)
    destruct Hcase as [Habs | (pre & post & Hlinks & Hpost & Hfirst & Hpage & Hdec)];
      [discriminate|].
    apply hasId_getNode in Hpage. destruct Hpage as [node Hnode].
    rewrite Hnode in Hids.
    destruct (buildChildren_returns (nodes s) (edges s) page (level node + 1)
                (getSpawnPosition (nodes s) (edges s) page) Hdec 0 [] [])
      as [built Hbuilt].
    rewrite Hbuilt in Hids.
    apply countId_one; rewrite Hids.
    + now apply addNodes_NoDup.
    + pose proof (@buildChildren_ids _ _ _ _ _ _ _ _ _ _ Hbuilt) as Hmap.
      simpl in Hmap.
      replace links with ((pre ++ [a]) ++ post) in Hmap
        by (rewrite <- app_assoc; symmetry; exact Hlinks).
      rewrite newIds_app in Hmap.
      apply (@addNodes_prefix _ _ _ _ Hmap Hfirst).
      * intros i Hi. unfold newIds in Hi. apply filter_In in Hi.
        destruct Hi as [_ Hi]. apply negb_true_iff in Hi.
        now rewrite hasId_existsb in Hi.
      * rewrite newIds_app. apply in_or_app. right.
        unfold newIds. simpl. rewrite hasId_existsb, Hstored. simpl. now left.
Qed.

(** *** Entering the traced state *)

Lemma to_applyEdgePatches (ps : list EdgePatch) (e : Edge) :
  Forall (fun p => ep_to p = None) ps -> to (applyEdgePatches ps e) = to e.
Proof.
  unfold applyEdgePatches. revert e.
  induction ps as [|p ps IH]; intros e Hall; simpl; [reflexivity|].
  inversion Hall as [|p' ps' Hp Hps]; subst. rewrite (IH _ Hps).
  unfold applyEdgePatch. destruct (Nat.eqb (eid e) (ep_id p)); [|reflexivity].
  unfold patchEdge. simpl. now rewrite Hp.
Qed.

Lemma parent_applyNodePatches (ps : list NodePatch) (n : Node) :
  Forall (fun p => np_parent p = None) ps ->
  parent (applyNodePatches ps n) = parent n.
Proof.
  unfold applyNodePatches. revert n.
  induction ps as [|p ps IH]; intros n Hall; simpl; [reflexivity|].
  inversion Hall as [|p' ps' Hp Hps]; subst. rewrite (IH _ Hps).
  unfold applyNodePatch. destruct (String.eqb (nid n) (np_id p)); [|reflexivity].
  unfold patchNode. simpl. now rewrite Hp.
Qed.

(** An update that is stored and carries no [parent] keeps every parent. *)
Lemma parent_updateNodes (ps : list NodePatch) (ns : NodeSet) (i : Id) :
  Forall (fun p => hasId ns (np_id p) = true) ps ->
  Forall (fun p => np_parent p = None) ps ->
  option_map parent (getNode (updateNodes ns ps) i) = option_map parent (getNode ns i).
Proof.
  intros Hst Hp. rewrite (@updateNodes_stored _ _ Hst).
  rewrite getNode_map by apply nid_applyNodePatches.
  destruct (getNode ns i) as [n|]; simpl; [|reflexivity].
  now rewrite parent_applyNodePatches.
Qed.

Lemma allIds_stored (ns : NodeSet) :
  Forall (fun i => hasId ns i = true) (getIds ns).
Proof. apply Forall_forall. intros i Hi. now apply hasId_In. Qed.

Lemma parent_resetNodes (ns : NodeSet) (tn : list Id) (i : Id) :
  option_map parent (getNode (resetNodes ns tn) i) = option_map parent (getNode ns i).
Proof.
  unfold resetNodes.
  rewrite parent_updateNodes.
  - apply parent_updateNodes.
    + apply Forall_map. exact (storedNodes_stored ns tn).
    + apply Forall_map, Forall_forall. reflexivity.
  - apply Forall_map, Forall_forall. intros n Hn. simpl.
    apply hasId_In. unfold getIds. now apply in_map.
  - apply Forall_map, Forall_forall. reflexivity.
Qed.

Lemma edgePatches_stored (g : Edge -> EdgePatch) (es : EdgeSet) :
  (forall e, ep_id (g e) = eid e) ->
  Forall (fun p => In (ep_id p) (map eid es)) (map g es).
Proof.
  intros Hg. apply Forall_map, Forall_forall. intros e He.
  rewrite Hg. now apply in_map.
Qed.

Lemma resetPatch_id (ns : NodeSet) (e : Edge) : ep_id (resetPatch ns e) = eid e.
Proof. reflexivity. Qed.

(** What a reset pass keeps, whether it had anything to do or not. *)
Lemma resetProperties_keeps (s : State) :
  targetsStored (nodes s) (edges s) ->
  exists s1,
    resetProperties s = (Returned tt, s1) /\
    getIds (nodes s1) = getIds (nodes s) /\
    (forall i, option_map parent (getNode (nodes s1) i)
               = option_map parent (getNode (nodes s) i)) /\
    map eid (edges s1) = map eid (edges s) /\
    map to (edges s1) = map to (edges s) /\
    startpages s1 = startpages s.
Proof.
  intros Ht. destruct (isReset s) eqn:Hr.
  - exists s. split; [now apply resetProperties_when_reset|]. repeat split; auto.
  - destruct (resetProperties_runs s Hr Ht) as [log [Hrun _]].
    eexists. split; [exact Hrun|]. unfold resetState. fields.
    split; [apply getIds_resetNodes|].
    split; [intros i; apply parent_resetNodes|].
    rewrite (@updateEdges_stored _ _ (edgePatches_stored _ (edges s)
               (resetPatch_id (resetNodes (nodes s) (tracenodes s))))).
    rewrite !map_map. repeat split.
    + apply map_ext. intros e. apply eid_applyEdgePatches.
    + apply map_ext. intros e. apply to_applyEdgePatches.
      apply Forall_map, Forall_forall. reflexivity.
Qed.

Lemma parentOf_ext (ns ms : NodeSet) (cur : option Id) :
  (forall i, option_map parent (getNode ns i) = option_map parent (getNode ms i)) ->
  parentOf ns cur = parentOf ms cur.
Proof.
  intros Hext. destruct cur as [c|]; simpl; [|reflexivity].
  specialize (Hext c).
  destruct (getNode ns c), (getNode ms c); simpl in Hext; congruence.
Qed.

Lemma traceLoop_ext (ns ms : NodeSet) (roots : list Id) (budget : nat) :
  (forall i, option_map parent (getNode ns i) = option_map parent (getNode ms i)) ->
  forall cur iterations path,
    traceLoop budget ns roots cur iterations path
    = traceLoop budget ms roots cur iterations path.
Proof.
  intros Hext. induction budget as [|b IH]; intros cur it path; simpl; [reflexivity|].
  rewrite (parentOf_ext _ _ cur Hext).
  destruct (parentOf ms cur); [|reflexivity].
  destruct (Nat.ltb 100 it); [reflexivity|].
  destruct (isStartPage roots cur); [reflexivity | apply IH].
Qed.

(** Every id on a path the loop returns is stored: its parent was read. *)
Lemma traceLoop_stored (ns : NodeSet) (roots : list Id) (budget : nat) :
  forall cur iterations path result,
    traceLoop budget ns roots cur iterations path = Returned result ->
    Forall (fun i => hasId ns i = true) (definedIds path) ->
    Forall (fun i => hasId ns i = true) (definedIds result).
Proof.
  induction budget as [|b IH]; intros cur it path result Hrun Hpath; simpl in Hrun;
    [discriminate|].
  destruct (parentOf ns cur) as [next|e] eqn:Hp; [|discriminate].
  assert (Hpath' : Forall (fun i => hasId ns i = true) (definedIds (path ++ [cur]))).
  { rewrite definedIds_app. apply Forall_app. split; [exact Hpath|].
    destruct cur as [c|]; simpl; [|constructor].
    constructor; [|constructor]. simpl in Hp.
    destruct (getNode ns c) as [n|] eqn:Hg; [|discriminate].
    apply hasId_getNode. now exists n. }
  destruct (Nat.ltb 100 it).
  - injection Hrun as <-. constructor.
  - destruct (isStartPage roots cur).
    + injection Hrun as <-. exact Hpath'.
    + eapply IH; eassumption.
Qed.

Lemma getTraceBackNodes_stored (ns : NodeSet) (roots : list Id) (node : Id)
    (path : list Id) :
  getTraceBackNodes ns roots node = Returned path ->
  Forall (fun i => hasId ns i = true) path.
Proof.
  unfold getTraceBackNodes.
  destruct (traceLoop 102 ns roots (Some node) 0 []) as [p|e] eqn:Hrun; [|discriminate].
  intros Hp. injection Hp as <-.
  eapply traceLoop_stored; [exact Hrun | constructor].
Qed.

Lemma traceEdge_stored (ns : NodeSet) (te : list (option EdgeId)) (ce : list EdgeId)
    (es : EdgeSet) :
  targetsStored ns es ->
  mapOutcome (traceEdge ns te ce) es = Returned (map (tracePatch ns te ce) es).
Proof.
  intros Ht. apply mapOutcome_returns.
  eapply Forall_impl; [|exact Ht]. intros e Hh. simpl in Hh.
  apply hasId_getNode in Hh. destruct Hh as [n Hn].
  unfold traceEdge, tracePatch, targetLevel. rewrite Hn.
  destruct (isTrace te e); [reflexivity|]. now destruct (isConnected ce e).
Qed.

Lemma tracePatch_id (ns : NodeSet) (te : list (option EdgeId)) (ce : list EdgeId)
    (e : Edge) :
  ep_id (tracePatch ns te ce e) = eid e.
Proof.
  unfold tracePatch. destruct (isTrace te e); [reflexivity|].
  now destruct (isConnected ce e).
Qed.

(** With one patch per edge, an edge gets exactly its own. *)
Lemma applyEdgePatches_own (g : Edge -> EdgePatch) (es : EdgeSet) (e : Edge) :
  (forall x, ep_id (g x) = eid x) ->
  NoDup (map eid es) -> In e es ->
  applyEdgePatches (map g es) e = patchEdge e (g e).
Proof.
  intros Hg Hnd Hin.
  destruct (in_split _ _ Hin) as (l1 & l2 & ->).
  rewrite map_app in Hnd. simpl in Hnd.
  pose proof (NoDup_remove_2 _ _ _ Hnd) as Hnotin.
  rewrite map_app. simpl. rewrite applyEdgePatches_app.
  assert (Hothers : forall l, ~ In (eid e) (map eid l) ->
                    Forall (fun p => ep_id p <> eid e) (map g l)).
  { intros l Hl. apply Forall_map, Forall_forall. intros x Hx Hid.
    apply Hl. rewrite Hg in Hid. rewrite <- Hid. now apply in_map. }
  rewrite (@applyEdgePatches_others (map g l1) e)
    by (apply Hothers; intros Hc; apply Hnotin, in_or_app; now left).
  change (applyEdgePatches (g e :: map g l2) e)
    with (applyEdgePatches (map g l2) (applyEdgePatch (g e) e)).
  unfold applyEdgePatch. rewrite Hg, Nat.eqb_refl.
  apply (@applyEdgePatches_others (map g l2) (patchEdge e (g e))).
  apply (Hothers l2). intros Hc. apply Hnotin, in_or_app. now right.
Qed.

Lemma getNode_storedNodes (ns : NodeSet) (ids : list Id) :
  Forall (fun i => hasId ns i = true) ids ->
  map (getNode ns) ids = map Some (storedNodes ns ids).
Proof.
  induction 1 as [|i ids Hi _ IH]; simpl; [reflexivity|].
  apply hasId_getNode in Hi. destruct Hi as [n Hn]. rewrite Hn. simpl.
  now rewrite IH.
Qed.

Lemma isTrace_onPath (te : list (option EdgeId)) (e : Edge) :
  isTrace te e = true <-> onPath te e.
Proof.
  unfold isTrace, onPath. rewrite existsb_exists. split.
  - intros [[i|] [Hin He]]; [|discriminate].
    apply Nat.eqb_eq in He. now subst.
  - intros Hin. exists (Some (eid e)). split; [exact Hin | apply Nat.eqb_refl].
Qed.

Lemma isConnected_adjacent (ce : list EdgeId) (e : Edge) :
  isConnected ce e = true <-> adjacent ce e.
Proof.
  unfold isConnected, adjacent. rewrite existsb_exists. split.
  - intros [i [Hin He]]. apply Nat.eqb_eq in He. now subst.
  - intros Hin. exists (eid e). split; [exact Hin | apply Nat.eqb_refl].
Qed.

(** The entry into the traced state on a graph without dangling targets,
    from a node whose walk to the roots meets stored nodes only. *)
Lemma enterTraced_runs (node : Id) (path : list Id) (s : State) :
  targetsStored (nodes s) (edges s) ->
  getTraceBackNodes (nodes s) (startpages s) node = Returned path ->
  exists s',
    enterTraced node s = (Returned tt, s') /\
    edges s' =
      updateEdges (edges s)
        (map (tracePatch (nodes s) (snd (getTraceBackEdges (edges s) path))
                (getConnectedEdges (nodes s) (edges s) node))
             (edges s)) /\
    traceedges s' = snd (getTraceBackEdges (edges s) path) /\
    tracenodes s' = rev path /\
    selectedNode s' = Some node /\ isReset s' = false.
Proof.
  intros Ht Hpath.
  pose proof (getTraceBackNodes_stored _ _ _ Hpath) as Hstored.
  unfold enterTraced. do 4 step. rewrite Hpath. do 3 step.
  unfold getTraceBackEdges at 1. cbv zeta. do 2 step.
  rewrite (traceEdge_stored _ _ Ht). do 4 step.
  match goal with
  | |- exists s', colorNodes (map (getNode ?ns') ?ids) true ?st = _ /\ _ =>
      assert (Hst' : Forall (fun i => hasId ns' i = true) ids)
  end.
  { apply Forall_rev in Hstored.
    eapply Forall_impl; [|exact Hstored]. intros i Hi. simpl in Hi.
    rewrite <- Hi. apply hasId_ext. apply getIds_updateNodes_stored.
    apply Forall_map. apply allIds_stored. }
  rewrite (getNode_storedNodes _ Hst'), colorNodes_stored. fields.
  eexists. split; [reflexivity|]. fields. repeat split; reflexivity.
Qed.

(** *** The invariant of the highlight state *)

Lemma getTraceBackNodes_finishes (ns : NodeSet) (roots : list Id) (node : Id) :
  getTraceBackNodes ns roots node <> Threw Unfinished.
Proof.
  unfold getTraceBackNodes.
  pose proof (@traceLoop_finishes ns roots 102 (Some node) 0 []
                ltac:(lia) ltac:(lia)) as Hfin.
  destruct (traceLoop 102 ns roots (Some node) 0 []) as [p|e]; [discriminate|].
  congruence.
Qed.

Lemma highlightInv_initial (ns : NodeSet) (es : EdgeSet) (roots : list Id) :
  highlightInv (initialState ns es roots).
Proof. intros _. repeat split. Qed.

Lemma highlightInv_resetProperties (s : State) :
  highlightInv s -> highlightInv (snd (resetProperties s)).
Proof.
  intros Hinv. destruct (isReset s) eqn:Hr.
  - now rewrite (resetProperties_when_reset s Hr).
  - destruct (resetProperties_outcome s Hr)
      as (o & s1 & log & Hrun & _ & _ & _ & Hsel & Ho).
    rewrite Hrun. simpl. destruct o as [[]|e].
    + destruct Ho as (Htn & Hte & _). intros _. unfold highlightCleared. auto.
    + intros Hflag. congruence.
Qed.

(** Once past the reset, [traceBack] leaves the flag off, however far it
    gets. *)
Lemma enterTraced_flag (node : Id) (s : State) :
  isReset (snd (enterTraced node s)) = false.
Proof.
  unfold enterTraced. do 4 step.
  destruct (getTraceBackNodes (nodes s) (startpages s) node) as [path|e];
    [|reflexivity].
  do 3 step. unfold getTraceBackEdges at 1. cbv zeta. do 2 step.
  match goal with
  | |- context [mapOutcome ?f ?es] => destruct (mapOutcome f es) as [ups|e]
  end; [|reflexivity].
  do 4 step. unfold colorNodes.
  match goal with
  | |- context [mapOutcome ?f ?l] => destruct (mapOutcome f l) as [ps|e]
  end; reflexivity.
Qed.

Lemma highlightInv_traceBack (node : Id) (s : State) :
  highlightInv s -> highlightInv (snd (traceBack node s)).
Proof.
  intros Hinv. unfold traceBack. rewrite run_gets.
  destruct (optId_eqb (Some node) (selectedNode s)); [exact Hinv|].
  unfold bind. destruct (resetProperties s) as [[[]|e] s1] eqn:Hrun.
  - intros Hflag. rewrite enterTraced_flag in Hflag. discriminate.
  - pose proof (@highlightInv_resetProperties s Hinv) as H1.
    now rewrite Hrun in H1.
Qed.

End Properties.

(** ** Further properties of the engine, the handlers and the link source *)

Section MoreProperties.

Context {H : Helpers}.

Ltac fields :=
  unfold record, setNodes, setEdges, setIsReset, setSelectedNode, setTraceedges,
    setTracenodes, setStartpages, setLastClickedNode, setLoading;
  cbn [nodes edges isReset selectedNode traceedges tracenodes startpages
       lastClickedNode loading journal].

Ltac step :=
  first [ rewrite run_gets | rewrite run_modify | rewrite run_ret
        | rewrite run_lift | rewrite run_nodes_update | rewrite run_edges_update
        | rewrite run_nodes_remove ];
  fields.

(** *** Traceback *)

Lemma isStartPage_In (roots : list Id) (c : Id) :
  isStartPage roots (Some c) = true <-> In c roots.
Proof. simpl. apply existsb_eqb_In. Qed.

Lemma traceLoop_sound (ns : NodeSet) (roots : list Id) (budget : nat) :
  forall c iterations acc result,
    traceLoop budget ns roots (Some c) iterations acc = Returned result ->
    result <> [] ->
    exists path,
      result = acc ++ map Some path /\ Chain ns roots c path /\
      iterations + length path <= 101.
Proof.
  induction budget as [|b IH]; intros c it acc result Hrun Hne; [discriminate|].
  cbn [traceLoop] in Hrun. unfold parentOf in Hrun.
  destruct (getNode ns c) as [n|] eqn:Hn; [|discriminate].
  destruct (Nat.ltb 100 it) eqn:Hlt.
  { injection Hrun as <-. contradiction. }
  apply Nat.ltb_ge in Hlt.
  destruct (isStartPage roots (Some c)) eqn:Hroot.
  - injection Hrun as <-. exists [c]. split; [reflexivity|]. split.
    + eapply ChainRoot; [exact Hn | now apply isStartPage_In].
    + simpl. lia.
  - destruct (parent n) as [p|] eqn:Hp.
    + destruct (IH _ _ _ _ Hrun Hne) as (path & Hres & Hchain & Hlen).
      exists (c :: path). split; [|split].
      * rewrite Hres, <- app_assoc. reflexivity.
      * eapply ChainStep; try eassumption.
        intros Hin. apply isStartPage_In in Hin. congruence.
      * simpl. lia.
    + apply traceLoop_undefined in Hrun. contradiction.
Qed.

Lemma traceLoop_complete (ns : NodeSet) (roots : list Id) (c : Id) (path : list Id) :
  Chain ns roots c path ->
  forall budget iterations acc,
    iterations + length path <= 101 -> length path <= budget ->
    traceLoop budget ns roots (Some c) iterations acc = Returned (acc ++ map Some path).
Proof.
  induction 1 as [c n Hn Hroot | c p n rest Hn Hroot Hp Hchain IH];
    intros budget it acc Hit Hb; simpl in Hit, Hb;
    (destruct budget as [|b]; [lia|]); cbn [traceLoop]; unfold parentOf; rewrite Hn.
  - assert (Hlt : Nat.ltb 100 it = false) by (apply Nat.ltb_ge; lia).
    rewrite Hlt. apply isStartPage_In in Hroot. now rewrite Hroot.
  - assert (Hlt : Nat.ltb 100 it = false) by (apply Nat.ltb_ge; lia).
    rewrite Hlt.
    assert (Hnr : isStartPage roots (Some c) = false).
    { apply not_true_is_false. intros Hc. now apply isStartPage_In in Hc. }
    rewrite Hnr, Hp. rewrite IH by lia. now rewrite <- app_assoc.
Qed.

(** X1. A traceback that answers a non-empty path answers the chain of
    parents from the node up to the first start page, and it answers that
    chain whenever there is one of at most 101 nodes. *)
Theorem getTraceBackNodes_is_chain (ns : NodeSet) (roots : list Id) (node : Id)
    (path : list Id) :
  path <> [] ->
  (getTraceBackNodes ns roots node = Returned path <->
   Chain ns roots node path /\ length path <= 101).
Proof.
  intros Hne. rewrite getTraceBackNodes_exact. split.
  - intros Hrun. apply traceLoop_sound in Hrun.
    + destruct Hrun as (p & Hres & Hchain & Hlen). simpl in Hres.
      assert (Hp : p = path).
      { clear -Hres. revert p Hres. induction path as [|i path IH]; intros [|j p] Hres;
          simpl in Hres; try discriminate; [reflexivity|].
        injection Hres as -> Hres. f_equal. now apply IH. }
      subst p. split; [exact Hchain | lia].
    + destruct path; [contradiction | discriminate].
  - intros [Hchain Hlen].
    apply (@traceLoop_complete ns roots node path Hchain 102 0 []); simpl; lia.
Qed.

Lemma traceLoop_no_TypeError (ns : NodeSet) (roots : list Id) (budget : nat) :
  parentsStored ns ->
  forall cur iterations acc e,
    match cur with Some c => hasId ns c = true | None => True end ->
    traceLoop budget ns roots cur iterations acc = Threw e -> e = Unfinished.
Proof.
  intros Hps. induction budget as [|b IH]; intros cur it acc e Hcur Hrun.
  - simpl in Hrun. congruence.
  - cbn [traceLoop] in Hrun. destruct cur as [c|]; simpl in Hrun.
    + apply hasId_getNode in Hcur. destruct Hcur as [n Hn]. rewrite Hn in Hrun.
      destruct (Nat.ltb 100 it); [discriminate|].
      destruct (existsb (String.eqb c) roots); [discriminate|].
      eapply IH; [|exact Hrun].
      destruct (parent n) as [p|] eqn:Hp; [|exact I].
      eapply Hps; [|exact Hp]. eapply getNode_In. exact Hn.
    + destruct (Nat.ltb 100 it); [discriminate|].
      eapply IH; [|exact Hrun]. exact I.
Qed.

(** X2. On a store in which every parent is stored, the traceback of a
    stored node never throws: it answers a path, possibly the empty one
    of the failsafe. *)
Theorem getTraceBackNodes_total (ns : NodeSet) (roots : list Id) (node : Id) :
  parentsStored ns -> hasId ns node = true ->
  exists path, getTraceBackNodes ns roots node = Returned path.
Proof.
  intros Hps Hnode.
  pose proof (getTraceBackNodes_finishes ns roots node) as Hfin.
  unfold getTraceBackNodes in *.
  destruct (traceLoop 102 ns roots (Some node) 0 []) as [p|e] eqn:Hrun.
  - now eexists.
  - eapply traceLoop_no_TypeError in Hrun; [congruence | exact Hps | exact Hnode].
Qed.

(** *** What highlighting leaves alone *)

Lemma mapOutcome_Forall {A B} (f : A -> Outcome B) (P : B -> Prop) (l : list A)
    (bs : list B) :
  (forall a b, In a l -> f a = Returned b -> P b) ->
  mapOutcome f l = Returned bs -> Forall P bs.
Proof.
  revert bs. induction l as [|a l IH]; intros bs Hf Hrun; simpl in Hrun.
  - injection Hrun as <-. constructor.
  - destruct (f a) as [b|e] eqn:Ha; [|discriminate].
    destruct (mapOutcome f l) as [bs'|e]; [|discriminate].
    injection Hrun as <-. constructor.
    + eapply Hf; [left; reflexivity | exact Ha].
    + apply IH; [|reflexivity]. intros a' b' Hin. apply Hf. now right.
Qed.

Lemma nodeShape_applyNodePatches (ps : list NodePatch) (n : Node) :
  Forall cosmeticNode ps -> nodeShape (applyNodePatches ps n) = nodeShape n.
Proof.
  unfold applyNodePatches. revert n.
  induction ps as [|p ps IH]; intros n Hall; simpl; [reflexivity|].
  inversion Hall as [|p' ps' Hp Hps]; subst. rewrite (IH _ Hps).
  unfold applyNodePatch. destruct (String.eqb (nid n) (np_id p)); [|reflexivity].
  destruct Hp as (H1 & H2 & H3 & H4 & H5 & H6).
  unfold nodeShape, patchNode. simpl. now rewrite H1, H2, H3, H4, H5, H6.
Qed.

Lemma edgeShape_applyEdgePatches (ps : list EdgePatch) (e : Edge) :
  Forall cosmeticEdge ps -> edgeShape (applyEdgePatches ps e) = edgeShape e.
Proof.
  unfold applyEdgePatches. revert e.
  induction ps as [|p ps IH]; intros e Hall; simpl; [reflexivity|].
  inversion Hall as [|p' ps' Hp Hps]; subst. rewrite (IH _ Hps).
  unfold applyEdgePatch. destruct (Nat.eqb (eid e) (ep_id p)); [|reflexivity].
  destruct Hp as (H1 & H2 & H3 & H4 & H5).
  unfold edgeShape, patchEdge. simpl. now rewrite H1, H2, H3, H4, H5.
Qed.

Lemma nodeShape_updateNodes (ps : list NodePatch) (ns : NodeSet) :
  Forall (fun p => hasId ns (np_id p) = true) ps -> Forall cosmeticNode ps ->
  map nodeShape (updateNodes ns ps) = map nodeShape ns.
Proof.
  intros Hst Hc. rewrite (updateNodes_stored _ Hst), map_map.
  apply map_ext. intros n. now apply nodeShape_applyNodePatches.
Qed.

Lemma edgeShape_updateEdges (ps : list EdgePatch) (es : EdgeSet) :
  Forall (fun p => In (ep_id p) (map eid es)) ps -> Forall cosmeticEdge ps ->
  map edgeShape (updateEdges es ps) = map edgeShape es.
Proof.
  intros Hst Hc. rewrite (updateEdges_stored _ Hst), map_map.
  apply map_ext. intros e. now apply edgeShape_applyEdgePatches.
Qed.

Lemma getIds_nodeShape (ns ms : NodeSet) :
  map nodeShape ms = map nodeShape ns -> getIds ms = getIds ns.
Proof.
  intros Hs. unfold getIds.
  assert (E : forall l : NodeSet,
            map nid l = map (fun t : Id * string * nat * nat * option Id * Z * Z =>
                               fst (fst (fst (fst (fst (fst t)))))) (map nodeShape l)).
  { intros l. rewrite map_map. reflexivity. }
  now rewrite !E, Hs.
Qed.

Lemma sameGraph_refl (s : State) : sameGraph s s.
Proof. repeat split. Qed.

Lemma sameGraph_trans (s1 s2 s3 : State) :
  sameGraph s1 s2 -> sameGraph s2 s3 -> sameGraph s1 s3.
Proof.
  intros (A1 & A2 & A3) (B1 & B2 & B3). repeat split; congruence.
Qed.

Lemma fontPatches_cosmetic (f : Id -> string) (ids : list Id) :
  Forall cosmeticNode (map (fun i => fontPatch i (f i)) ids).
Proof. apply Forall_map, Forall_forall. intros i _. repeat split. Qed.

Lemma colorPatches_cosmetic (highlight : bool) (ms : list Node) :
  Forall cosmeticNode (map (colorPatch highlight) ms).
Proof. apply Forall_map, Forall_forall. intros n _. repeat split. Qed.

Lemma resetEdge_patch (ns : NodeSet) (e : Edge) (p : EdgePatch) :
  resetEdge ns e = Returned p -> ep_id p = eid e /\ cosmeticEdge p.
Proof.
  unfold resetEdge. destruct (getNode ns (to e)); [|discriminate].
  intros Hp. injection Hp as <-. repeat split.
Qed.

Lemma traceEdge_patch (ns : NodeSet) (te : list (option EdgeId)) (ce : list EdgeId)
    (e : Edge) (p : EdgePatch) :
  traceEdge ns te ce e = Returned p -> ep_id p = eid e /\ cosmeticEdge p.
Proof.
  unfold traceEdge. destruct (isTrace te e).
  - intros Hp. injection Hp as <-. repeat split.
  - destruct (isConnected ce e).
    + destruct (getNode ns (to e)); [|discriminate].
      intros Hp. injection Hp as <-. repeat split.
    + intros Hp. injection Hp as <-. repeat split.
Qed.

(** The argument of [edges.update] in both passes names stored edges and
    carries colour and width only. *)
Lemma edgeUpdates_cosmetic (f : Edge -> Outcome EdgePatch) (es : EdgeSet)
    (ups : list EdgePatch) :
  (forall e p, f e = Returned p -> ep_id p = eid e /\ cosmeticEdge p) ->
  mapOutcome f es = Returned ups ->
  Forall (fun p => In (ep_id p) (map eid es)) ups /\ Forall cosmeticEdge ups.
Proof.
  intros Hf Hrun. split.
  - eapply mapOutcome_Forall; [|exact Hrun]. intros e p Hin Hp.
    destruct (Hf e p Hp) as [-> _]. now apply in_map.
  - eapply mapOutcome_Forall; [|exact Hrun]. intros e p _ Hp. now apply (Hf e p).
Qed.

(** What a reset pass on a highlighted graph leaves, in both outcomes. *)
Lemma resetProperties_structure (s : State) :
  isReset s = false ->
  exists o s1,
    resetProperties s = (o, s1) /\
    nodes s1 = resetNodes (nodes s) (tracenodes s) /\
    startpages s1 = startpages s /\ lastClickedNode s1 = lastClickedNode s /\
    loading s1 = loading s /\
    match mapOutcome (resetEdge (nodes s1)) (edges s) with
    | Returned ups => o = Returned tt /\ edges s1 = updateEdges (edges s) ups
    | Threw e => o = Threw e /\ edges s1 = edges s
    end.
Proof.
  intros Hr. unfold resetProperties. rewrite run_gets, Hr.
  do 3 step.
  remember (storedNodes (nodes s) (tracenodes s)) as modnodes eqn:Hm.
  assert (Hcol : exists log0,
            (if Nat.ltb 0 (length modnodes)
             then colorNodes (map Some modnodes) false else ret tt)
              (setSelectedNode s None)
            = (Returned tt,
               mkState (updateNodes (nodes s) (map (colorPatch false) modnodes))
                 (edges s) (isReset s) None (traceedges s) (tracenodes s)
                 (startpages s) (lastClickedNode s) (loading s)
                 (journal s ++ log0))).
  { destruct (Nat.ltb 0 (length modnodes)) eqn:Hlen.
    - rewrite colorNodes_stored. fields. eexists. reflexivity.
    - apply Nat.ltb_ge in Hlen.
      assert (Hnil : modnodes = [])
        by (destruct modnodes; simpl in Hlen; [reflexivity|lia]).
      rewrite Hnil. exists []. unfold ret. fields. now rewrite app_nil_r. }
  destruct Hcol as (log0 & Hcol).
  erewrite run_bind by exact Hcol. do 4 step.
  unfold resetNodes. rewrite <- Hm.
  destruct (mapOutcome
              (resetEdge
                 (updateNodes (updateNodes (nodes s) (map (colorPatch false) modnodes))
                    (map (fun n => fontPatch (nid n) fullOpacity)
                       (updateNodes (nodes s) (map (colorPatch false) modnodes)))))
              (edges s)) as [ups|e] eqn:Hmap.
  - do 4 step. unfold modify. fields.
    eexists. eexists. split; [reflexivity|]. fields.
    rewrite Hmap. repeat split; reflexivity.
  - rewrite run_lift_threw.
    eexists. eexists. split; [reflexivity|]. fields.
    rewrite Hmap. repeat split; reflexivity.
Qed.

Lemma nodeShape_resetNodes (ns : NodeSet) (tn : list Id) :
  map nodeShape (resetNodes ns tn) = map nodeShape ns.
Proof.
  unfold resetNodes.
  assert (Hc : map nodeShape (updateNodes ns (map (colorPatch false) (storedNodes ns tn)))
               = map nodeShape ns).
  { apply nodeShape_updateNodes; [|apply colorPatches_cosmetic].
    apply Forall_map. exact (storedNodes_stored ns tn). }
  rewrite nodeShape_updateNodes; [exact Hc | |].
  - apply Forall_map, Forall_forall. intros n Hn. simpl.
    apply hasId_In. unfold getIds. now apply in_map.
  - apply Forall_map, Forall_forall. intros n _. repeat split.
Qed.

Lemma resetProperties_sameGraph (s : State) :
  sameGraph s (snd (resetProperties s)) /\
  lastClickedNode (snd (resetProperties s)) = lastClickedNode s /\
  loading (snd (resetProperties s)) = loading s.
Proof.
  destruct (isReset s) eqn:Hr.
  - rewrite (resetProperties_when_reset s Hr). simpl. repeat split.
  - destruct (resetProperties_structure s Hr)
      as (o & s1 & Hrun & Hn & Hsp & Hlc & Hld & Hedges).
    rewrite Hrun. simpl. split; [|now split].
    split; [rewrite Hn; apply nodeShape_resetNodes|]. split; [|exact Hsp].
    destruct (mapOutcome (resetEdge (nodes s1)) (edges s)) as [ups|e] eqn:Hmap.
    + destruct Hedges as [_ ->].
      destruct (edgeUpdates_cosmetic _ _ (resetEdge_patch (nodes s1)) Hmap) as [Hst Hc].
      now apply edgeShape_updateEdges.
    + destruct Hedges as [_ ->]. reflexivity.
Qed.

(** What the entry into the traced state leaves, in each of its three
    outcomes: the walk throws, an edge without stored target throws, or
    it runs to its end. *)
Lemma enterTraced_structure (node : Id) (s : State) :
  exists o s',
    enterTraced node s = (o, s') /\
    startpages s' = startpages s /\ lastClickedNode s' = lastClickedNode s /\
    loading s' = loading s /\
    selectedNode s' = Some node /\ isReset s' = false /\
    match getTraceBackNodes (nodes s) (startpages s) node with
    | Threw e =>
        o = Threw e /\ nodes s' = nodes s /\ edges s' = edges s /\
        tracenodes s' = tracenodes s /\ traceedges s' = traceedges s
    | Returned path =>
        tracenodes s' = rev path /\
        traceedges s' = snd (getTraceBackEdges (edges s) path) /\
        match mapOutcome
                (traceEdge (nodes s) (snd (getTraceBackEdges (edges s) path))
                   (getConnectedEdges (nodes s) (edges s) node)) (edges s) with
        | Threw e => o = Threw e /\ nodes s' = nodes s /\ edges s' = edges s
        | Returned ups =>
            o = Returned tt /\ edges s' = updateEdges (edges s) ups /\
            nodes s' = tracedNodes (nodes s) node (rev path)
                         (getConnectedNodes (nodes s) (edges s) node)
        end
    end.
Proof.
  unfold enterTraced. do 4 step.
  destruct (getTraceBackNodes (nodes s) (startpages s) node) as [path|e] eqn:Hpath.
  2:{ rewrite run_lift_threw. eexists. eexists. split; [reflexivity|]. fields.
      repeat split; reflexivity. }
  pose proof (getTraceBackNodes_stored _ _ _ Hpath) as Hstored.
  do 3 step. unfold getTraceBackEdges at 1. cbv zeta. do 2 step.
  change (map (fun i => getEdgeConnecting (edges s) (nth i (rev path) "")
                          (nth (i + 1) (rev path) ""))
              (seq 0 (length (rev path) - 1)))
    with (snd (getTraceBackEdges (edges s) path)).
  destruct (mapOutcome
              (traceEdge (nodes s) (snd (getTraceBackEdges (edges s) path))
                 (getConnectedEdges (nodes s) (edges s) node)) (edges s))
    as [ups|e] eqn:Hmap.
  2:{ rewrite run_lift_threw. eexists. eexists. split; [reflexivity|]. fields.
      repeat split; reflexivity. }
  do 4 step.
  match goal with
  | |- exists o s', colorNodes (map (getNode ?ns') ?ids) true ?st = _ /\ _ =>
      assert (Hst' : Forall (fun i => hasId ns' i = true) ids)
  end.
  { apply Forall_rev in Hstored.
    eapply Forall_impl; [|exact Hstored]. intros i Hi. simpl in Hi.
    rewrite <- Hi. apply hasId_ext. apply getIds_updateNodes_stored.
    apply Forall_map. apply allIds_stored. }
  rewrite (getNode_storedNodes _ Hst'), colorNodes_stored. fields.
  eexists. eexists. split; [reflexivity|]. fields. repeat split; reflexivity.
Qed.

Lemma nodeShape_tracedNodes (ns : NodeSet) (node : Id) (reversed cn : list Id) :
  map nodeShape (tracedNodes ns node reversed cn) = map nodeShape ns.
Proof.
  unfold tracedNodes.
  assert (Hd : map nodeShape (updateNodes ns (map (traceNode node reversed cn) (getIds ns)))
               = map nodeShape ns).
  { apply nodeShape_updateNodes.
    - apply Forall_map. apply allIds_stored.
    - apply Forall_map, Forall_forall. intros i _. repeat split. }
  rewrite nodeShape_updateNodes; [exact Hd | |apply colorPatches_cosmetic].
  apply Forall_map. apply storedNodes_stored.
Qed.

Lemma enterTraced_sameGraph (node : Id) (s : State) :
  sameGraph s (snd (enterTraced node s)) /\
  lastClickedNode (snd (enterTraced node s)) = lastClickedNode s /\
  loading (snd (enterTraced node s)) = loading s.
Proof.
  destruct (enterTraced_structure node s)
    as (o & s' & Hrun & Hsp & Hlc & Hld & _ & _ & Hcases).
  rewrite Hrun. simpl. split; [|now split].
  destruct (getTraceBackNodes (nodes s) (startpages s) node) as [path|e].
  - destruct Hcases as (_ & _ & Hcases).
    destruct (mapOutcome
                (traceEdge (nodes s) (snd (getTraceBackEdges (edges s) path))
                   (getConnectedEdges (nodes s) (edges s) node)) (edges s))
      as [ups|e] eqn:Hmap.
    + destruct Hcases as (_ & He & Hn).
      destruct (edgeUpdates_cosmetic _ _
                  (traceEdge_patch (nodes s) (snd (getTraceBackEdges (edges s) path))
                     (getConnectedEdges (nodes s) (edges s) node)) Hmap) as [Hst Hc].
      split; [rewrite Hn; apply nodeShape_tracedNodes|]. split; [|exact Hsp].
      rewrite He. now apply edgeShape_updateEdges.
    + destruct Hcases as (_ & Hn & He). split; [now rewrite Hn|].
      split; [now rewrite He | exact Hsp].
  - destruct Hcases as (_ & Hn & He & _). split; [now rewrite Hn|].
    split; [now rewrite He | exact Hsp].
Qed.

Lemma traceBack_sameGraph (node : Id) (s : State) :
  sameGraph s (snd (traceBack node s)) /\
  lastClickedNode (snd (traceBack node s)) = lastClickedNode s /\
  loading (snd (traceBack node s)) = loading s.
Proof.
  unfold traceBack. rewrite run_gets.
  destruct (optId_eqb (Some node) (selectedNode s)).
  { simpl. repeat split. }
  pose proof (resetProperties_sameGraph s) as (G1 & L1 & D1).
  unfold bind. destruct (resetProperties s) as [[[]|e] s1]; simpl in *.
  - pose proof (enterTraced_sameGraph node s1) as (G2 & L2 & D2).
    split; [eapply sameGraph_trans; eassumption|]. split; congruence.
  - split; [exact G1 | split; assumption].
Qed.

Lemma sameGraph_lastClicked (s : State) (v : option Id) :
  sameGraph s (setLastClickedNode s v).
Proof. repeat split. Qed.

(** X3. Highlighting never changes the graph: whatever the outcome of
    [resetProperties], [traceBack], the click handler of touch devices,
    the blur listener or the random selection, every node keeps its id,
    label, size, level, parent and position, every edge its id, ends and
    level, in the same order, and the start pages are the same. *)
Theorem highlighting_keeps_graph (s : State) (node : Id) (nodesAt : list Id)
    (drawn : nat) :
  sameGraph s (snd (resetProperties s)) /\
  sameGraph s (snd (traceBack node s)) /\
  sameGraph s (snd (mobileTraceEvent nodesAt s)) /\
  sameGraph s (snd (blurNode s)) /\
  sameGraph s (snd (selectRandomNode drawn s)).
Proof.
  split; [apply resetProperties_sameGraph|].
  split; [apply traceBack_sameGraph|].
  split; [|split].
  - unfold mobileTraceEvent. destruct nodesAt as [|page rest]; rewrite run_modify.
    + eapply sameGraph_trans; [apply (sameGraph_lastClicked s None)|].
      apply resetProperties_sameGraph.
    + eapply sameGraph_trans; [apply (sameGraph_lastClicked s (Some page))|].
      apply traceBack_sameGraph.
  - unfold blurNode. rewrite run_gets.
    destruct (lastClickedNode s) as [page|]; [|apply resetProperties_sameGraph].
    destruct (truthy (Some page));
      [apply traceBack_sameGraph | apply resetProperties_sameGraph].
  - unfold selectRandomNode. rewrite run_gets.
    destruct (Nat.ltb 0 (length (getIds (nodes s)))); [|apply sameGraph_refl].
    rewrite run_modify.
    match goal with
    | |- sameGraph s (snd ((traceBack ?i ;; _) ?st)) =>
        pose proof (traceBack_sameGraph i st) as (G & _);
        unfold bind; destruct (traceBack i st) as [[[]|e] s']; simpl in *;
        (eapply sameGraph_trans; [apply (sameGraph_lastClicked s (Some i)) | exact G])
    end.
Qed.

(** *** What the two passes write *)

Lemma applyNodePatches_keeps (P : Node -> Prop) (ps : list NodePatch) :
  (forall p m, In p ps -> P m -> P (patchNode m p)) ->
  forall n0, P n0 -> P (applyNodePatches ps n0).
Proof.
  unfold applyNodePatches.
  induction ps as [|p ps IH]; intros Hkeep n0 Hn0; simpl; [exact Hn0|].
  apply IH; [intros q m Hq; apply Hkeep; now right|].
  unfold applyNodePatch. destruct (String.eqb (nid n0) (np_id p)); [|exact Hn0].
  apply Hkeep; [now left | exact Hn0].
Qed.

(** The last patch for an item decides: [P] holds after the update when
    every patch for the item establishes it. *)
Lemma applyNodePatches_last (P Q : Node -> Prop) (ps : list NodePatch) :
  (forall p m, In p ps -> Q m -> Q (patchNode m p)) ->
  (forall p m, In p ps -> np_id p = nid m -> Q m -> P (patchNode m p)) ->
  forall n0, Q n0 ->
    P n0 \/ (exists p, In p ps /\ np_id p = nid n0) ->
    P (applyNodePatches ps n0).
Proof.
  unfold applyNodePatches.
  induction ps as [|p ps IH]; intros HQ HP n0 Hn0 Hor; simpl.
  - destruct Hor as [Hp | [p [[] _]]]. exact Hp.
  - assert (HQ' : forall q m, In q ps -> Q m -> Q (patchNode m q))
      by (intros q m Hq; apply HQ; now right).
    assert (HP' : forall q m, In q ps -> np_id q = nid m -> Q m -> P (patchNode m q))
      by (intros q m Hq; apply HP; now right).
    unfold applyNodePatch at 2.
    destruct (String.eqb (nid n0) (np_id p)) eqn:He.
    + apply String.eqb_eq in He.
      apply IH; auto.
      * apply HQ; [now left | exact Hn0].
      * left. apply HP; [now left | congruence | exact Hn0].
    + apply String.eqb_neq in He. apply IH; auto.
      destruct Hor as [Hp | [q [[<- | Hq] Hid]]].
      * now left.
      * congruence.
      * right. now exists q.
Qed.

Lemma nid_injective (ns : NodeSet) (a b : Node) :
  NoDup (getIds ns) -> In a ns -> In b ns -> nid a = nid b -> a = b.
Proof.
  unfold getIds. induction ns as [|n ns IH]; intros Hnd Ha Hb Hab; [destruct Ha|].
  simpl in Hnd. inversion Hnd as [|x l Hnotin Hnd']; subst.
  destruct Ha as [<- | Ha], Hb as [<- | Hb].
  - reflexivity.
  - exfalso. apply Hnotin. rewrite Hab. now apply in_map.
  - exfalso. apply Hnotin. rewrite <- Hab. now apply in_map.
  - now apply IH.
Qed.

Lemma getNode_NoDup (ns : NodeSet) (n : Node) :
  NoDup (getIds ns) -> In n ns -> getNode ns (nid n) = Some n.
Proof.
  intros Hnd Hin.
  assert (Hh : hasId ns (nid n) = true)
    by (apply hasId_In; unfold getIds; now apply in_map).
  apply hasId_getNode in Hh. destruct Hh as [m Hm]. rewrite Hm. f_equal.
  eapply nid_injective; eauto using getNode_In, getNode_nid.
Qed.

Lemma storedNodes_In (ns : NodeSet) (ids : list Id) (n : Node) :
  In n (storedNodes ns ids) <-> exists i, In i ids /\ getNode ns i = Some n.
Proof.
  induction ids as [|i ids IH]; simpl.
  - split; [intros [] | intros [i [[] _]]].
  - destruct (getNode ns i) as [m|] eqn:Hm; simpl; rewrite ?IH; split.
    + intros [<- | [j [Hj Hg]]]; [exists i; auto | exists j; auto].
    + intros [j [[<- | Hj] Hg]]; [left; congruence | right; now exists j].
    + intros [j [Hj Hg]]. exists j. auto.
    + intros [j [[<- | Hj] Hg]]; [congruence | now exists j].
Qed.

(** [colorNodes] on the stored nodes of a list gives each of them the
    colour of its level. *)
Lemma colored_by_level (highlight : bool) (ns : NodeSet) (ids : list Id) (n0 : Node) :
  NoDup (getIds ns) -> In n0 ns -> In (nid n0) ids ->
  color (applyNodePatches (map (colorPatch highlight) (storedNodes ns ids)) n0)
  = (if highlight then getYellowColor else getColor) (level n0).
Proof.
  intros Hnd Hin Hids.
  apply (@applyNodePatches_last
           (fun x => color x = (if highlight then getYellowColor else getColor) (level n0))
           (fun x => nid x = nid n0)).
  - intros p m _ Hm. exact Hm.
  - intros p m Hp Hid Hm. apply in_map_iff in Hp. destruct Hp as [q [<- Hq]].
    apply storedNodes_In in Hq. destruct Hq as [i [_ Hg]].
    assert (q = n0).
    { eapply nid_injective; eauto using getNode_In. simpl in Hid. congruence. }
    subst q. reflexivity.
  - reflexivity.
  - right. exists (colorPatch highlight n0). split; [|reflexivity].
    apply in_map. apply storedNodes_In. exists (nid n0).
    split; [exact Hids | now apply getNode_NoDup].
Qed.

Lemma font_set (f : Id -> string) (ids : list Id) (n0 : Node) :
  In (nid n0) ids ->
  font (applyNodePatches (map (fun i => fontPatch i (f i)) ids) n0)
  = Some (f (nid n0)).
Proof.
  intros Hids.
  apply (@applyNodePatches_last (fun x => font x = Some (f (nid n0)))
           (fun x => nid x = nid n0)).
  - intros p m _ Hm. exact Hm.
  - intros p m Hp Hid Hm. apply in_map_iff in Hp. destruct Hp as [i [<- Hi]].
    simpl in *. congruence.
  - reflexivity.
  - right. exists (fontPatch (nid n0) (f (nid n0))). split; [|reflexivity].
    now apply (in_map (fun i => fontPatch i (f i))).
Qed.

Lemma colorPatches_keep (highlight : bool) (ms : list Node) (n0 : Node) :
  let n := applyNodePatches (map (colorPatch highlight) ms) n0 in
  font n = font n0 /\ level n = level n0 /\ nid n = nid n0.
Proof.
  apply (@applyNodePatches_keeps
           (fun x => font x = font n0 /\ level x = level n0 /\ nid x = nid n0)).
  - intros p m Hp Hm. apply in_map_iff in Hp. destruct Hp as [q [<- _]]. exact Hm.
  - repeat split.
Qed.

Lemma fontPatches_keep (f : Id -> string) (ids : list Id) (n0 : Node) :
  let n := applyNodePatches (map (fun i => fontPatch i (f i)) ids) n0 in
  color n = color n0 /\ level n = level n0 /\ nid n = nid n0.
Proof.
  apply (@applyNodePatches_keeps
           (fun x => color x = color n0 /\ level x = level n0 /\ nid x = nid n0)).
  - intros p m Hp Hm. apply in_map_iff in Hp. destruct Hp as [q [<- _]]. exact Hm.
  - repeat split.
Qed.

Lemma mapOutcome_exact {A B} (f : A -> Outcome B) (g : A -> B) (l : list A)
    (bs : list B) :
  (forall a b, f a = Returned b -> b = g a) ->
  mapOutcome f l = Returned bs -> bs = map g l.
Proof.
  intros Hf. revert bs. induction l as [|a l IH]; intros bs Hrun; simpl in Hrun.
  - now injection Hrun as <-.
  - destruct (f a) as [b|e] eqn:Ha; [|discriminate].
    destruct (mapOutcome f l) as [bs'|e]; [|discriminate].
    injection Hrun as <-. simpl. now rewrite (Hf a b Ha), (IH bs').
Qed.

Lemma resetEdge_exact (ns : NodeSet) (e : Edge) (p : EdgePatch) :
  resetEdge ns e = Returned p -> p = resetPatch ns e.
Proof.
  unfold resetEdge, resetPatch, targetLevel.
  destruct (getNode ns (to e)); [|discriminate]. now intros [= <-].
Qed.

Lemma traceEdge_exact (ns : NodeSet) (te : list (option EdgeId)) (ce : list EdgeId)
    (e : Edge) (p : EdgePatch) :
  traceEdge ns te ce e = Returned p -> p = tracePatch ns te ce e.
Proof.
  unfold traceEdge, tracePatch, targetLevel.
  destruct (isTrace te e); [now intros [= <-]|].
  destruct (isConnected ce e); [|now intros [= <-]].
  destruct (getNode ns (to e)); [|discriminate]. now intros [= <-].
Qed.

Lemma colorPatches_stored (highlight : bool) (ns : NodeSet) (ids : list Id) :
  Forall (fun p => hasId ns (np_id p) = true)
    (map (colorPatch highlight) (storedNodes ns ids)).
Proof. apply Forall_map. exact (storedNodes_stored ns ids). Qed.

Lemma resetNodes_visuals (ns : NodeSet) (tn : list Id) (n : Node) :
  In n (resetNodes ns tn) ->
  font n = Some fullOpacity /\
  (NoDup (getIds ns) -> In (nid n) tn -> color n = getColor (level n)).
Proof.
  unfold resetNodes. intros Hin.
  set (coloured := updateNodes ns (map (colorPatch false) (storedNodes ns tn))) in *.
  assert (Hst : Forall (fun p => hasId coloured (np_id p) = true)
                  (map (fun n => fontPatch (nid n) fullOpacity) coloured)).
  { apply Forall_map, Forall_forall. intros m Hm. simpl.
    apply hasId_In. unfold getIds. now apply in_map. }
  rewrite (updateNodes_stored _ Hst) in Hin.
  apply in_map_iff in Hin. destruct Hin as [m [<- Hm]].
  rewrite <- (map_map nid (fun i => fontPatch i fullOpacity)).
  split.
  - apply (@font_set (fun _ => fullOpacity)). now apply in_map.
  - intros Hnd Htn.
    destruct (@fontPatches_keep (fun _ => fullOpacity) (map nid coloured) m)
      as (Hc & Hl & Hi).
    rewrite Hc, Hl. rewrite Hi in Htn.
    unfold coloured in Hm.
    rewrite (@updateNodes_stored _ ns (colorPatches_stored false ns tn)) in Hm.
    apply in_map_iff in Hm. destruct Hm as [n0 [<- Hn0]].
    destruct (@colorPatches_keep false (storedNodes ns tn) n0) as (_ & Hl0 & Hi0).
    rewrite Hl0. rewrite Hi0 in Htn. now apply (@colored_by_level false).
Qed.

(** X4. A reset pass that runs to its end restores the looks: every node
    has opaque text, every node of the trace the colour of its level, and
    every edge width 1 and the colour of the level of its target. *)
Theorem resetProperties_restores (s s1 : State) :
  isReset s = false ->
  resetProperties s = (Returned tt, s1) ->
  (forall n, In n (nodes s1) ->
     font n = Some fullOpacity /\
     (NoDup (getIds (nodes s)) -> In (nid n) (tracenodes s) ->
      color n = getColor (level n))) /\
  (NoDup (map eid (edges s)) ->
   forall e, In e (edges s1) ->
     width e = Some 1 /\ ecolor e = getEdgeColor (targetLevel (nodes s1) e)).
Proof.
  intros Hr Hrun.
  destruct (resetProperties_structure s Hr)
    as (o & s1' & Hrun' & Hn & _ & _ & _ & Hedges).
  rewrite Hrun in Hrun'. injection Hrun' as <- <-.
  split.
  - intros n Hin. rewrite Hn in Hin. now apply resetNodes_visuals.
  - intros Hnd e' He'.
    destruct (mapOutcome (resetEdge (nodes s1)) (edges s)) as [ups|e] eqn:Hmap;
      [|destruct Hedges; discriminate].
    destruct Hedges as [_ He].
    apply (mapOutcome_exact _ (resetPatch (nodes s1)) _ (@resetEdge_exact (nodes s1)))
      in Hmap.
    subst ups. rewrite He in He'.
    rewrite (@updateEdges_stored _ _
               (edgePatches_stored _ (edges s) (resetPatch_id (nodes s1)))) in He'.
    apply in_map_iff in He'. destruct He' as [e [<- Hin]].
    rewrite (@applyEdgePatches_own _ (edges s) e (resetPatch_id (nodes s1)) Hnd Hin).
    split; reflexivity.
Qed.

Lemma traceNode_font (node : Id) (tn cn : list Id) :
  map (traceNode node tn cn) =
  map (fun i => fontPatch i
                  (if String.eqb i node || existsb (String.eqb i) tn
                      || existsb (String.eqb i) cn
                   then fullOpacity else lowOpacity)).
Proof. reflexivity. Qed.

Lemma isActive_decide (node : Id) (tn cn : list Id) (i : Id) :
  String.eqb i node || existsb (String.eqb i) tn || existsb (String.eqb i) cn = true
  <-> isActive node tn cn i.
Proof.
  unfold isActive. rewrite !orb_true_iff, String.eqb_eq, !existsb_eqb_In. tauto.
Qed.

Lemma tracedNodes_visuals (ns : NodeSet) (node : Id) (reversed cn : list Id) (n : Node) :
  In n (tracedNodes ns node reversed cn) ->
  (isActive node reversed cn (nid n) -> font n = Some fullOpacity) /\
  (~ isActive node reversed cn (nid n) -> font n = Some lowOpacity) /\
  (NoDup (getIds ns) -> In (nid n) reversed -> color n = getYellowColor (level n)).
Proof.
  unfold tracedNodes. intros Hin.
  set (dimmed := updateNodes ns (map (traceNode node reversed cn) (getIds ns))) in *.
  assert (Hd : dimmed = map (applyNodePatches
                               (map (traceNode node reversed cn) (getIds ns))) ns).
  { apply updateNodes_stored. apply Forall_map. apply allIds_stored. }
  rewrite (@updateNodes_stored _ dimmed (colorPatches_stored true dimmed reversed)) in Hin.
  apply in_map_iff in Hin. destruct Hin as [m [<- Hm]].
  destruct (@colorPatches_keep true (storedNodes dimmed reversed) m) as (Hf & Hl & Hi).
  rewrite Hf, Hl, Hi.
  assert (Hfont : font m = Some (if String.eqb (nid m) node
                                    || existsb (String.eqb (nid m)) reversed
                                    || existsb (String.eqb (nid m)) cn
                                 then fullOpacity else lowOpacity)).
  { rewrite Hd in Hm. apply in_map_iff in Hm. destruct Hm as [n0 [<- Hn0]].
    rewrite traceNode_font, nid_applyNodePatches.
    apply (@font_set (fun i => if String.eqb i node || existsb (String.eqb i) reversed
                                  || existsb (String.eqb i) cn
                               then fullOpacity else lowOpacity)).
    unfold getIds. now apply in_map. }
  split; [|split].
  - intros Ha. apply isActive_decide in Ha. now rewrite Hfont, Ha.
  - intros Ha. rewrite Hfont.
    destruct (String.eqb (nid m) node || existsb (String.eqb (nid m)) reversed
              || existsb (String.eqb (nid m)) cn) eqn:Hb; [|reflexivity].
    apply isActive_decide in Hb. contradiction.
  - intros Hnd Hrev. apply (@colored_by_level true); [|exact Hm|exact Hrev].
    rewrite Hd. unfold getIds. rewrite map_map.
    erewrite map_ext; [exact Hnd|]. intros x. apply nid_applyNodePatches.
Qed.

Lemma traceBack_returns (node : Id) (s s1 s' : State) :
  selectedNode s <> Some node ->
  resetProperties s = (Returned tt, s1) ->
  traceBack node s = (Returned tt, s') ->
  enterTraced node s1 = (Returned tt, s').
Proof.
  intros Hsel Hreset Hrun. unfold traceBack in Hrun. rewrite run_gets in Hrun.
  assert (Hne : optId_eqb (Some node) (selectedNode s) = false)
    by (apply optId_eqb_neq; congruence).
  rewrite Hne in Hrun. erewrite run_bind in Hrun by exact Hreset. exact Hrun.
Qed.

(** X5. When [traceBack] has entered the traced state of a node, the
    text of a node is opaque when it is the node, on the trace or reported
    connected to the node, and faded otherwise; the nodes of the trace
    carry the highlight colour of their level. *)
Theorem traceBack_fades_inactive (s s1 s' : State) (node : Id) :
  selectedNode s <> Some node ->
  resetProperties s = (Returned tt, s1) ->
  traceBack node s = (Returned tt, s') ->
  forall n, In n (nodes s') ->
    (isActive node (tracenodes s') (getConnectedNodes (nodes s1) (edges s1) node) (nid n)
     -> font n = Some fullOpacity) /\
    (~ isActive node (tracenodes s') (getConnectedNodes (nodes s1) (edges s1) node) (nid n)
     -> font n = Some lowOpacity) /\
    (NoDup (getIds (nodes s)) -> In (nid n) (tracenodes s') ->
     color n = getYellowColor (level n)).
Proof.
  intros Hsel Hreset Hrun n Hin.
  pose proof (@traceBack_returns node s s1 s' Hsel Hreset Hrun) as Henter.
  destruct (enterTraced_structure node s1)
    as (o & s2 & Hrun2 & _ & _ & _ & _ & _ & Hcases).
  rewrite Henter in Hrun2. injection Hrun2 as <- <-.
  destruct (getTraceBackNodes (nodes s1) (startpages s1) node) as [path|e];
    [|destruct Hcases; discriminate].
  destruct Hcases as (Htn & _ & Hcases).
  destruct (mapOutcome
              (traceEdge (nodes s1) (snd (getTraceBackEdges (edges s1) path))
                 (getConnectedEdges (nodes s1) (edges s1) node)) (edges s1))
    as [ups|e]; [|destruct Hcases; discriminate].
  destruct Hcases as (_ & _ & Hn).
  rewrite Hn in Hin. rewrite Htn.
  destruct (@tracedNodes_visuals _ _ _ _ _ Hin) as (A & B & C).
  split; [exact A|]. split; [exact B|].
  intros Hnd. apply C.
  pose proof (resetProperties_sameGraph s) as ((G & _) & _).
  rewrite Hreset in G. simpl in G. apply getIds_nodeShape in G. now rewrite G.
Qed.

(** *** Removal *)

Lemma sizesOnly_refl (s : State) : sizesOnly s s.
Proof. repeat split. Qed.

Lemma sizesOnly_trans (s1 s2 s3 : State) :
  sizesOnly s1 s2 -> sizesOnly s2 s3 -> sizesOnly s1 s3.
Proof.
  intros (A1 & A2 & A3 & A4 & A5 & A6 & A7 & A8 & A9)
         (B1 & B2 & B3 & B4 & B5 & B6 & B7 & B8 & B9).
  repeat split; congruence.
Qed.

Lemma updateNodeValue_sizesOnly (i : Id) (s : State) :
  exists s', updateNodeValue i s = (Returned tt, s') /\ sizesOnly s s'.
Proof.
  unfold updateNodeValue. destruct (hasId (nodes s) i) eqn:Hh.
  - eexists. split; [reflexivity|]. unfold sizesOnly. simpl.
    split; [|repeat split].
    unfold updateNode. cbn [np_id]. rewrite Hh. rewrite map_map.
    apply map_ext. intros n. now destruct (String.eqb (nid n) i).
  - exists s. split; [reflexivity | apply sizesOnly_refl].
Qed.

Lemma forEach_sizesOnly {A} (f : A -> Op unit) (l : list A) :
  (forall a s, exists s', f a s = (Returned tt, s') /\ sizesOnly s s') ->
  forall s, exists s', forEach l f s = (Returned tt, s') /\ sizesOnly s s'.
Proof.
  intros Hf. induction l as [|a l IH]; intros s; simpl.
  - exists s. split; [reflexivity | apply sizesOnly_refl].
  - unfold bind. destruct (Hf a s) as [s1 [H1 U1]]. rewrite H1.
    destruct (IH s1) as [s2 [H2 U2]]. exists s2. split; [exact H2|].
    eapply sizesOnly_trans; eassumption.
Qed.

Lemma nodeLink_nodeFrame (ns ms : NodeSet) :
  map nodeFrame ms = map nodeFrame ns -> map nodeLink ms = map nodeLink ns.
Proof.
  intros Hs.
  assert (E : forall l : NodeSet,
            map nodeLink l =
            map (fun t : Id * string * nat * string * option Id * Z * Z * option string =>
                   (fst (fst (fst (fst (fst (fst (fst t)))))), snd (fst (fst (fst t)))))
                (map nodeFrame l)).
  { intros l. rewrite map_map. reflexivity. }
  now rewrite !E, Hs.
Qed.

Lemma nodeLink_nodeShape (ns ms : NodeSet) :
  map nodeShape ms = map nodeShape ns -> map nodeLink ms = map nodeLink ns.
Proof.
  intros Hs.
  assert (E : forall l : NodeSet,
            map nodeLink l =
            map (fun t : Id * string * nat * nat * option Id * Z * Z =>
                   (fst (fst (fst (fst (fst (fst t))))), snd (fst (fst t))))
                (map nodeShape l)).
  { intros l. rewrite map_map. reflexivity. }
  now rewrite !E, Hs.
Qed.

Lemma getIds_nodeLink (ns ms : NodeSet) :
  map nodeLink ms = map nodeLink ns -> getIds ms = getIds ns.
Proof.
  intros Hs. unfold getIds.
  assert (E : forall l : NodeSet, map nid l = map fst (map nodeLink l)).
  { intros l. rewrite map_map. reflexivity. }
  now rewrite !E, Hs.
Qed.

Lemma nodeLink_removeNode (ns ms : NodeSet) (i : Id) :
  map nodeLink ms = map nodeLink ns ->
  map nodeLink (removeNode ms i) = map nodeLink (removeNode ns i).
Proof.
  revert ms. induction ns as [|n ns IH]; intros [|m ms] Hs; simpl in Hs;
    try discriminate; [reflexivity|].
  injection Hs as Hn Hp Hrest. simpl. rewrite Hn.
  destruct (negb (String.eqb (nid n) i)); simpl.
  - unfold nodeLink at 1 3. rewrite Hn, Hp. f_equal. now apply IH.
  - now apply IH.
Qed.

(** The part the three removal handlers share: the removal, an assignment
    to the variables of the handlers, and the size updates. *)
Lemma removal_runs (nodeId : Id) (neighbors : list Id) (g : State -> State)
    (s1 : State) :
  (forall s, nodes (g s) = nodes s /\ edges (g s) = edges s /\
             isReset (g s) = isReset s /\ traceedges (g s) = traceedges s /\
             tracenodes (g s) = tracenodes s /\ startpages (g s) = startpages s) ->
  exists s',
    (nodes_remove nodeId ;; modify g ;; forEach neighbors updateNodeValue) s1
    = (Returned tt, s') /\
    map nodeFrame (nodes s') = map nodeFrame (removeNode (nodes s1) nodeId) /\
    edges s' = edges s1 /\ isReset s' = isReset s1 /\
    traceedges s' = traceedges s1 /\ tracenodes s' = tracenodes s1 /\
    startpages s' = startpages s1 /\
    selectedNode s' =
      selectedNode (g (record (setNodes s1 (removeNode (nodes s1) nodeId))
                         (NodesRemove nodeId))) /\
    lastClickedNode s' =
      lastClickedNode (g (record (setNodes s1 (removeNode (nodes s1) nodeId))
                            (NodesRemove nodeId))).
Proof.
  intros Hg. rewrite run_nodes_remove, run_modify.
  set (s2 := record (setNodes s1 (removeNode (nodes s1) nodeId)) (NodesRemove nodeId)).
  destruct (Hg s2) as (G1 & G2 & G3 & G4 & G5 & G6).
  destruct (forEach_sizesOnly updateNodeValue neighbors updateNodeValue_sizesOnly (g s2))
    as (s' & Hrun & U1 & U2 & U3 & U4 & U5 & U6 & U7 & U8 & U9).
  exists s'. split; [exact Hrun|].
  repeat split; try congruence.
  - now rewrite U1, G1.
  - now rewrite U2, G2.
  - now rewrite U3, G3.
  - now rewrite U5, G4.
  - now rewrite U6, G5.
  - now rewrite U7, G6.
Qed.

Lemma forgetClicked_frame (nodeId : Id) (s : State) :
  let g := fun s => if optId_eqb (lastClickedNode s) (Some nodeId)
                    then setLastClickedNode s None else s in
  nodes (g s) = nodes s /\ edges (g s) = edges s /\
  isReset (g s) = isReset s /\ traceedges (g s) = traceedges s /\
  tracenodes (g s) = tracenodes s /\ startpages (g s) = startpages s.
Proof.
  simpl. destruct (optId_eqb (lastClickedNode s) (Some nodeId)); repeat split.
Qed.

Lemma forgetBoth_frame (s : State) :
  let g := fun s => setLastClickedNode (setSelectedNode s None) None in
  nodes (g s) = nodes s /\ edges (g s) = edges s /\
  isReset (g s) = isReset s /\ traceedges (g s) = traceedges s /\
  tracenodes (g s) = tracenodes s /\ startpages (g s) = startpages s.
Proof. repeat split. Qed.

Lemma removeSelected_fused (s : State) (nodeId : Id) :
  orId (selectedNode s) (lastClickedNode s) = Some nodeId ->
  truthy (Some nodeId) = true ->
  removeSelected s =
  (resetProperties ;;
   nodes_remove nodeId ;;
   modify (fun s => setLastClickedNode (setSelectedNode s None) None) ;;
   forEach (getConnectedNodes (nodes s) (edges s) nodeId) updateNodeValue) s.
Proof.
  intros Hsel Htruthy. unfold removeSelected. rewrite !run_gets, Hsel, Htruthy.
  reflexivity.
Qed.

(** How a right click goes on: the handler resets or not, and then runs
    the shared part on the state reached. *)
Lemma removeNodeEvent_unfolds (nodeId : Id) (s : State) :
  truthy (Some nodeId) = true ->
  removeNodeEvent (Some nodeId) s =
  ((if negb (isReset s) then resetProperties else ret tt) ;;
   ns <- gets nodes ;;
   es <- gets edges ;;
   nodes_remove nodeId ;;
   modify (fun s => if optId_eqb (lastClickedNode s) (Some nodeId)
                    then setLastClickedNode s None else s) ;;
   forEach (getConnectedNodes ns es nodeId) updateNodeValue) s.
Proof. intros Ht. unfold removeNodeEvent. rewrite Ht, run_gets. reflexivity. Qed.

Lemma removeNodeEventGuarded_unfolds (nodeId : Id) (s : State) :
  truthy (Some nodeId) = true ->
  removeNodeEventGuarded (Some nodeId) s =
  ((if negb (isReset s) && (optId_eqb (selectedNode s) (Some nodeId)
                            || existsb (String.eqb nodeId) (tracenodes s))
    then resetProperties else ret tt) ;;
   ns <- gets nodes ;;
   es <- gets edges ;;
   nodes_remove nodeId ;;
   modify (fun s => if optId_eqb (lastClickedNode s) (Some nodeId)
                    then setLastClickedNode s None else s) ;;
   forEach (getConnectedNodes ns es nodeId) updateNodeValue) s.
Proof.
  intros Ht. unfold removeNodeEventGuarded. rewrite Ht, !run_gets. reflexivity.
Qed.

(** Both right-click handlers, with [doReset] telling whether the handler
    calls the reset. *)
Lemma rightClick_outcome (nodeId : Id) (doReset : bool) (s : State) :
  let head := if doReset then resetProperties else ret tt in
  exists o s1,
    head s = (o, s1) /\
    match o with
    | Threw e =>
        (head ;;
         ns <- gets nodes ;;
         es <- gets edges ;;
         nodes_remove nodeId ;;
         modify (fun s => if optId_eqb (lastClickedNode s) (Some nodeId)
                          then setLastClickedNode s None else s) ;;
         forEach (getConnectedNodes ns es nodeId) updateNodeValue) s = (Threw e, s1)
    | Returned _ =>
        exists s',
          (head ;;
           ns <- gets nodes ;;
           es <- gets edges ;;
           nodes_remove nodeId ;;
           modify (fun s => if optId_eqb (lastClickedNode s) (Some nodeId)
                            then setLastClickedNode s None else s) ;;
           forEach (getConnectedNodes ns es nodeId) updateNodeValue) s
          = (Returned tt, s') /\
          map nodeFrame (nodes s') = map nodeFrame (removeNode (nodes s1) nodeId) /\
          edges s' = edges s1 /\ isReset s' = isReset s1 /\
          traceedges s' = traceedges s1 /\ tracenodes s' = tracenodes s1 /\
          startpages s' = startpages s1 /\
          selectedNode s' = selectedNode s1 /\
          lastClickedNode s' =
            (if optId_eqb (lastClickedNode s1) (Some nodeId)
             then None else lastClickedNode s1)
    end.
Proof.
  intros head. destruct (head s) as [[[]|e] s1] eqn:Hhead.
  - exists (Returned tt), s1. split; [reflexivity|].
    destruct (@removal_runs nodeId (getConnectedNodes (nodes s1) (edges s1) nodeId)
                (fun s => if optId_eqb (lastClickedNode s) (Some nodeId)
                          then setLastClickedNode s None else s) s1
                (forgetClicked_frame nodeId))
      as (s' & Hrun & A1 & A2 & A3 & A4 & A5 & A6 & A7 & A8).
    exists s'. split.
    { erewrite run_bind by exact Hhead. rewrite !run_gets. exact Hrun. }
    repeat split; try assumption.
    + rewrite A7. fields.
      now destruct (optId_eqb (lastClickedNode s1) (Some nodeId)).
    + rewrite A8. fields.
      now destruct (optId_eqb (lastClickedNode s1) (Some nodeId)).
  - exists (Threw e), s1. split; [reflexivity|]. now apply run_bind_threw.
Qed.

Lemma head_sameGraph (doReset : bool) (s : State) :
  sameGraph s (snd ((if doReset then resetProperties else ret tt) s)).
Proof.
  destruct doReset; [apply resetProperties_sameGraph | apply sameGraph_refl].
Qed.

Lemma rightClick_keeps_edges (nodeId : Id) (doReset : bool) (s : State) :
  let head := if doReset then resetProperties else ret tt in
  map edgeShape
    (edges (snd ((head ;;
                  ns <- gets nodes ;;
                  es <- gets edges ;;
                  nodes_remove nodeId ;;
                  modify (fun s => if optId_eqb (lastClickedNode s) (Some nodeId)
                                   then setLastClickedNode s None else s) ;;
                  forEach (getConnectedNodes ns es nodeId) updateNodeValue) s)))
  = map edgeShape (edges s).
Proof.
  intros head.
  destruct (rightClick_outcome nodeId doReset s) as (o & s1 & Hhead & Ho).
  pose proof (head_sameGraph doReset s) as (_ & G & _).
  unfold head. rewrite Hhead in G. simpl in G.
  destruct o as [[]|e].
  - destruct Ho as (s' & Hrun & _ & He & _). rewrite Hrun. simpl.
    now rewrite He.
  - rewrite Ho. exact G.
Qed.

(** X6. Removal does not cascade.  Whatever the outcome of the two
    right-click handlers and of the button handler, the edge set keeps
    every edge with its id, ends and level, those that touch the removed
    node included. *)
Theorem removal_keeps_edges (s : State) (nodeAt : option Id) :
  map edgeShape (edges (snd (removeNodeEvent nodeAt s))) = map edgeShape (edges s) /\
  map edgeShape (edges (snd (removeNodeEventGuarded nodeAt s)))
  = map edgeShape (edges s) /\
  map edgeShape (edges (snd (removeSelected s))) = map edgeShape (edges s).
Proof.
  split; [|split].
  - destruct nodeAt as [nodeId|]; [|reflexivity].
    destruct (truthy (Some nodeId)) eqn:Ht.
    + rewrite (removeNodeEvent_unfolds nodeId s Ht). apply rightClick_keeps_edges.
    + unfold removeNodeEvent. now rewrite Ht.
  - destruct nodeAt as [nodeId|]; [|reflexivity].
    destruct (truthy (Some nodeId)) eqn:Ht.
    + rewrite (removeNodeEventGuarded_unfolds nodeId s Ht).
      apply rightClick_keeps_edges.
    + unfold removeNodeEventGuarded. now rewrite Ht.
  - destruct (orId (selectedNode s) (lastClickedNode s)) as [nodeId|] eqn:Hsel.
    2:{ unfold removeSelected. rewrite !run_gets, Hsel. reflexivity. }
    destruct (truthy (Some nodeId)) eqn:Ht.
    2:{ unfold removeSelected. rewrite !run_gets, Hsel, Ht. reflexivity. }
    rewrite (removeSelected_fused s Hsel Ht).
    pose proof (resetProperties_sameGraph s) as ((_ & G & _) & _).
    unfold bind at 1. destruct (resetProperties s) as [[[]|e] s1]; simpl in G.
    + destruct (@removal_runs nodeId (getConnectedNodes (nodes s) (edges s) nodeId)
                  (fun s => setLastClickedNode (setSelectedNode s None) None) s1
                  forgetBoth_frame) as (s' & Hrun & _ & He & _).
      rewrite Hrun. simpl. now rewrite He.
    + exact G.
Qed.

Lemma resetProperties_cleared (s s1 : State) :
  resetProperties s = (Returned tt, s1) ->
  isReset s1 = true /\ (highlightInv s -> highlightCleared s1).
Proof.
  intros Hrun. destruct (isReset s) eqn:Hr.
  - rewrite (resetProperties_when_reset s Hr) in Hrun. injection Hrun as <-.
    split; [exact Hr|]. intros Hinv. now apply Hinv.
  - destruct (resetProperties_outcome s Hr)
      as (o & s1' & log & Hrun' & _ & _ & _ & Hsel & Ho).
    rewrite Hrun in Hrun'. injection Hrun' as <- <-.
    destruct Ho as (Htn & Hte & Hflag).
    split; [exact Hflag|]. intros _. unfold highlightCleared. auto.
Qed.

Lemma removed_links (s s1 s' : State) (nodeId : Id) :
  sameGraph s s1 ->
  map nodeFrame (nodes s') = map nodeFrame (removeNode (nodes s1) nodeId) ->
  hasId (nodes s') nodeId = false /\
  map nodeLink (nodes s') = map nodeLink (removeNode (nodes s) nodeId).
Proof.
  intros (G & _) Hf.
  assert (Hl : map nodeLink (nodes s') = map nodeLink (removeNode (nodes s) nodeId)).
  { rewrite (nodeLink_nodeFrame _ _ Hf). apply nodeLink_removeNode.
    now apply nodeLink_nodeShape. }
  split; [|exact Hl].
  rewrite (hasId_ext _ (removeNode (nodes s) nodeId)) by now apply getIds_nodeLink.
  apply hasId_removeNode.
Qed.

(** After a right click with or without reset, given what the state
    reached by the head of the handler says about the node. *)
Lemma rightClick_forgets (nodeId : Id) (doReset : bool) (s s' : State) :
  let head := if doReset then resetProperties else ret tt in
  (forall s1, head s = (Returned tt, s1) ->
     selectedNode s1 <> Some nodeId /\ ~ In nodeId (tracenodes s1) /\ highlightInv s1) ->
  (head ;;
   ns <- gets nodes ;;
   es <- gets edges ;;
   nodes_remove nodeId ;;
   modify (fun s => if optId_eqb (lastClickedNode s) (Some nodeId)
                    then setLastClickedNode s None else s) ;;
   forEach (getConnectedNodes ns es nodeId) updateNodeValue) s = (Returned tt, s') ->
  hasId (nodes s') nodeId = false /\
  map nodeLink (nodes s') = map nodeLink (removeNode (nodes s) nodeId) /\
  selectedNode s' <> Some nodeId /\ ~ In nodeId (tracenodes s') /\
  lastClickedNode s' <> Some nodeId /\ highlightInv s'.
Proof.
  intros head Hhead Hrun.
  destruct (rightClick_outcome nodeId doReset s) as (o & s1 & Hh & Ho).
  pose proof (head_sameGraph doReset s) as G. rewrite Hh in G. simpl in G.
  fold head in Hrun.
  destruct o as [[]|e]; [|unfold head in Hrun; rewrite Ho in Hrun; discriminate].
  destruct Ho as (s2 & Hrun2 & A1 & A2 & A3 & A4 & A5 & A6 & A7 & A8).
  unfold head in Hrun. rewrite Hrun in Hrun2. injection Hrun2 as <-.
  destruct (Hhead s1 Hh) as (Hsel & Htn & Hinv).
  destruct (@removed_links s s1 _ nodeId G A1) as [B1 B2].
  split; [exact B1|]. split; [exact B2|].
  split; [now rewrite A7|]. split; [now rewrite A5|]. split.
  - rewrite A8. destruct (optId_eqb (lastClickedNode s1) (Some nodeId)) eqn:He;
      [discriminate|]. now apply optId_eqb_neq.
  - intros Hflag. rewrite A3 in Hflag. destruct (Hinv Hflag) as (C1 & C2 & C3).
    unfold highlightCleared. rewrite A7, A5, A4. auto.
Qed.

(** X7. When a right click on a node has returned, with the handler of
    [bindings.js] or the earlier one, the node is gone and nothing names
    it any more: not the selection, not the trace, not the last clicked
    node; the other nodes are there with their parents as they were, so a
    child of the removed node still names it. *)
Theorem rightClick_forgets_node (s s' : State) (nodeId : Id)
    (handler : option Id -> Op unit) :
  truthy (Some nodeId) = true ->
  highlightInv s ->
  handler = removeNodeEvent \/ handler = removeNodeEventGuarded ->
  handler (Some nodeId) s = (Returned tt, s') ->
  hasId (nodes s') nodeId = false /\
  map nodeLink (nodes s') = map nodeLink (removeNode (nodes s) nodeId) /\
  selectedNode s' <> Some nodeId /\ ~ In nodeId (tracenodes s') /\
  lastClickedNode s' <> Some nodeId /\ highlightInv s'.
Proof.
  intros Ht Hinv [-> | ->] Hrun.
  - rewrite (removeNodeEvent_unfolds nodeId s Ht) in Hrun.
    apply (@rightClick_forgets nodeId (negb (isReset s)) s s'); [|exact Hrun].
    intros s1 Hhead. destruct (isReset s) eqn:Hr; simpl in Hhead.
    + injection Hhead as <-. destruct (Hinv Hr) as (C1 & C2 & C3).
      rewrite C1, C2. repeat split; auto; discriminate.
    + destruct (@resetProperties_cleared s s1 Hhead) as [Hflag Hc].
      destruct (Hc Hinv) as (C1 & C2 & C3). rewrite C1, C2.
      repeat split; auto; try discriminate.
  - rewrite (removeNodeEventGuarded_unfolds nodeId s Ht) in Hrun.
    apply (@rightClick_forgets nodeId
             (negb (isReset s) && (optId_eqb (selectedNode s) (Some nodeId)
                                   || existsb (String.eqb nodeId) (tracenodes s)))
             s s'); [|exact Hrun].
    intros s1 Hhead.
    destruct (negb (isReset s) && (optId_eqb (selectedNode s) (Some nodeId)
                                   || existsb (String.eqb nodeId) (tracenodes s)))
      eqn:Hguard.
    + destruct (@resetProperties_cleared s s1 Hhead) as [Hflag Hc].
      destruct (Hc Hinv) as (C1 & C2 & C3). rewrite C1, C2.
      repeat split; auto; try discriminate.
    + injection Hhead as <-.
      apply andb_false_iff in Hguard. destruct Hguard as [Hr | Hno].
      * apply negb_false_iff in Hr. destruct (Hinv Hr) as (C1 & C2 & C3).
        rewrite C1, C2. repeat split; auto; discriminate.
      * apply orb_false_iff in Hno. destruct Hno as [Hs Hn].
        split; [now apply optId_eqb_neq|]. split; [|exact Hinv].
        intros Hin. apply existsb_eqb_In in Hin. congruence.
Qed.

(** X8. The button that removes the selected node.  With neither a
    selection nor a last clicked node it does nothing.  Otherwise, when it
    has returned, the node is gone, the flag is on [Reset], selection and
    last clicked node are empty, and the other nodes are there with their
    parents as they were. *)
Theorem removeSelected_forgets_node (s : State) :
  (truthy (orId (selectedNode s) (lastClickedNode s)) = false ->
   removeSelected s = (Returned tt, s)) /\
  (forall nodeId s',
     orId (selectedNode s) (lastClickedNode s) = Some nodeId ->
     truthy (Some nodeId) = true ->
     removeSelected s = (Returned tt, s') ->
     hasId (nodes s') nodeId = false /\
     map nodeLink (nodes s') = map nodeLink (removeNode (nodes s) nodeId) /\
     selectedNode s' = None /\ lastClickedNode s' = None /\ isReset s' = true /\
     (highlightInv s -> highlightCleared s')).
Proof.
  split.
  - intros Hf. unfold removeSelected. rewrite !run_gets.
    destruct (orId (selectedNode s) (lastClickedNode s)) as [nodeId|]; [|reflexivity].
    now rewrite Hf.
  - intros nodeId s' Hsel Ht Hrun.
    rewrite (removeSelected_fused s Hsel Ht) in Hrun.
    pose proof (resetProperties_sameGraph s) as (G & _).
    destruct (resetProperties s) as [[[]|e] s1] eqn:Hreset;
      [|erewrite run_bind_threw in Hrun by exact Hreset; discriminate].
    erewrite run_bind in Hrun by exact Hreset. simpl in G.
    destruct (@removal_runs nodeId (getConnectedNodes (nodes s) (edges s) nodeId)
                (fun s => setLastClickedNode (setSelectedNode s None) None) s1
                forgetBoth_frame)
      as (s2 & Hrun2 & A1 & A2 & A3 & A4 & A5 & A6 & A7 & A8).
    rewrite Hrun in Hrun2. injection Hrun2 as <-.
    destruct (@resetProperties_cleared s s1 Hreset) as [Hflag Hc].
    destruct (@removed_links s s1 _ nodeId G A1) as [B1 B2].
    split; [exact B1|]. split; [exact B2|].
    split; [exact A7|]. split; [exact A8|]. split; [congruence|].
    intros Hinv. destruct (Hc Hinv) as (C1 & C2 & C3).
    unfold highlightCleared. rewrite A7, A5, A4. auto.
Qed.

(** *** Rename *)

(** What [renameNode] to another id leaves, in its two outcomes: it
    throws at line 40 when neither the old nor the new id is stored, and
    returns otherwise. *)
Lemma renameNode_structure (oldId : Id) (newName : string) (s : State) :
  getNormalizedId newName <> oldId ->
  exists o s',
    renameNode oldId newName s = (o, s') /\
    edges s' = updateEdges (edges s)
                 (repointedEdges (edges s) oldId (getNormalizedId newName)) /\
    isReset s' = isReset s /\ traceedges s' = traceedges s /\
    lastClickedNode s' = lastClickedNode s /\ loading s' = loading s /\
    ((o = Threw TypeError /\
      hasId (nodes s) (getNormalizedId newName) = false /\
      getNode (nodes s) oldId = None /\
      nodes s' = removeNode (nodes s) oldId /\
      selectedNode s' = selectedNode s /\ tracenodes s' = tracenodes s /\
      startpages s' = startpages s)
     \/
     (o = Returned (getNormalizedId newName) /\
      (exists base,
         hasId base oldId = false /\
         hasId base (getNormalizedId newName) = true /\
         nodes s' =
           updateNodes base
             (map (childPatch (getNormalizedId newName))
                (filter (fun n => optId_eqb (parent n) (Some oldId)) base))) /\
      selectedNode s' =
        (if optId_eqb (selectedNode s) (Some oldId)
         then Some (getNormalizedId newName) else selectedNode s) /\
      tracenodes s' = map (renameId oldId (getNormalizedId newName)) (tracenodes s) /\
      startpages s' = map (renameId oldId (getNormalizedId newName)) (startpages s))).
Proof.
  set (newId := getNormalizedId newName).
  intros Hne.
  assert (Hneb : String.eqb newId oldId = false) by now apply String.eqb_neq.
  unfold renameNode. rewrite run_gets. fold newId. rewrite Hneb.
  do 2 step.
  destruct (hasId (nodes s) newId) eqn:Hnew.
  - (* merge *)
    erewrite run_bind by (apply mergeOrReplace_merges; exact Hnew). fields.
    erewrite run_bind by apply repointChildren_runs. fields.
    unfold moveHighlight. step. unfold ret.
    eexists. eexists. split; [reflexivity|].
    destruct (optId_eqb (selectedNode s) (Some oldId)); fields.
    all: repeat (split; [reflexivity|]).
    all: right; split; [reflexivity|].
    all: split; [|repeat split; reflexivity].
    all: eexists; split; [|split; [|reflexivity]].
    all: assert (Hrm : hasId (removeNode (nodes s) oldId) newId = true)
           by (rewrite hasId_removeNode_other; assumption).
    all: try (rewrite (@hasId_ext _ (removeNode (nodes s) oldId));
              [ first [apply hasId_removeNode | exact Hrm]
              | apply (@getIds_updateNodes_stored [_]);
                constructor; [exact Hrm | constructor] ]).
  - destruct (getNode (nodes s) oldId) as [o|] eqn:Hold.
    + (* pure rename *)
      erewrite run_bind by (apply mergeOrReplace_replaces; assumption). fields.
      erewrite run_bind by apply repointChildren_runs. fields.
      unfold moveHighlight. step. unfold ret.
      eexists. eexists. split; [reflexivity|].
      destruct (optId_eqb (selectedNode s) (Some oldId)); fields.
      all: repeat (split; [reflexivity|]).
      all: right; split; [reflexivity|].
      all: split; [|repeat split; reflexivity].
      all: eexists; split; [|split; [|reflexivity]].
      all: rewrite hasId_app, ?hasId_removeNode; unfold hasId; cbn [existsb orb nid
             renamedRecord].
      all: rewrite ?Hneb, ?String.eqb_refl, ?orb_true_r; reflexivity.
    + (* neither id is stored *)
      erewrite run_bind_threw.
      2:{ unfold mergeOrReplace. rewrite run_gets. fields. rewrite Hnew.
          rewrite run_nodes_remove. fields. unfold throw. reflexivity. }
      eexists. eexists. split; [reflexivity|]. fields.
      repeat (split; [reflexivity|]).
      left. repeat split; reflexivity.
Qed.

Lemma repointed_edges (es : EdgeSet) (oldId newId : Id) (e : Edge) :
  NoDup (map eid es) -> In e es ->
  applyEdgePatches (repointedEdges es oldId newId) e =
  if String.eqb (to e) oldId then withTo e newId
  else if String.eqb (from e) oldId then withFrom e newId
  else e.
Proof.
  intros Hnd Hin.
  destruct (String.eqb (to e) oldId) eqn:Ht.
  { apply String.eqb_eq in Ht. now apply repointed_incoming. }
  apply String.eqb_neq in Ht.
  destruct (String.eqb (from e) oldId) eqn:Hf.
  { apply String.eqb_eq in Hf. now apply repointed_outgoing. }
  apply String.eqb_neq in Hf.
  apply applyEdgePatches_others. unfold repointedEdges.
  apply Forall_app. split; apply Forall_map, Forall_forall; intros e' He' Hid;
    simpl in Hid; apply filter_In in He'; destruct He' as [He' Hq];
    apply String.eqb_eq in Hq;
    assert (e' = e) by (apply (eid_injective es); auto); subst e'; contradiction.
Qed.

(** X9. When [renameNode] to another id has returned, nothing names the
    old id any more: no node has it or names it as parent, and neither the
    selection, the trace nor the start pages hold it.  No edge points at
    it, and an edge leaves it only if it was a loop on the old node, which
    ends as an edge from the old id to the new one. *)
Theorem renameNode_forgets_old_id (s s' : State) (oldId : Id) (newName : string)
    (newId : Id) :
  getNormalizedId newName <> oldId ->
  renameNode oldId newName s = (Returned newId, s') ->
  newId = getNormalizedId newName /\
  hasId (nodes s') newId = true /\
  hasId (nodes s') oldId = false /\
  (forall n, In n (nodes s') -> parent n <> Some oldId) /\
  selectedNode s' <> Some oldId /\
  ~ In oldId (tracenodes s') /\ ~ In oldId (startpages s') /\
  (NoDup (map eid (edges s)) ->
   map eid (edges s') = map eid (edges s) /\
   (forall e, In e (edges s') -> to e <> oldId) /\
   (forall e, In e (edges s') -> from e = oldId ->
      to e = newId /\ exists e0, In e0 (edges s) /\ eid e0 = eid e /\
                                 from e0 = oldId /\ to e0 = oldId)).
Proof.
  intros Hne Hrun.
  destruct (renameNode_structure newName s Hne)
    as (o & s2 & Hrun2 & He & _ & _ & _ & _ & Hcases).
  rewrite Hrun in Hrun2. injection Hrun2 as <- <-.
  destruct Hcases as [(Ho & _) | (Ho & (base & Hbo & Hbn & Hn) & Hsel & Htn & Hsp)];
    [discriminate|].
  injection Ho as ->.
  assert (Hrename : forall l, ~ In oldId (map (renameId oldId (getNormalizedId newName)) l)).
  { intros l Hin. apply in_map_iff in Hin. destruct Hin as [i [Hi _]].
    unfold renameId in Hi. destruct (String.eqb i oldId) eqn:Hio.
    - congruence.
    - apply String.eqb_neq in Hio. congruence. }
  pose proof (childPatches_stored base oldId (getNormalizedId newName)) as Hst.
  split; [reflexivity|].
  split; [rewrite Hn, (@hasId_ext _ base)
            by (now apply getIds_updateNodes_stored); exact Hbn|].
  split; [rewrite Hn, (@hasId_ext _ base)
            by (now apply getIds_updateNodes_stored); exact Hbo|].
  split.
  { intros n Hin. rewrite Hn, (updateNodes_stored _ Hst) in Hin.
    apply in_map_iff in Hin. destruct Hin as [n0 [<- Hn0]].
    apply (@applyNodePatches_last (fun x => parent x <> Some oldId) (fun _ => True)).
    - trivial.
    - intros p m Hp _ _. apply in_map_iff in Hp. destruct Hp as [q [<- _]].
      simpl. congruence.
    - exact I.
    - destruct (optId_eqb (parent n0) (Some oldId)) eqn:Hp.
      + right. exists (childPatch (getNormalizedId newName) n0). split; [|reflexivity].
        apply in_map. apply filter_In. now split.
      + left. now apply optId_eqb_neq. }
  split.
  { rewrite Hsel. destruct (optId_eqb (selectedNode s) (Some oldId)) eqn:Hs.
    - congruence.
    - now apply optId_eqb_neq. }
  split; [rewrite Htn; apply Hrename|].
  split; [rewrite Hsp; apply Hrename|].
  intros Hnd.
  rewrite He, (@updateEdges_stored _ _
                 (repointedEdges_stored (edges s) oldId (getNormalizedId newName))).
  split; [rewrite map_map; apply map_ext; intros e; apply eid_applyEdgePatches|].
  split.
  - intros e Hin. apply in_map_iff in Hin. destruct Hin as [e0 [<- He0]].
    rewrite (@repointed_edges (edges s) oldId (getNormalizedId newName) e0 Hnd He0).
    destruct (String.eqb (to e0) oldId) eqn:Ht; [simpl; congruence|].
    apply String.eqb_neq in Ht.
    destruct (String.eqb (from e0) oldId); simpl; exact Ht.
  - intros e Hin Hfrom. apply in_map_iff in Hin. destruct Hin as [e0 [<- He0]].
    rewrite (@repointed_edges (edges s) oldId (getNormalizedId newName) e0 Hnd He0) in *.
    destruct (String.eqb (to e0) oldId) eqn:Ht.
    + apply String.eqb_eq in Ht. simpl in *. split; [reflexivity|].
      exists e0. repeat split; assumption.
    + destruct (String.eqb (from e0) oldId) eqn:Hf; simpl in Hfrom.
      * congruence.
      * apply String.eqb_neq in Hf. contradiction.
Qed.

(** *** Expansion *)

Lemma buildChildren_edges (ns : NodeSet) (es : EdgeSet) (page : Id) (lvl : nat)
    (start : Z * Z) (subpages : list string) :
  forall i subnodes newedges r,
    buildChildren ns es page lvl start i subpages subnodes newedges = Returned r ->
    snd r = newedges ++ map (linkEdge page lvl) (unlinked es page subpages).
Proof.
  unfold unlinked.
  induction subpages as [|sp rest IH]; intros i sn ne r Hb; simpl in *.
  - injection Hb as <-. simpl. now rewrite app_nil_r.
  - destruct (negb (existsb (String.eqb (getNormalizedId sp)) (getIds ns))).
    + destruct (decodeURIComponent sp) as [decoded|]; [|discriminate].
      apply IH in Hb. rewrite Hb.
      destruct (getEdgeConnecting es page (getNormalizedId sp)); simpl;
        [reflexivity | now rewrite <- app_assoc].
    + apply IH in Hb. rewrite Hb.
      destruct (getEdgeConnecting es page (getNormalizedId sp)); simpl;
        [reflexivity | now rewrite <- app_assoc].
Qed.

Lemma buildChildren_nodes (ns : NodeSet) (es : EdgeSet) (page : Id) (lvl : nat)
    (start : Z * Z) (subpages : list string) :
  forall i subnodes newedges r,
    buildChildren ns es page lvl start i subpages subnodes newedges = Returned r ->
    exists added,
      fst r = subnodes ++ added /\
      Forall (fun n => level n = lvl /\ parent n = Some page /\ value n = 1 /\
                       color n = getColor lvl /\ font n = None) added.
Proof.
  induction subpages as [|sp rest IH]; intros i sn ne r Hb; simpl in *.
  - injection Hb as <-. exists []. simpl. now rewrite app_nil_r.
  - destruct (negb (existsb (String.eqb (getNormalizedId sp)) (getIds ns))).
    + destruct (decodeURIComponent sp) as [decoded|]; [|discriminate].
      apply IH in Hb. destruct Hb as (added & Hr & Hall).
      eexists. split; [rewrite Hr, <- app_assoc; reflexivity|].
      constructor; [repeat split | exact Hall].
    + now apply IH in Hb.
Qed.

Lemma addNodes_all (items : list Node) :
  forall ns, snd (addNodes ns items) = None -> fst (addNodes ns items) = ns ++ items.
Proof.
  induction items as [|n items IH]; intros ns Hok; simpl in *.
  - now rewrite app_nil_r.
  - destruct (hasId ns (nid n)); [discriminate|].
    rewrite (IH _ Hok), <- app_assoc. reflexivity.
Qed.

Lemma sameVariables_refl (s : State) : sameVariables s s.
Proof. repeat split. Qed.

(** What the callback leaves, in each of its outcomes: the page is not
    stored, a link cannot be decoded, [nodes.add] meets an id twice, or it
    runs to its end. *)
Lemma expandNodeCallback_structure (page : Id) (links : list string) (s : State) :
  exists o s',
    expandNodeCallback page links s = (o, s') /\
    sameVariables s s' /\
    match getNode (nodes s) page with
    | None => o = Threw TypeError /\ nodes s' = nodes s /\ edges s' = edges s
    | Some node =>
        match buildChildren (nodes s) (edges s) page (level node + 1)
                (getSpawnPosition (nodes s) (edges s) page) 0 links [] [] with
        | Threw e => o = Threw e /\ nodes s' = nodes s /\ edges s' = edges s
        | Returned built =>
            match snd (addNodes (nodes s) (fst built)) with
            | Some i =>
                o = Threw (DuplicateId i) /\
                nodes s' = fst (addNodes (nodes s) (fst built)) /\
                edges s' = edges s
            | None =>
                o = Returned tt /\
                map nodeFrame (nodes s') = map nodeFrame (nodes s ++ fst built) /\
                edges s' = addEdges (edges s) (snd built)
            end
        end
    end.
Proof.
  unfold expandNodeCallback. rewrite !run_gets.
  destruct (getNode (nodes s) page) as [node|].
  2:{ eexists. eexists. split; [reflexivity|]. split; [apply sameVariables_refl|].
      repeat split. }
  destruct (buildChildren (nodes s) (edges s) page (level node + 1)
              (getSpawnPosition (nodes s) (edges s) page) 0 links [] [])
    as [built|e].
  2:{ rewrite run_lift_threw. eexists. eexists. split; [reflexivity|].
      split; [apply sameVariables_refl|]. repeat split. }
  rewrite run_lift. unfold bind at 1. unfold nodes_add.
  pose proof (addNodes_all (fst built) (nodes s)) as Hall.
  destruct (addNodes (nodes s) (fst built)) as [ns' dup]. fields.
  destruct dup as [i|]; simpl snd.
  { eexists. eexists. split; [reflexivity|]. fields. repeat split. }
  simpl in Hall. rewrite (Hall eq_refl).
  unfold bind at 1. unfold edges_add, modify. fields.
  match goal with
  | |- exists o s', (_ ;; forEach _ _) ?st = _ /\ _ =>
      destruct (updateNodeValue_sizesOnly page st) as (s1 & H1 & U1);
      unfold bind; rewrite H1;
      destruct (forEach_sizesOnly
                  (fun subpage => updateNodeValue (getNormalizedId subpage)) links
                  (fun a st' => updateNodeValue_sizesOnly (getNormalizedId a) st') s1)
        as (s2 & H2 & U2);
      rewrite H2;
      pose proof (sizesOnly_trans U1 U2) as U
  end.
  destruct U as (A1 & A2 & A3 & A4 & A5 & A6 & A7 & A8 & A9). simpl in *.
  eexists. eexists. split; [reflexivity|].
  split; [repeat split; assumption|].
  split; [reflexivity|]. split; assumption.
Qed.

Lemma edgeEnds_addEdges (items : list NewEdge) :
  forall es, map edgeEnds (addEdges es items)
             = map edgeEnds es ++ map (fun ne => (ne_from ne, ne_to ne)) items.
Proof.
  unfold addEdges.
  induction items as [|ne items IH]; intros es; simpl.
  - now rewrite app_nil_r.
  - rewrite IH, map_app, <- app_assoc. reflexivity.
Qed.

Lemma freshEdgeId_new (es : EdgeSet) : ~ In (freshEdgeId es) (map eid es).
Proof.
  unfold freshEdgeId. intros Hin.
  assert (Hle : Forall (fun k => k <= list_max (map eid es)) (map eid es))
    by now apply list_max_le.
  rewrite Forall_forall in Hle. specialize (Hle _ Hin). lia.
Qed.

Lemma eid_addEdges (items : list NewEdge) :
  forall es, NoDup (map eid es) -> NoDup (map eid (addEdges es items)).
Proof.
  unfold addEdges.
  induction items as [|ne items IH]; intros es Hnd; simpl; [exact Hnd|].
  apply IH. rewrite map_app. simpl.
  apply NoDup_app.
  - exact Hnd.
  - constructor; [intros [] | constructor].
  - intros i Hi [<- | []]. now apply (freshEdgeId_new es).
Qed.

Lemma getEdgeConnecting_None (es : EdgeSet) (a b : Id) :
  getEdgeConnecting es a b = None <-> ~ In (a, b) (map edgeEnds es).
Proof.
  unfold getEdgeConnecting.
  destruct (find (fun e => String.eqb (from e) a && String.eqb (to e) b) es)
    as [e|] eqn:Hf; simpl.
  - split; [discriminate|]. intros Hn. exfalso. apply Hn.
    apply find_some in Hf. destruct Hf as [Hin Hq].
    apply andb_true_iff in Hq. destruct Hq as [Ha Hb].
    apply String.eqb_eq in Ha, Hb. apply in_map_iff. exists e.
    split; [unfold edgeEnds; congruence | exact Hin].
  - split; [|reflexivity]. intros _ Hin. apply in_map_iff in Hin.
    destruct Hin as [e [He Hin]]. injection He as Ha Hb.
    pose proof (find_none _ _ Hf e Hin) as Hq. simpl in Hq.
    rewrite Ha, Hb, !String.eqb_refl in Hq. discriminate.
Qed.

Lemma unlinked_distinct (es : EdgeSet) (page : Id) (links : list string) :
  NoDup (map getNormalizedId links) ->
  NoDup (map getNormalizedId (unlinked es page links)).
Proof.
  unfold unlinked. induction links as [|sp rest IH]; simpl; intros Hnd;
    [constructor|].
  inversion Hnd as [|x m Hnotin Hrest]; subst.
  destruct (getEdgeConnecting es page (getNormalizedId sp)); [now apply IH|].
  simpl. constructor; [|now apply IH].
  intros Hin. apply Hnotin. apply in_map_iff in Hin.
  destruct Hin as [y [Hy Hin]]. apply filter_In in Hin.
  apply in_map_iff. exists y. split; [exact Hy | apply Hin].
Qed.

Lemma NoDup_map_pair (page : Id) (l : list Id) :
  NoDup l -> NoDup (map (fun i => (page, i)) l).
Proof.
  induction 1 as [|i l Hnotin _ IH]; simpl; constructor; [|exact IH].
  intros Hin. apply in_map_iff in Hin. destruct Hin as [j [Hj Hin]]. congruence.
Qed.

(** X10. Expansion keeps the edges apart.  When the links have pairwise
    distinct ids, as those of [getWikiLinks] have, a store with at most
    one edge per ordered pair of ends has at most one afterwards, and
    distinct edge ids stay distinct, whatever the outcome of the
    callback. *)
Theorem expandNodeCallback_keeps_edges_apart (s : State) (page : Id)
    (links : list string) :
  NoDup (map getNormalizedId links) ->
  (uniquePairs (edges s) -> uniquePairs (edges (snd (expandNodeCallback page links s)))) /\
  (NoDup (map eid (edges s)) ->
   NoDup (map eid (edges (snd (expandNodeCallback page links s))))).
Proof.
  intros Hlinks.
  destruct (expandNodeCallback_structure page links s) as (o & s' & Hrun & _ & Hcases).
  rewrite Hrun. simpl.
  destruct (getNode (nodes s) page) as [node|];
    [|destruct Hcases as (_ & _ & ->); split; trivial].
  destruct (buildChildren (nodes s) (edges s) page (level node + 1)
              (getSpawnPosition (nodes s) (edges s) page) 0 links [] [])
    as [built|e] eqn:Hb;
    [|destruct Hcases as (_ & _ & ->); split; trivial].
  destruct (snd (addNodes (nodes s) (fst built))) as [i|];
    [destruct Hcases as (_ & _ & ->); split; trivial|].
  destruct Hcases as (_ & _ & ->).
  split; [|apply eid_addEdges].
  intros Hu. unfold uniquePairs. rewrite edgeEnds_addEdges.
  apply buildChildren_edges in Hb. simpl in Hb. rewrite Hb, map_map.
  apply NoDup_app.
  - exact Hu.
  - change (fun x : string => (ne_from (linkEdge page (level node + 1) x),
                               ne_to (linkEdge page (level node + 1) x)))
      with (fun x : string => (page, getNormalizedId x)).
    rewrite <- (map_map getNormalizedId (fun i => (page, i))).
    apply NoDup_map_pair.
    now apply unlinked_distinct.
  - intros [a b] Hin Hnew. apply in_map_iff in Hnew.
    destruct Hnew as [sp [Hsp Hun]]. simpl in Hsp. injection Hsp as <- <-.
    unfold unlinked in Hun. apply filter_In in Hun. destruct Hun as [_ Hnone].
    destruct (getEdgeConnecting (edges s) page (getNormalizedId sp)) eqn:Hg;
      [discriminate|].
    apply getEdgeConnecting_None in Hg. contradiction.
Qed.

(** X11. What an expansion that returns has added: the nodes stored
    before are there as they were, sizes apart, followed by one node for
    each new id among the links, one level below the page, with the page
    as parent and the colour of its level; and one edge from the page for
    each link to which the page had none. *)
Theorem expandNodeCallback_adds_children (s s' : State) (page : Id)
    (links : list string) (node : Node) :
  getNode (nodes s) page = Some node ->
  expandNodeCallback page links s = (Returned tt, s') ->
  (exists added,
     map nodeFrame (nodes s') = map nodeFrame (nodes s ++ added) /\
     map nid added = newIds (nodes s) links /\
     Forall (fun n => level n = level node + 1 /\ parent n = Some page /\
                      color n = getColor (level node + 1) /\ font n = None) added) /\
  map edgeEnds (edges s') =
    map edgeEnds (edges s)
    ++ map (fun sp => (page, getNormalizedId sp)) (unlinked (edges s) page links) /\
  sameVariables s s'.
Proof.
  intros Hpage Hrun.
  destruct (expandNodeCallback_structure page links s) as (o & s2 & Hrun2 & Hv & Hcases).
  rewrite Hrun in Hrun2. injection Hrun2 as <- <-.
  rewrite Hpage in Hcases.
  destruct (buildChildren (nodes s) (edges s) page (level node + 1)
              (getSpawnPosition (nodes s) (edges s) page) 0 links [] [])
    as [built|e] eqn:Hb; [|destruct Hcases; discriminate].
  destruct (snd (addNodes (nodes s) (fst built))) as [i|];
    [destruct Hcases; discriminate|].
  destruct Hcases as (_ & Hn & He).
  split; [|split; [|exact Hv]].
  - exists (fst built). split; [exact Hn|].
    pose proof Hb as Hids. apply buildChildren_ids in Hids.
    pose proof Hb as Hnodes. apply buildChildren_nodes in Hnodes.
    destruct Hnodes as (added & Ha & Hall).
    simpl in Hids, Ha. split; [exact Hids|]. rewrite Ha.
    eapply Forall_impl; [|exact Hall]. intros n (A1 & A2 & _ & A4 & A5). auto.
  - rewrite He, edgeEnds_addEdges.
    apply buildChildren_edges in Hb. simpl in Hb. rewrite Hb, map_map. reflexivity.
Qed.

Lemma ends_with_stopLoading {A} (m : Op A) (s s2 : State) (a : unit) :
  (m ;; stopLoading) s = (Returned a, s2) -> loading s2 = false.
Proof.
  unfold bind. destruct (m s) as [[x|e] s1]; [|discriminate].
  unfold stopLoading, modify. intros [= _ <-]. reflexivity.
Qed.

Lemma expandNodeSettle_hides (id : Id) (r : Settled) (s : State) :
  fst (expandNodeSettle id r s) = Returned tt /\
  loading (snd (expandNodeSettle id r s)) = false.
Proof.
  destruct r as [redirectedTo links|]; [|split; reflexivity].
  unfold expandNodeSettle, catch.
  match goal with
  | |- context [match ?m ?st with _ => _ end] => destruct (m st) as [[[]|e] s2] eqn:Hm
  end.
  - split; [reflexivity|]. simpl.
    unfold bind at 1 in Hm.
    destruct (renameNode id redirectedTo s) as [[newId|e] s1]; [|discriminate].
    eapply ends_with_stopLoading. exact Hm.
  - split; reflexivity.
Qed.

Lemma expandNodeBegin_stored (id : Id) (n : Node) (s : State) :
  getNode (nodes s) id = Some n ->
  expandNodeBegin id s = (Returned (unwrap (label n)), setLoading s true).
Proof.
  intros Hn. unfold expandNodeBegin, startLoading.
  rewrite run_modify, run_gets. fields. now rewrite Hn.
Qed.

Lemma expandNodeBegin_missing (id : Id) (s : State) :
  getNode (nodes s) id = None ->
  expandNodeBegin id s = (Threw TypeError, setLoading s true).
Proof.
  intros Hn. unfold expandNodeBegin, startLoading.
  rewrite run_modify, run_gets. fields. now rewrite Hn.
Qed.

(** X12. [expandNode] on a stored node.  The call shows the icon, starts
    the request and then returns or throws as lines 126-128 do, with the
    icon showing: it returns exactly when the comma field is there and
    its [querySelector] takes the selector built from the id, throws a
    [TypeError] without the comma field, and throws what [querySelector]
    throws on an id that breaks the selector.  In each case the request
    settles later with the icon hidden, whatever the link source answers
    and whatever the rename and the callback do.  On an id that is not
    stored the call throws at the read of the label: no request is made,
    the icon stays and the graph is untouched. *)
Theorem expandNode_settles (peopleMode : bool) (id : Id) (api : ApiOutcome) (s : State) :
  (hasId (nodes s) id = true ->
   expandNodeCall id s = (lockItem id, setLoading s true) /\
   fst (expandNode peopleMode id api s) = lockItem id /\
   loading (snd (expandNode peopleMode id api s)) = false) /\
  (hasId (nodes s) id = false ->
   expandNodeCall id s = (Threw TypeError, setLoading s true) /\
   expandNode peopleMode id api s = (Threw TypeError, setLoading s true)) /\
  (lockItem id = Returned tt <->
   inputPresent = true /\
   exists found, querySelector (itemSelector id) = Returned found) /\
  (inputPresent = false -> lockItem id = Threw TypeError) /\
  (forall e, inputPresent = true -> querySelector (itemSelector id) = Threw e ->
             lockItem id = Threw e).
Proof.
  split; [|split; [|split; [|split]]].
  - intros Hid. apply hasId_getNode in Hid. destruct Hid as [n Hn].
    pose proof (expandNodeBegin_stored id s Hn) as Hbegin.
    unfold expandNodeCall, expandNode.
    erewrite !run_bind by exact Hbegin. split; [reflexivity|]. split; [reflexivity|].
    apply expandNodeSettle_hides.
  - intros Hid. apply getNode_None in Hid.
    pose proof (expandNodeBegin_missing id s Hid) as Hbegin.
    unfold expandNodeCall, expandNode. split; now apply run_bind_threw.
  - unfold lockItem. destruct inputPresent.
    + destruct (querySelector (itemSelector id)) as [found|e]; split.
      * intros _. split; [reflexivity | now exists found].
      * reflexivity.
      * discriminate.
      * intros [_ [found Hf]]. discriminate.
    + split; [discriminate | intros [Hp _]; discriminate].
  - unfold lockItem. now intros ->.
  - unfold lockItem. now intros e -> ->.
Qed.

(** *** The highlight invariant under every operation *)

Lemma preserves_bind {A B} (P : State -> Prop) (m : Op A) (k : A -> Op B) :
  preserves P m -> (forall a, preserves P (k a)) -> preserves P (x <- m ;; k x).
Proof.
  intros Hm Hk s Hs. unfold bind. specialize (Hm s Hs).
  destruct (m s) as [[a|e] s1]; simpl in Hm; [now apply Hk | exact Hm].
Qed.

Lemma preserves_catch {A} (P : State -> Prop) (m : Op A) (h : Error -> Op A) :
  preserves P m -> (forall e, preserves P (h e)) -> preserves P (catch m h).
Proof.
  intros Hm Hh s Hs. unfold catch. specialize (Hm s Hs).
  destruct (m s) as [[a|e] s1]; simpl in Hm; [exact Hm | now apply Hh].
Qed.

Lemma preserves_gets {A B} (P : State -> Prop) (f : State -> A) (k : A -> Op B) :
  (forall a, preserves P (k a)) -> preserves P (x <- gets f ;; k x).
Proof. intros Hk s Hs. rewrite run_gets. now apply Hk. Qed.

Lemma preserves_ret {A} (P : State -> Prop) (a : A) : preserves P (ret a).
Proof. intros s Hs. exact Hs. Qed.

Lemma preserves_modify (P : State -> Prop) (f : State -> State) :
  (forall s, P s -> P (f s)) -> preserves P (modify f).
Proof. intros Hf s Hs. now apply Hf. Qed.

Lemma highlightInv_sameVariables (s s' : State) :
  sameVariables s s' -> highlightInv s -> highlightInv s'.
Proof.
  intros (A1 & A2 & A3 & A4 & _) Hinv Hflag. rewrite A1 in Hflag.
  destruct (Hinv Hflag) as (C1 & C2 & C3). unfold highlightCleared.
  rewrite A2, A3, A4. auto.
Qed.

Lemma preserves_resetProperties : preserves highlightInv resetProperties.
Proof. intros s. apply highlightInv_resetProperties. Qed.

Lemma preserves_traceBack (node : Id) : preserves highlightInv (traceBack node).
Proof. intros s. apply highlightInv_traceBack. Qed.

Lemma preserves_expandNodeCallback (page : Id) (links : list string) :
  preserves highlightInv (expandNodeCallback page links).
Proof.
  intros s Hinv.
  destruct (expandNodeCallback_structure page links s) as (o & s' & Hrun & Hv & _).
  rewrite Hrun. simpl. eapply highlightInv_sameVariables; eassumption.
Qed.

Lemma preserves_renameNode (oldId : Id) (newName : string) :
  preserves highlightInv (renameNode oldId newName).
Proof.
  intros s Hinv.
  destruct (String.eqb (getNormalizedId newName) oldId) eqn:He.
  - unfold renameNode. rewrite run_gets, He. exact Hinv.
  - apply String.eqb_neq in He.
    destruct (renameNode_structure newName s He)
      as (o & s' & Hrun & _ & Hr & Hte & _ & _ & Hcases).
    rewrite Hrun. simpl. intros Hflag. rewrite Hr in Hflag.
    destruct (Hinv Hflag) as (C1 & C2 & C3). unfold highlightCleared.
    destruct Hcases as [(_ & _ & _ & _ & Hs & Htn & _) | (_ & _ & Hs & Htn & _)].
    + rewrite Hs, Htn, Hte. auto.
    + rewrite Hs, Htn, Hte, C1, C2. auto.
Qed.

Lemma preserves_loading (v : bool) :
  preserves highlightInv (modify (fun s => setLoading s v)).
Proof. apply preserves_modify. intros s Hinv. exact Hinv. Qed.

Lemma preserves_expandNode (peopleMode : bool) (id : Id) (api : ApiOutcome) :
  preserves highlightInv (expandNode peopleMode id api).
Proof.
  unfold expandNode. apply preserves_bind.
  - unfold expandNodeBegin. apply preserves_bind; [apply preserves_loading|].
    intros _. apply preserves_gets. intros ns.
    destruct (getNode ns id); [apply preserves_ret | intros s Hs; exact Hs].
  - intros pagename s Hs. cbn [snd].
    revert s Hs. change (preserves highlightInv
                           (expandNodeSettle id (getSubPages peopleMode pagename api))).
    unfold expandNodeSettle.
    destruct (getSubPages peopleMode pagename api) as [r l|];
      [|apply preserves_loading].
    apply preserves_catch; [|intros _; apply preserves_loading].
    apply preserves_bind; [apply preserves_renameNode|].
    intros newId. apply preserves_bind; [apply preserves_expandNodeCallback|].
    intros _. apply preserves_loading.
Qed.

Lemma preserves_lastClicked (v : option Id) :
  preserves highlightInv (modify (fun s => setLastClickedNode s v)).
Proof. apply preserves_modify. intros s Hinv. exact Hinv. Qed.

Lemma preserves_updateNodeValue (i : Id) : preserves highlightInv (updateNodeValue i).
Proof.
  intros s Hinv. destruct (updateNodeValue_sizesOnly i s) as (s' & Hrun & U).
  rewrite Hrun. simpl.
  destruct U as (_ & _ & A3 & A4 & A5 & A6 & _).
  intros Hflag. rewrite A3 in Hflag. destruct (Hinv Hflag) as (C1 & C2 & C3).
  unfold highlightCleared. rewrite A4, A5, A6. auto.
Qed.

Lemma preserves_forEach {A} (P : State -> Prop) (f : A -> Op unit) (l : list A) :
  (forall a, preserves P (f a)) -> preserves P (forEach l f).
Proof.
  intros Hf. induction l as [|a l IH]; simpl; [apply preserves_ret|].
  apply preserves_bind; [apply Hf | intros _; exact IH].
Qed.

Lemma preserves_removal_tail (nodeId : Id) (neighbors : list Id) (g : State -> State) :
  (forall s, highlightInv s -> highlightInv (g s)) ->
  preserves highlightInv
    (nodes_remove nodeId ;; modify g ;; forEach neighbors updateNodeValue).
Proof.
  intros Hg. apply preserves_bind.
  - apply preserves_modify. intros s Hinv. exact Hinv.
  - intros _. apply preserves_bind; [now apply preserves_modify|].
    intros _. apply preserves_forEach. apply preserves_updateNodeValue.
Qed.

Lemma forgetClicked_highlightInv (nodeId : Id) (s : State) :
  highlightInv s ->
  highlightInv (if optId_eqb (lastClickedNode s) (Some nodeId)
                then setLastClickedNode s None else s).
Proof. intros Hinv. now destruct (optId_eqb (lastClickedNode s) (Some nodeId)). Qed.

(** X13. The invariant of the highlight state.  A state whose flag is on
    [Reset] has nothing selected and nothing traced: this holds in the
    state the scripts start from and is kept by every operation and
    handler, whether it returns or throws. *)
Theorem highlightInv_everywhere (ns : NodeSet) (es : EdgeSet) (roots : list Id) :
  highlightInv (initialState ns es roots) /\
  preserves highlightInv resetProperties /\
  (forall node, preserves highlightInv (traceBack node)) /\
  (forall oldId newName, preserves highlightInv (renameNode oldId newName)) /\
  (forall page links, preserves highlightInv (expandNodeCallback page links)) /\
  (forall peopleMode id api, preserves highlightInv (expandNode peopleMode id api)) /\
  (forall nodeAt, preserves highlightInv (removeNodeEvent nodeAt)) /\
  (forall nodeAt, preserves highlightInv (removeNodeEventGuarded nodeAt)) /\
  preserves highlightInv removeSelected /\
  (forall touch peopleMode api nodesAt,
     preserves highlightInv (expandEvent touch peopleMode api nodesAt)) /\
  (forall nodesAt, preserves highlightInv (mobileTraceEvent nodesAt)) /\
  preserves highlightInv blurNode /\
  (forall drawn, preserves highlightInv (selectRandomNode drawn)).
Proof.
  split; [apply highlightInv_initial|].
  split; [apply preserves_resetProperties|].
  split; [apply preserves_traceBack|].
  split; [apply preserves_renameNode|].
  split; [apply preserves_expandNodeCallback|].
  split; [apply preserves_expandNode|].
  split.
  { intros [nodeId|]; [|apply preserves_ret]. unfold removeNodeEvent.
    destruct (truthy (Some nodeId)); [|apply preserves_ret].
    apply preserves_gets. intros reset. apply preserves_bind.
    - destruct (negb reset); [apply preserves_resetProperties | apply preserves_ret].
    - intros _. apply preserves_gets. intros ns'. apply preserves_gets. intros es'.
      apply preserves_removal_tail. apply forgetClicked_highlightInv. }
  split.
  { intros [nodeId|]; [|apply preserves_ret]. unfold removeNodeEventGuarded.
    destruct (truthy (Some nodeId)); [|apply preserves_ret].
    apply preserves_gets. intros reset. apply preserves_gets. intros selected.
    apply preserves_gets. intros tn. apply preserves_bind.
    - destruct (negb reset && _);
        [apply preserves_resetProperties | apply preserves_ret].
    - intros _. apply preserves_gets. intros ns'. apply preserves_gets. intros es'.
      apply preserves_removal_tail. apply forgetClicked_highlightInv. }
  split.
  { unfold removeSelected. apply preserves_gets. intros selected.
    apply preserves_gets. intros lastClicked.
    destruct (orId selected lastClicked) as [nodeId|]; [|apply preserves_ret].
    destruct (truthy (Some nodeId)); [|apply preserves_ret].
    apply preserves_gets. intros ns'. apply preserves_gets. intros es'.
    apply preserves_bind; [apply preserves_resetProperties|]. intros _.
    apply preserves_bind; [apply preserves_modify; intros s Hinv; exact Hinv|].
    intros _. apply preserves_bind.
    { apply preserves_modify. intros s Hinv Hflag.
      destruct (Hinv Hflag) as (C1 & C2 & C3). now repeat split. }
    intros _. apply preserves_bind; [apply preserves_lastClicked|].
    intros _. apply preserves_forEach. apply preserves_updateNodeValue. }
  split.
  { intros touch peopleMode api [|page rest]; unfold expandEvent.
    - apply preserves_bind; [apply preserves_lastClicked|].
      intros _. apply preserves_resetProperties.
    - apply preserves_gets. intros lastClicked.
      destruct (touch || optId_eqb (Some page) lastClicked);
        [apply preserves_expandNode|].
      apply preserves_bind; [apply preserves_lastClicked|].
      intros _. apply preserves_traceBack. }
  split.
  { intros [|page rest]; unfold mobileTraceEvent;
      (apply preserves_bind; [apply preserves_lastClicked|]); intros _;
      [apply preserves_resetProperties | apply preserves_traceBack]. }
  split.
  { unfold blurNode. apply preserves_gets. intros [page|];
      [|apply preserves_resetProperties].
    destruct (truthy (Some page));
      [apply preserves_traceBack | apply preserves_resetProperties]. }
  intros drawn. unfold selectRandomNode. apply preserves_gets. intros allIds.
  destruct (Nat.ltb 0 (length allIds)); [|apply preserves_ret].
  apply preserves_bind; [apply preserves_lastClicked|]. intros _.
  apply preserves_bind; [apply preserves_traceBack|]. intros _. apply preserves_ret.
Qed.

(** *** The link source *)

Lemma splitOn_nonempty (sep : Ascii.ascii) (s : string) :
  exists first others, splitOn sep s = first :: others.
Proof.
  induction s as [|c s IH]; simpl.
  - now eexists; eexists.
  - destruct (Ascii.eqb c sep); [now eexists; eexists|].
    destruct IH as (f & o & ->). now eexists; eexists.
Qed.

(** Splitting at a separator splits the list of pieces. *)
Lemma splitOn_app (sep : Ascii.ascii) (a b : string) :
  splitOn sep (a ++ String sep b) = splitOn sep a ++ splitOn sep b.
Proof.
  induction a as [|c a IH]; simpl.
  - now rewrite Ascii.eqb_refl.
  - destruct (Ascii.eqb c sep); [now rewrite IH|].
    rewrite IH. destruct (splitOn_nonempty sep a) as (f & o & ->). reflexivity.
Qed.

Lemma splitOn_whole (sep : Ascii.ascii) (s : string) :
  containsChar sep s = false -> splitOn sep s = [s].
Proof.
  induction s as [|c s IH]; simpl; [reflexivity|].
  intros Hc. apply orb_false_iff in Hc. destruct Hc as [Hc Hs].
  rewrite Hc, (IH Hs). reflexivity.
Qed.

Lemma containsChar_app (c : Ascii.ascii) (a b : string) :
  containsChar c (a ++ b) = containsChar c a || containsChar c b.
Proof.
  induction a as [|d a IH]; simpl; [reflexivity|]. now rewrite IH, orb_assoc.
Qed.

Lemma lastOf_app {A} (l : list A) (a : A) : lastOf (l ++ [a]) = Some a.
Proof.
  induction l as [|b l IH]; simpl; [reflexivity|].
  destruct (l ++ [a]) eqn:Hl; [destruct l; discriminate | exact IH].
Qed.

Lemma lastOf_cons {A} (a : A) (l : list A) : lastOf (a :: l) <> None.
Proof.
  revert a. induction l as [|b l IH]; intros a; simpl; [discriminate | apply IH].
Qed.

Lemma last_piece (pre piece : string) :
  piece <> "" -> containsChar "/"%char piece = false ->
  lastOf (filter (fun el => negb (String.eqb el ""))
            (splitOn "/"%char (pre ++ String "/"%char piece)))
  = Some piece.
Proof.
  intros Hne Hns. rewrite splitOn_app, (splitOn_whole _ _ Hns), filter_app.
  simpl. apply String.eqb_neq in Hne. rewrite Hne. simpl. apply lastOf_app.
Qed.

(** X14. [getPageTitleQuickly] answers what stands between the last slash
    of the url and the first [#] after it: the title when the title holds
    no slash, with or without a fragment behind it, and only the part
    after its last slash otherwise. *)
Theorem getPageTitleQuickly_last_piece (pre title fragment : string) :
  title <> "" ->
  containsChar "/"%char title = false ->
  containsChar "#"%char title = false ->
  containsChar "/"%char fragment = false ->
  getPageTitleQuickly (pre ++ String "/"%char title) = Returned title /\
  getPageTitleQuickly (pre ++ String "/"%char (title ++ String "#"%char fragment))
  = Returned title.
Proof.
  intros Hne Hslash Hhash Hfrag. unfold getPageTitleQuickly. split.
  - rewrite (last_piece pre Hne Hslash). now rewrite (splitOn_whole _ _ Hhash).
  - rewrite last_piece.
    + rewrite splitOn_app, (splitOn_whole _ _ Hhash). reflexivity.
    + destruct title; [contradiction | discriminate].
    + rewrite containsChar_app. simpl. now rewrite Hslash, Hfrag.
Qed.

Lemma endsWithColon_contains (s : string) :
  endsWithColon s = true -> containsChar ":"%char s = true.
Proof.
  induction s as [|c s IH]; simpl; [discriminate|].
  destruct s as [|d s].
  - intros ->. reflexivity.
  - intros Hs. rewrite (IH Hs). apply orb_true_r.
Qed.

Lemma dropLast_app (a b : string) :
  b <> "" -> dropLast (a ++ b) = (a ++ dropLast b)%string.
Proof.
  intros Hb. induction a as [|c a IH]; simpl; [reflexivity|].
  rewrite IH. destruct (a ++ b)%string eqn:Hab; [|reflexivity].
  destruct a; simpl in Hab; [contradiction | discriminate].
Qed.

Lemma endsWithColon_app (a : string) : endsWithColon (a ++ ":") = true.
Proof.
  induction a as [|c a IH]; simpl; [reflexivity|].
  destruct (a ++ ":")%string eqn:Hab; [destruct a; discriminate | exact IH].
Qed.

(** X15. [isArticle] accepts exactly the names without a colon before
    their last character: a name without colon, with or without one
    colon appended, is an article; a name with anything after a colon is
    not. *)
Theorem isArticle_no_inner_colon :
  (forall name, containsChar ":"%char name = false ->
     isArticle name = true /\ isArticle (name ++ ":") = true) /\
  (forall a b, b <> "" -> isArticle (a ++ String ":"%char b) = false).
Proof.
  split.
  - intros name Hc. unfold isArticle. split.
    + destruct (endsWithColon name) eqn:He.
      * apply endsWithColon_contains in He. congruence.
      * now rewrite Hc.
    + rewrite endsWithColon_app, dropLast_app by discriminate. simpl.
      rewrite containsChar_app, Hc. reflexivity.
  - intros a b Hb. unfold isArticle.
    destruct b as [|c b]; [contradiction|].
    destruct (endsWithColon (a ++ String ":"%char (String c b))).
    + rewrite dropLast_app by discriminate.
      change (dropLast (String ":"%char (String c b)))
        with (String ":"%char (dropLast (String c b))).
      rewrite containsChar_app.
      change (containsChar ":"%char (String ":"%char (dropLast (String c b))))
        with true.
      now rewrite orb_true_r.
    + rewrite containsChar_app.
      change (containsChar ":"%char (String ":"%char (String c b))) with true.
      now rewrite orb_true_r.
Qed.

Lemma prefix_split (p h : string) :
  String.prefix p h = true -> exists rest, h = (p ++ rest)%string.
Proof.
  revert h. induction p as [|c p IH]; intros h Hp.
  - now exists h.
  - destruct h as [|d h]; simpl in Hp; [discriminate|].
    destruct (Ascii.ascii_dec c d) as [<- | _]; [|discriminate].
    destruct (IH h Hp) as [rest ->]. now exists rest.
Qed.

Lemma getPageTitleQuickly_wiki (h : string) :
  String.prefix "/wiki/" h = true -> exists t, getPageTitleQuickly h = Returned t.
Proof.
  intros Hp. apply prefix_split in Hp. destruct Hp as [rest ->].
  unfold getPageTitleQuickly.
  change ("/wiki/" ++ rest)%string with ("/wiki" ++ String "/"%char rest)%string.
  rewrite splitOn_app, filter_app.
  change (filter (fun el => negb (String.eqb el "")) (splitOn "/"%char "/wiki"))
    with ["wiki"].
  destruct (lastOf (["wiki"] ++ filter (fun el => negb (String.eqb el ""))
                                  (splitOn "/"%char rest))) eqn:Hl.
  - now eexists.
  - exfalso. revert Hl. apply lastOf_cons.
Qed.

Lemma uniqueFrom_cons (ids : list Id) (k : nat) (x : string) (l : list string) :
  uniqueFrom ids k (x :: l) =
  if match indexOf (getNormalizedId x) ids with
     | Some j => Nat.eqb j k
     | None => false
     end
  then x :: uniqueFrom ids (S k) l else uniqueFrom ids (S k) l.
Proof.
  unfold uniqueFrom. simpl.
  destruct (indexOf (getNormalizedId x) ids) as [j|]; [|reflexivity].
  now destruct (Nat.eqb j k).
Qed.

Lemma uniqueFrom_first (ids : list Id) (l : list string) :
  forall k y, In y (uniqueFrom ids k l) ->
    In y l /\ exists i, k <= i /\ indexOf (getNormalizedId y) ids = Some i.
Proof.
  induction l as [|x l IH]; intros k y Hin; [destruct Hin|].
  rewrite uniqueFrom_cons in Hin.
  destruct (indexOf (getNormalizedId x) ids) as [j|] eqn:Hj.
  - destruct (Nat.eqb j k) eqn:Hjk.
    + destruct Hin as [<- | Hin].
      * apply Nat.eqb_eq in Hjk. split; [now left|]. exists j. split; [lia | exact Hj].
      * destruct (IH _ _ Hin) as (Hl & i & Hi & Hy).
        split; [now right|]. exists i. split; [lia | exact Hy].
    + destruct (IH _ _ Hin) as (Hl & i & Hi & Hy).
      split; [now right|]. exists i. split; [lia | exact Hy].
  - destruct (IH _ _ Hin) as (Hl & i & Hi & Hy).
    split; [now right|]. exists i. split; [lia | exact Hy].
Qed.

Lemma uniqueFrom_NoDup (ids : list Id) (l : list string) :
  forall k, NoDup (map getNormalizedId (uniqueFrom ids k l)).
Proof.
  induction l as [|x l IH]; intros k; [constructor|].
  rewrite uniqueFrom_cons.
  destruct (indexOf (getNormalizedId x) ids) as [j|] eqn:Hj; [|apply IH].
  destruct (Nat.eqb j k) eqn:Hjk; [|apply IH].
  apply Nat.eqb_eq in Hjk. subst j. simpl. constructor; [|apply IH].
  intros Hin. apply in_map_iff in Hin. destruct Hin as [y [Hy Hin]].
  apply uniqueFrom_first in Hin. destruct Hin as (_ & i & Hi & Hyi).
  rewrite Hy, Hj in Hyi. injection Hyi as <-. lia.
Qed.

Lemma indexOf_In (x : Id) (l : list Id) :
  In x l -> exists j, indexOf x l = Some j /\ nth_error l j = Some x.
Proof.
  induction l as [|y l IH]; intros Hin; [destruct Hin|]. simpl.
  destruct (String.eqb y x) eqn:He.
  - apply String.eqb_eq in He. subst y. now exists 0.
  - destruct Hin as [-> | Hin]; [rewrite String.eqb_refl in He; discriminate|].
    destruct (IH Hin) as (j & -> & Hn). now exists (S j).
Qed.

Lemma uniqueFrom_keeps (ids : list Id) (l : list string) :
  forall k j y,
    nth_error l j = Some y -> indexOf (getNormalizedId y) ids = Some (k + j) ->
    In y (uniqueFrom ids k l).
Proof.
  induction l as [|x l IH]; intros k j y Hn Hi; [destruct j; discriminate|].
  rewrite uniqueFrom_cons. destruct j as [|j]; simpl in Hn.
  - injection Hn as ->. rewrite Hi, Nat.add_0_r, Nat.eqb_refl. now left.
  - assert (Hrest : In y (uniqueFrom ids (S k) l)).
    { apply (IH (S k) j y Hn). rewrite Hi. f_equal. lia. }
    destruct (indexOf (getNormalizedId x) ids) as [i|]; [|exact Hrest].
    destruct (Nat.eqb i k); [now right | exact Hrest].
Qed.

Lemma uniqueById_uniqueFrom (links : list string) :
  uniqueById links = uniqueFrom (map getNormalizedId links) 0 links.
Proof. unfold uniqueById, uniqueFrom. now rewrite length_map. Qed.

(** The links [getWikiLinks] answers, for the titles it has found. *)
Lemma uniqueById_distinct (links : list string) :
  NoDup (map getNormalizedId (uniqueById links)) /\
  (forall y, In y (uniqueById links) -> In y links) /\
  (forall x, In x links ->
     In (getNormalizedId x) (map getNormalizedId (uniqueById links))).
Proof.
  rewrite uniqueById_uniqueFrom. split; [apply uniqueFrom_NoDup|]. split.
  - intros y Hy. now apply uniqueFrom_first in Hy.
  - intros x Hx.
    destruct (@indexOf_In (getNormalizedId x) (map getNormalizedId links)
                (in_map _ _ _ Hx)) as (j & Hj & Hn).
    rewrite nth_error_map in Hn.
    destruct (nth_error links j) as [y|] eqn:Hy; [|discriminate].
    simpl in Hn. injection Hn as Hid.
    apply in_map_iff. exists y. split; [exact Hid|].
    apply (@uniqueFrom_keeps _ links 0 j y Hy). now rewrite Hid.
Qed.

Lemma getWikiLinks_returns (element : option (list (option string))) :
  exists links,
    getWikiLinks element = Returned links /\
    NoDup (map getNormalizedId links).
Proof.
  unfold getWikiLinks. destruct element as [hrefs|]; [|exists []; split; constructor].
  match goal with
  | |- context [mapOutcome getPageTitleQuickly ?w] =>
      assert (Hall : Forall (fun h => exists t, getPageTitleQuickly h = Returned t) w)
  end.
  { apply Forall_forall. intros h Hh. apply in_flat_map in Hh.
    destruct Hh as [[x|] [_ Hx]]; [|destruct Hx].
    destruct (negb (String.eqb x "") && String.prefix "/wiki/" x) eqn:Hw;
      [|destruct Hx].
    destruct Hx as [<- | []]. apply andb_true_iff in Hw.
    now apply getPageTitleQuickly_wiki. }
  match goal with
  | |- context [mapOutcome getPageTitleQuickly ?w] =>
      assert (Hrun : exists titles, mapOutcome getPageTitleQuickly w = Returned titles)
  end.
  { clear -Hall. induction Hall as [|h w [t Ht] _ [titles IH]]; simpl.
    - now eexists.
    - rewrite Ht, IH. now eexists. }
  destruct Hrun as [titles ->].
  eexists. split; [reflexivity|]. apply uniqueById_distinct.
Qed.

Lemma addNodes_fresh (items : list Node) :
  forall ns,
    (forall n, In n items -> hasId ns (nid n) = false) ->
    NoDup (map nid items) ->
    snd (addNodes ns items) = None.
Proof.
  induction items as [|n items IH]; intros ns Hnew Hnd; simpl; [reflexivity|].
  rewrite (Hnew n (or_introl eq_refl)).
  simpl in Hnd. inversion Hnd as [|x l Hnotin Hnd']; subst.
  apply IH; [|exact Hnd'].
  intros m Hm. rewrite hasId_app, (Hnew m (or_intror Hm)). simpl.
  rewrite orb_false_r. apply String.eqb_neq. intros Heq. apply Hnotin.
  rewrite Heq. now apply in_map.
Qed.

Lemma buildChildren_throws (ns : NodeSet) (es : EdgeSet) (page : Id) (lvl : nat)
    (start : Z * Z) (subpages : list string) :
  forall i subnodes newedges e,
    buildChildren ns es page lvl start i subpages subnodes newedges = Threw e ->
    e = URIError.
Proof.
  induction subpages as [|sp rest IH]; intros i sn ne e Hb; simpl in Hb;
    [discriminate|].
  destruct (negb (existsb (String.eqb (getNormalizedId sp)) (getIds ns))).
  - destruct (decodeURIComponent sp); [|congruence]. eapply IH. exact Hb.
  - eapply IH. exact Hb.
Qed.

Lemma expandNodeCallback_no_duplicate (page : Id) (links : list string) (s : State) :
  NoDup (map getNormalizedId links) ->
  forall i, fst (expandNodeCallback page links s) <> Threw (DuplicateId i).
Proof.
  intros Hnd i.
  destruct (expandNodeCallback_structure page links s) as (o & s' & Hrun & _ & Hcases).
  rewrite Hrun. simpl.
  destruct (getNode (nodes s) page) as [node|];
    [|destruct Hcases as (-> & _); discriminate].
  destruct (buildChildren (nodes s) (edges s) page (level node + 1)
              (getSpawnPosition (nodes s) (edges s) page) 0 links [] [])
    as [built|e] eqn:Hb.
  2:{ destruct Hcases as (-> & _). apply buildChildren_throws in Hb. congruence. }
  assert (Hok : snd (addNodes (nodes s) (fst built)) = None).
  { pose proof Hb as Hids. apply buildChildren_ids in Hids. simpl in Hids.
    apply addNodes_fresh.
    - intros n Hn. apply (in_map nid) in Hn. rewrite Hids in Hn.
      unfold newIds in Hn. apply filter_In in Hn. destruct Hn as [_ Hn].
      apply negb_true_iff in Hn. now rewrite hasId_existsb in Hn.
    - rewrite Hids. unfold newIds. now apply NoDup_filter. }
  rewrite Hok in Hcases. destruct Hcases as (-> & _). discriminate.
Qed.

(** X16. The links of a paragraph.  [getWikiLinks] never throws: every
    href that starts with [/wiki/] has a title.  The links it answers have
    pairwise distinct ids, so the expansion of a page with them never
    stops at [nodes.add] on an id met twice. *)
Theorem getWikiLinks_feeds_expansion (element : option (list (option string)))
    (page : Id) (s : State) :
  exists links,
    getWikiLinks element = Returned links /\
    NoDup (map getNormalizedId links) /\
    forall i, fst (expandNodeCallback page links s) <> Threw (DuplicateId i).
Proof.
  destruct (getWikiLinks_returns element) as (links & Hrun & Hnd).
  exists links. split; [exact Hrun|]. split; [exact Hnd|].
  now apply expandNodeCallback_no_duplicate.
Qed.


(** *** The people filter *)

Lemma chunksFrom_partition (passes : nat) :
  forall titles, length titles <= passes ->
    concat (chunksFrom passes titles) = titles /\
    Forall (fun c => 1 <= length c <= 50) (chunksFrom passes titles).
Proof.
  induction passes as [|p IH]; intros titles Hlen.
  - destruct titles; [split; [reflexivity | constructor] | simpl in Hlen; lia].
  - destruct titles as [|t rest]; [split; [reflexivity | constructor]|].
    cbn [chunksFrom concat].
    destruct (IH (skipn 50 (t :: rest))) as [Hc Hall].
    { rewrite length_skipn. simpl in *. lia. }
    split.
    + rewrite Hc. apply firstn_skipn.
    + constructor; [|exact Hall].
      rewrite length_firstn. simpl length. lia.
Qed.

(** X18. The requests of the people filter: the chunks are the titles in
    order, cut in pieces of fifty, so every title is asked for in exactly
    one request, no request is empty and none has more than fifty
    titles. *)
Theorem chunksOf_partition (titles : list string) :
  concat (chunksOf titles) = titles /\
  Forall (fun c => 1 <= length c <= 50) (chunksOf titles) /\
  (forall c, In c (chunksOf titles) -> forall t, In t c -> In t titles).
Proof.
  destruct (@chunksFrom_partition (length titles) titles (le_n _)) as [Hc Hall].
  split; [exact Hc|]. split; [exact Hall|].
  intros c Hin t Ht. rewrite <- Hc. apply in_concat. now exists c.
Qed.




(** *** The click handlers *)

Lemma traceBack_selects (node : Id) (s s' : State) :
  traceBack node s = (Returned tt, s') -> selectedNode s' = Some node.
Proof.
  unfold traceBack. rewrite run_gets.
  destruct (optId_eqb (Some node) (selectedNode s)) eqn:Hsel.
  - intros [= <-]. apply optId_eqb_eq in Hsel. now symmetry.
  - unfold bind. destruct (resetProperties s) as [[[]|e] s1]; [|discriminate].
    destruct (enterTraced_structure node s1) as (o & s2 & Hrun & _ & _ & _ & Hs & _).
    rewrite Hrun. now intros [= _ <-].
Qed.

(** X20. Clicks on a desktop.  A click on a node that was not the last
    one clicked never expands it: it is remembered and traced, and the
    graph stays as it is.  On the state that click leaves, whether the
    trace returned or threw, the next click on the node is the expansion,
    so two clicks in a row expand it.  A click beside the nodes forgets
    the last one; on a touch device every hold expands. *)
Theorem expandEvent_second_click_expands (peopleMode : bool) (api api' : ApiOutcome)
    (page : Id) (others : list Id) (s : State) :
  (lastClickedNode s <> Some page ->
   expandEvent false peopleMode api (page :: others) s
   = (modify (fun s => setLastClickedNode s (Some page)) ;; traceBack page) s /\
   sameGraph s (snd (expandEvent false peopleMode api (page :: others) s)) /\
   lastClickedNode (snd (expandEvent false peopleMode api (page :: others) s))
   = Some page /\
   expandEvent false peopleMode api' (page :: others)
     (snd (expandEvent false peopleMode api (page :: others) s))
   = expandNode peopleMode page api'
       (snd (expandEvent false peopleMode api (page :: others) s))) /\
  (lastClickedNode s = Some page ->
   expandEvent false peopleMode api (page :: others) s
   = expandNode peopleMode page api s) /\
  expandEvent true peopleMode api (page :: others) s = expandNode peopleMode page api s /\
  lastClickedNode (snd (expandEvent false peopleMode api [] s)) = None.
Proof.
  split; [|split; [|split]].
  - intros Hlast.
    assert (Hne : optId_eqb (Some page) (lastClickedNode s) = false)
      by (apply optId_eqb_neq; congruence).
    assert (Hfirst : expandEvent false peopleMode api (page :: others) s
                     = (modify (fun s => setLastClickedNode s (Some page)) ;;
                        traceBack page) s).
    { unfold expandEvent. rewrite run_gets, Hne. reflexivity. }
    pose proof (traceBack_sameGraph page (setLastClickedNode s (Some page)))
      as (G & L & _).
    split; [exact Hfirst|]. rewrite Hfirst, run_modify.
    split; [eapply sameGraph_trans; [apply (sameGraph_lastClicked s (Some page)) | exact G]|].
    split; [exact L|].
    unfold expandEvent at 1. rewrite run_gets, L. fields.
    rewrite optId_eqb_refl. reflexivity.
  - intros Hlast. unfold expandEvent. rewrite run_gets, Hlast, optId_eqb_refl.
    reflexivity.
  - reflexivity.
  - unfold expandEvent. rewrite run_modify.
    now destruct (resetProperties_sameGraph (setLastClickedNode s None)) as (_ & -> & _).
Qed.

(** X21. The random selection.  On an empty store it answers [null] and
    changes nothing.  Otherwise, whatever index is drawn, the node it
    answers is stored, is the last clicked node and is the selection. *)
Theorem selectRandomNode_selects_stored (drawn : nat) (s : State) :
  (nodes s = [] -> selectRandomNode drawn s = (Returned None, s)) /\
  (forall r s', selectRandomNode drawn s = (Returned r, s') -> nodes s <> [] ->
     exists i, r = Some i /\ hasId (nodes s) i = true /\
               lastClickedNode s' = Some i /\ selectedNode s' = Some i).
Proof.
  unfold selectRandomNode. rewrite run_gets. split.
  - intros ->. reflexivity.
  - intros r s' Hrun Hne.
    assert (Hlen : 0 < length (getIds (nodes s))).
    { unfold getIds. rewrite length_map. destruct (nodes s); [contradiction|].
      simpl. lia. }
    assert (Hlt : Nat.ltb 0 (length (getIds (nodes s))) = true)
      by now apply Nat.ltb_lt.
    rewrite Hlt, run_modify in Hrun.
    set (i := nth (drawn mod length (getIds (nodes s))) (getIds (nodes s)) "") in *.
    pose proof (traceBack_sameGraph i (setLastClickedNode s (Some i))) as (_ & L & _).
    unfold bind in Hrun.
    destruct (traceBack i (setLastClickedNode s (Some i))) as [[[]|e] s1] eqn:Htb;
      [|discriminate].
    unfold ret in Hrun. injection Hrun as <- <-.
    exists i. split; [reflexivity|]. split; [|split].
    + apply hasId_In. apply nth_In. apply Nat.mod_upper_bound. lia.
    + exact L.
    + eapply traceBack_selects. exact Htb.
Qed.

(** *** When the store has a dangling reference *)




Lemma traceLoop_throws (ns : NodeSet) (roots : list Id) (budget : nat) :
  forall cur iterations acc e,
    traceLoop budget ns roots cur iterations acc = Threw e ->
    e = TypeError \/ e = Unfinished.
Proof.
  induction budget as [|b IH]; intros cur it acc e Hrun; simpl in Hrun.
  - right. congruence.
  - destruct cur as [c|]; simpl in Hrun.
    + destruct (getNode ns c) as [n|]; [|left; congruence].
      destruct (Nat.ltb 100 it); [discriminate|].
      destruct (existsb (String.eqb c) roots); [discriminate|].
      eapply IH. exact Hrun.
    + destruct (Nat.ltb 100 it); [discriminate|]. eapply IH. exact Hrun.
Qed.

Lemma getTraceBackNodes_throws (ns : NodeSet) (roots : list Id) (node : Id) (e : Error) :
  getTraceBackNodes ns roots node = Threw e -> e = TypeError.
Proof.
  intros Hrun. pose proof (getTraceBackNodes_finishes ns roots node) as Hfin.
  rewrite Hrun in Hfin. unfold getTraceBackNodes in Hrun.
  destruct (traceLoop 102 ns roots (Some node) 0 []) as [p|e'] eqn:Hloop;
    [discriminate|].
  injection Hrun as ->. apply traceLoop_throws in Hloop.
  destruct Hloop as [-> | ->]; [reflexivity | congruence].
Qed.

(** X23. A trace that fails on a store without dangling edges failed in
    the walk, at a parent that is not stored.  It leaves the node
    selected with the flag off, so tracing the node again does nothing;
    and the next reset pass runs to its end and clears the highlight. *)
Theorem traceBack_failure_leaves_selection (s s' : State) (node : Id) (e : Error) :
  targetsStored (nodes s) (edges s) ->
  traceBack node s = (Threw e, s') ->
  e = TypeError /\
  selectedNode s' = Some node /\ isReset s' = false /\
  traceBack node s' = (Returned tt, s') /\
  exists s2, resetProperties s' = (Returned tt, s2) /\
             highlightCleared s2 /\ isReset s2 = true.
Proof.
  intros Ht Hrun.
  destruct (resetProperties_keeps s Ht)
    as (s1 & Hreset & Hids & Hpar & Heid & Hto & Hroots).
  assert (Ht1 : targetsStored (nodes s1) (edges s1)).
  { unfold targetsStored in *.
    apply (proj1 (Forall_map to (fun t => hasId (nodes s1) t = true) (edges s1))).
    rewrite Hto. apply Forall_map.
    eapply Forall_impl; [|exact Ht]. intros x Hx. simpl in Hx.
    rewrite <- Hx. now apply hasId_ext. }
  unfold traceBack in Hrun. rewrite run_gets in Hrun.
  destruct (optId_eqb (Some node) (selectedNode s)); [discriminate|].
  erewrite run_bind in Hrun by exact Hreset.
  destruct (enterTraced_structure node s1)
    as (o & s2 & Hrun2 & _ & _ & _ & Hsel & Hflag & Hcases).
  rewrite Hrun in Hrun2. injection Hrun2 as <- <-.
  destruct (getTraceBackNodes (nodes s1) (startpages s1) node) as [path|e0] eqn:Hwalk.
  { destruct Hcases as (_ & _ & Hcases).
    rewrite (traceEdge_stored _ _ Ht1) in Hcases. destruct Hcases; discriminate. }
  destruct Hcases as (He & Hn & Hedges & _). injection He as ->.
  split; [now apply getTraceBackNodes_throws in Hwalk|].
  split; [exact Hsel|]. split; [exact Hflag|].
  split.
  { unfold traceBack. rewrite run_gets, Hsel, optId_eqb_refl. reflexivity. }
  assert (Ht' : targetsStored (nodes s') (edges s')) by now rewrite Hn, Hedges.
  destruct (resetProperties_runs s' Hflag Ht') as [log [Hruns _]].
  eexists. split; [exact Hruns|]. split; [|reflexivity].
  repeat split.
Qed.

(** X24. An answer for a node that is gone.  When the links arrive after
    the node was removed and name no redirect, the rename does nothing,
    the callback throws at the read of the level, the handler swallows
    it, and all that changes is the loading icon. *)
Theorem expandNodeSettle_after_removal (id : Id) (redirectedTo : string)
    (links : list string) (s : State) :
  hasId (nodes s) id = false ->
  getNormalizedId redirectedTo = id ->
  expandNodeSettle id (Resolved redirectedTo links) s = (Returned tt, setLoading s false).
Proof.
  intros Hid Hred. apply getNode_None in Hid.
  unfold expandNodeSettle, catch.
  assert (Hrun : (newId <- renameNode id redirectedTo ;;
                  expandNodeCallback newId links ;; stopLoading) s
                 = (Threw TypeError, s)).
  { assert (Hrename : renameNode id redirectedTo s = (Returned id, s)).
    { unfold renameNode. rewrite run_gets, Hred, String.eqb_refl. reflexivity. }
    erewrite run_bind by exact Hrename.
    apply run_bind_threw. unfold expandNodeCallback.
    rewrite !run_gets, Hid. reflexivity. }
  rewrite Hrun. reflexivity.
Qed.

(** *** The edges of the path *)

Lemma getEdgeConnecting_shape (es ms : EdgeSet) (a b : Id) :
  map edgeShape ms = map edgeShape es ->
  getEdgeConnecting ms a b = getEdgeConnecting es a b.
Proof.
  unfold getEdgeConnecting. revert ms.
  induction es as [|e es IH]; intros [|m ms] Hs; simpl in Hs; try discriminate;
    [reflexivity|].
  injection Hs as Hid Hfrom Hto _ _ _ Hrest. simpl. rewrite Hfrom, Hto.
  destruct (String.eqb (from e) a && String.eqb (to e) b); simpl;
    [now rewrite Hid | now apply IH].
Qed.

Lemma getEdgeConnecting_Some (es : EdgeSet) (a b : Id) (i : EdgeId) :
  getEdgeConnecting es a b = Some i ->
  exists e, In e es /\ eid e = i /\ from e = a /\ to e = b.
Proof.
  unfold getEdgeConnecting.
  destruct (find (fun e => String.eqb (from e) a && String.eqb (to e) b) es)
    as [e|] eqn:Hf; simpl; [|discriminate].
  intros [= <-]. apply find_some in Hf. destruct Hf as [Hin Hq].
  apply andb_true_iff in Hq. destruct Hq as [Ha Hb].
  apply String.eqb_eq in Ha, Hb. now exists e.
Qed.

Lemma ends_injective (es : EdgeSet) (a b : Edge) :
  uniquePairs es -> In a es -> In b es -> edgeEnds a = edgeEnds b -> a = b.
Proof.
  unfold uniquePairs.
  induction es as [|e es IH]; simpl; intros Hnd Ha Hb Hab; [contradiction|].
  inversion Hnd as [|x l Hnotin Hnd']; subst.
  destruct Ha as [-> | Ha], Hb as [-> | Hb]; auto.
  - exfalso. apply Hnotin. rewrite Hab. now apply in_map.
  - exfalso. apply Hnotin. rewrite <- Hab. now apply in_map.
Qed.

Lemma getEdgeConnecting_unique (es : EdgeSet) (e : Edge) :
  uniquePairs es -> In e es -> getEdgeConnecting es (from e) (to e) = Some (eid e).
Proof.
  intros Hu Hin.
  destruct (getEdgeConnecting es (from e) (to e)) as [i|] eqn:Hg.
  - apply getEdgeConnecting_Some in Hg. destruct Hg as (e0 & Hin0 & <- & Hf & Ht).
    assert (e0 = e); [|now subst].
    apply (@ends_injective es e0 e Hu Hin0 Hin). unfold edgeEnds. now rewrite Hf, Ht.
  - exfalso. apply getEdgeConnecting_None in Hg. apply Hg.
    now apply (in_map edgeEnds) in Hin.
Qed.

Lemma level_shape (ns ms : NodeSet) (i : Id) :
  map nodeShape ms = map nodeShape ns ->
  option_map level (getNode ms i) = option_map level (getNode ns i).
Proof.
  unfold getNode. revert ms.
  induction ns as [|n ns IH]; intros [|m ms] Hs; simpl in Hs; try discriminate;
    [reflexivity|].
  injection Hs as Hid _ _ Hl _ _ _ Hrest. simpl. rewrite Hid.
  destruct (String.eqb (nid n) i); simpl; [now rewrite Hl | now apply IH].
Qed.

Lemma targetLevel_shape (ns ms : NodeSet) (e e' : Edge) :
  map nodeShape ms = map nodeShape ns -> to e' = to e ->
  targetLevel ms e' = targetLevel ns e.
Proof.
  intros Hs Hto. unfold targetLevel. rewrite Hto.
  pose proof (@level_shape ns ms (to e) Hs) as Hl.
  destruct (getNode ms (to e)), (getNode ns (to e)); simpl in Hl; congruence.
Qed.

Lemma isTrace_onTrace (es : EdgeSet) (path : list Id) (e : Edge) :
  isTrace (snd (getTraceBackEdges es path)) e = true <-> onTrace es path e.
Proof.
  rewrite isTrace_onPath. unfold onPath, onTrace, getTraceBackEdges. cbn [snd].
  rewrite in_map_iff, length_rev. split.
  - intros (i & Hi & Hin). apply in_seq in Hin. exists i. split; [lia | exact Hi].
  - intros (i & Hi & Hg). exists i. split; [exact Hg|]. apply in_seq. lia.
Qed.

Lemma shape_In (es ms : EdgeSet) (e : Edge) :
  map edgeShape ms = map edgeShape es -> In e ms ->
  exists e0, In e0 es /\ eid e0 = eid e /\ from e0 = from e /\ to e0 = to e.
Proof.
  intros Hs Hin. apply (in_map edgeShape) in Hin. rewrite Hs in Hin.
  apply in_map_iff in Hin. destruct Hin as (e0 & He & Hin0).
  injection He as Hid Hf Ht _ _ _. now exists e0.
Qed.

(** X25. The classes of the edges when the traced state is entered and
    nothing dangles.  For a node other than the selection whose chain of
    parents reaches a start page, [traceBack] returns, the trace is the
    chain read from the root down and the stored trace edges are what the
    lookup answers for each two consecutive nodes of it.  An edge is
    traced exactly when it is such an answer, and then it runs from a
    node of the chain to the next one towards the node; with at most one
    edge per pair of ends every edge that runs so is traced.  A traced
    edge has width 5 and inherits its colour; any other edge that the
    network reports connected has width 3 and the colour of the level of
    its target; every other edge has width 1 and is dimmed. *)
Theorem traceBack_marks_path_edges (s : State) (node : Id) (path : list Id) :
  selectedNode s <> Some node ->
  NoDup (map eid (edges s)) ->
  targetsStored (nodes s) (edges s) ->
  Chain (nodes s) (startpages s) node path -> length path <= 101 ->
  exists s1 s',
    resetProperties s = (Returned tt, s1) /\
    traceBack node s = (Returned tt, s') /\
    tracenodes s' = rev path /\
    traceedges s' =
      map (fun i => getEdgeConnecting (edges s) (nth i (rev path) "")
                      (nth (i + 1) (rev path) ""))
          (seq 0 (length path - 1)) /\
    map edgeShape (edges s') = map edgeShape (edges s) /\
    forall e, In e (edges s') ->
      (onTrace (edges s) path e ->
         width e = Some 5 /\ ecolor e = InheritColor "to") /\
      (~ onTrace (edges s) path e ->
       In (eid e) (getConnectedEdges (nodes s1) (edges s1) node) ->
         width e = Some 3 /\ ecolor e = getEdgeColor (targetLevel (nodes s) e)) /\
      (~ onTrace (edges s) path e ->
       ~ In (eid e) (getConnectedEdges (nodes s1) (edges s1) node) ->
         width e = Some 1 /\ ecolor e = dimmedEdge) /\
      (onTrace (edges s) path e -> alongPath path e) /\
      (uniquePairs (edges s) -> alongPath path e -> onTrace (edges s) path e).
Proof.
  intros Hsel Hnd Ht Hchain Hlen.
  assert (Hpath : getTraceBackNodes (nodes s) (startpages s) node = Returned path).
  { apply getTraceBackNodes_exact.
    apply (@traceLoop_complete (nodes s) (startpages s) node path Hchain 102 0 []);
      simpl; lia. }
  destruct (resetProperties_keeps s Ht)
    as (s1 & Hreset & Hids & Hpar & Heid & Hto & Hroots).
  pose proof (resetProperties_sameGraph s) as ((Gn & Ge & _) & _).
  rewrite Hreset in Gn, Ge. cbn [snd] in Gn, Ge.
  assert (Ht1 : targetsStored (nodes s1) (edges s1)).
  { unfold targetsStored in *.
    apply (proj1 (Forall_map to (fun t => hasId (nodes s1) t = true) (edges s1))).
    rewrite Hto. apply Forall_map.
    eapply Forall_impl; [|exact Ht]. intros e He. simpl in He.
    rewrite <- He. now apply hasId_ext. }
  assert (Hpath1 : getTraceBackNodes (nodes s1) (startpages s1) node = Returned path).
  { rewrite <- Hpath, Hroots. unfold getTraceBackNodes.
    now rewrite (traceLoop_ext (nodes s1) (nodes s) (startpages s) 102 Hpar). }
  destruct (@enterTraced_runs _ node path s1 Ht1 Hpath1)
    as (s' & Hrun & Hedges & Hte & Htn & _ & _).
  assert (Hte1 : snd (getTraceBackEdges (edges s1) path)
                 = snd (getTraceBackEdges (edges s) path)).
  { unfold getTraceBackEdges. cbn [snd]. apply map_ext. intros i.
    now apply getEdgeConnecting_shape. }
  rewrite Hte1 in Hte, Hedges.
  assert (Hst : Forall (fun p => In (ep_id p) (map eid (edges s1)))
                  (map (tracePatch (nodes s1) (snd (getTraceBackEdges (edges s) path))
                          (getConnectedEdges (nodes s1) (edges s1) node)) (edges s1))).
  { apply edgePatches_stored. intros e. apply tracePatch_id. }
  assert (Hshape' : map edgeShape (edges s') = map edgeShape (edges s)).
  { rewrite Hedges, <- Ge. apply edgeShape_updateEdges; [exact Hst|].
    apply Forall_map, Forall_forall. intros e _. unfold tracePatch.
    destruct (isTrace _ e); [repeat split|].
    destruct (isConnected _ e); repeat split. }
  exists s1, s'.
  split; [exact Hreset|].
  split.
  { unfold traceBack. rewrite run_gets.
    assert (Hne : optId_eqb (Some node) (selectedNode s) = false)
      by (apply optId_eqb_neq; congruence).
    rewrite Hne. erewrite run_bind by exact Hreset. exact Hrun. }
  split; [exact Htn|].
  split; [rewrite Hte; unfold getTraceBackEdges; cbn [snd]; now rewrite length_rev|].
  split; [exact Hshape'|].
  intros e' He'.
  destruct (@shape_In (edges s) (edges s') e' Hshape' He') as (e0 & Hin0 & Hid0 & Hf0 & Ht0).
  assert (Halong : onTrace (edges s) path e' -> alongPath path e').
  { intros (i & Hi & Hg). exists i. split; [exact Hi|].
    apply getEdgeConnecting_Some in Hg.
    destruct Hg as (e2 & Hin2 & Hid2 & Hf2 & Ht2).
    assert (e2 = e0) by (apply (eid_injective (edges s)); auto; congruence).
    subst e2. split; congruence. }
  assert (Htraced : uniquePairs (edges s) -> alongPath path e' ->
                    onTrace (edges s) path e').
  { intros Hu (i & Hi & Hf & Hto'). exists i. split; [exact Hi|].
    rewrite <- Hf, <- Hto', <- Hf0, <- Ht0, <- Hid0.
    now apply getEdgeConnecting_unique. }
  rewrite Hedges, (updateEdges_stored _ Hst) in He'.
  apply in_map_iff in He'. destruct He' as [e [<- He]].
  rewrite (@applyEdgePatches_own _ (edges s1) e
             (tracePatch_id (nodes s1) (snd (getTraceBackEdges (edges s) path))
                (getConnectedEdges (nodes s1) (edges s1) node))
             ltac:(rewrite Heid; exact Hnd) He) in *.
  set (te := snd (getTraceBackEdges (edges s) path)) in *.
  set (ce := getConnectedEdges (nodes s1) (edges s1) node) in *.
  assert (Hon : forall x, eid x = eid e ->
                  (onTrace (edges s) path x <-> isTrace te e = true)).
  { intros x Hx. unfold te. rewrite isTrace_onTrace. unfold onTrace.
    now rewrite Hx. }
  assert (Had : In (eid e) ce <-> isConnected ce e = true)
    by (symmetry; apply isConnected_adjacent).
  assert (Hlevel : targetLevel (nodes s) (patchEdge e (tracePatch (nodes s1) te ce e))
                   = targetLevel (nodes s1) e).
  { symmetry. apply targetLevel_shape; [exact Gn|].
    unfold tracePatch. destruct (isTrace te e); [reflexivity|].
    now destruct (isConnected ce e). }
  specialize (Hon (patchEdge e (tracePatch (nodes s1) te ce e)) eq_refl).
  change (eid (patchEdge e (tracePatch (nodes s1) te ce e))) with (eid e).
  split; [|split; [|split; [|split; assumption]]].
  - intros Hx. apply Hon in Hx. unfold tracePatch. rewrite Hx. split; reflexivity.
  - intros Hx Hc. rewrite Hlevel. apply Had in Hc.
    assert (Hnt : isTrace te e = false)
      by (apply not_true_is_false; intros Hy; apply Hx, Hon, Hy).
    unfold tracePatch. rewrite Hnt, Hc. split; reflexivity.
  - intros Hx Hc.
    assert (Hnt : isTrace te e = false)
      by (apply not_true_is_false; intros Hy; apply Hx, Hon, Hy).
    assert (Hnc : isConnected ce e = false)
      by (apply not_true_is_false; intros Hy; apply Hc, Had, Hy).
    unfold tracePatch. rewrite Hnt, Hnc. split; reflexivity.
Qed.

End MoreProperties.

(** ** The properties on the example graphs *)

#[local] Existing Instance demoHelpers.

Ltac distinct :=
  repeat (constructor; [simpl; intuition discriminate|]); constructor.

(** C3. The walk from [d] after [b] was removed: [d] is stored, its parent
    is not, no root is met, and [getTraceBackNodes] throws instead of
    answering the empty path; [traceBack] stops with that error, [d]
    selected and the flag off [Reset]. *)
Theorem getTraceBackNodes_dangling_parent_throws :
  removeNodeEvent (Some "b") demoState = (Returned tt, orphanedState) /\
  hasId (nodes orphanedState) "d" = true /\
  ancestor (nodes orphanedState) 1 (Some "d") = Returned (Some "b") /\
  isStartPage (startpages orphanedState) (Some "d") = false /\
  isStartPage (startpages orphanedState) (Some "b") = false /\
  getTraceBackNodes (nodes orphanedState) (startpages orphanedState) "d"
    = Threw TypeError /\
  fst (traceBack "d" orphanedState) = Threw TypeError /\
  selectedNode (snd (traceBack "d" orphanedState)) = Some "d" /\
  isReset (snd (traceBack "d" orphanedState)) = false.
Proof. vm_compute. repeat split; reflexivity. Qed.

(** On a cycle of stored nodes the failsafe answers the empty path. *)
Example getTraceBackNodes_cycle :
  getTraceBackNodes cycleNodes ["r"] "a" = Returned [].
Proof. reflexivity. Qed.

(** C7, as first stated: with no edge from [r] to [b] the result for
    [b; r] still has one entry, the empty answer of the lookup; it is not
    shorter than the number of nodes less one. *)
Lemma getTraceBackEdges_not_shorter :
  getEdgeConnecting [demoEdge 2 "r" "c"] "r" "b" = None /\
  snd (getTraceBackEdges [demoEdge 2 "r" "c"] ["b"; "r"]) = [None] /\
  ~ (length (snd (getTraceBackEdges [demoEdge 2 "r" "c"] ["b"; "r"]))
     < length ["b"; "r"] - 1).
Proof. vm_compute. repeat split; try reflexivity. lia. Qed.

(** A self-loop on the renamed node is the one edge lines 21-30 leave
    pointing away from the old id: the second snapshot restores [from]. *)
Example renameNode_self_loop :
  edges (snd (renameNode "b" "C"
                (initialState demoNodes [demoEdge 7 "b" "b"] ["r"])))
  = [demoEdge 7 "b" "c"].
Proof. reflexivity. Qed.

(** The two expansion scenarios of the specification: a first expansion
    of the root adds one node and one edge per new link; a second one adds
    only what is missing. *)
Example expand_root_once :
  let s := snd (expandNodeCallback "r" ["Foo"; "Bar"]
                  (initialState [demoNode "r" 0 None] [] ["r"])) in
  getIds (nodes s) = ["r"; "foo"; "bar"] /\
  map (fun e => (from e, to e)) (edges s) = [("r", "foo"); ("r", "bar")] /\
  option_map level (getNode (nodes s) "foo") = Some 1 /\
  option_map value (getNode (nodes s) "r") = Some 2.
Proof. vm_compute. repeat split; reflexivity. Qed.

Example expand_root_twice :
  let s1 := snd (expandNodeCallback "r" ["Foo"; "Bar"]
                   (initialState [demoNode "r" 0 None] [] ["r"])) in
  let s2 := snd (expandNodeCallback "r" ["foo"; "Baz"] s1) in
  getIds (nodes s2) = ["r"; "foo"; "bar"; "baz"] /\
  map (fun e => (from e, to e)) (edges s2)
    = [("r", "foo"); ("r", "bar"); ("r", "baz")] /\
  getNode (nodes s2) "foo" = getNode (nodes s1) "foo" /\
  countId "foo" (nodes s2) = 1.
Proof. vm_compute. repeat split; reflexivity. Qed.

(** Two names of one id in a single list: [nodes.add] takes the first
    record and throws at the second; no edge has been added. *)
Example expand_same_list :
  expandNodeCallback "r" ["Foo"; "foo"]
    (initialState [demoNode "r" 0 None] [] ["r"])
  = (Threw (DuplicateId "foo"),
     mkState [demoNode "r" 0 None;
              mkNode "foo" "Foo" 1 1 "blue" (Some "r") 0 5 None]
       [] true None [] [] ["r"] None false [NodesAdd ["foo"; "foo"]]).
Proof. reflexivity. Qed.

(** C5. Reset after a removal.  [b] is removed by a right click while
    nothing is highlighted, then [c] is traced.  The reset pass that
    follows throws at line 182 on the edge that still points at [b]: the
    flag stays off [Reset], the trace of [c] stays in [tracenodes] and
    [traceedges] and its edge keeps its weight.  The state after Reset is
    not reached, and calling again throws again. *)
Theorem resetProperties_throws_after_removal :
  removeNodeEvent (Some "b") demoState = (Returned tt, orphanedState) /\
  traceBack "c" orphanedState = (Returned tt, strandedState) /\
  isReset strandedState = false /\
  exists s1,
    resetProperties strandedState = (Threw TypeError, s1) /\
    isReset s1 = false /\
    tracenodes s1 = ["r"; "c"] /\ traceedges s1 = [Some 2] /\
    map width (edges s1) = [Some 1; Some 5; Some 1] /\
    fst (resetProperties s1) = Threw TypeError /\
    (resetProperties ;; resetProperties) strandedState = (Threw TypeError, s1).
Proof.
  split; [vm_compute; reflexivity|].
  split; [vm_compute; reflexivity|].
  split; [reflexivity|].
  exists (snd (resetProperties strandedState)).
  repeat split; vm_compute; reflexivity.
Qed.

(** C9. Entering [Traced(d)] after [b] was removed.  [traceBack] selects
    [d] and takes the flag off [Reset], then throws in the walk at line
    142, before line 208: the edges are what they were, none of them has
    the weight of a class, although one of them touches [d]. *)
Theorem traceBack_dangling_parent_classifies_nothing :
  removeNodeEvent (Some "b") demoState = (Returned tt, orphanedState) /\
  hasId (nodes orphanedState) "d" = true /\
  selectedNode orphanedState <> Some "d" /\
  exists s',
    traceBack "d" orphanedState = (Threw TypeError, s') /\
    selectedNode s' = Some "d" /\ isReset s' = false /\
    edges s' = edges orphanedState /\
    In (demoEdge 3 "b" "d") (edges s') /\
    forall e c, In e (edges s') -> width e <> Some (classWidth c).
Proof.
  split; [vm_compute; reflexivity|].
  split; [reflexivity|].
  split; [discriminate|].
  exists (snd (traceBack "d" orphanedState)).
  split; [vm_compute; reflexivity|].
  split; [vm_compute; reflexivity|].
  split; [vm_compute; reflexivity|].
  split; [vm_compute; reflexivity|].
  split; [vm_compute; auto|].
  intros e c He. vm_compute in He.
  destruct He as [<- | [<- | [<- | []]]]; discriminate.
Qed.

Lemma renameNode_merge_repoints_witness :
  (getNormalizedId "C" <> "b" /\
   hasId (nodes demoState) "b" = true /\
   hasId (nodes demoState) (getNormalizedId "C") = true /\
   NoDup (map eid (edges demoState)) /\
   In (demoEdge 1 "r" "b") (edges demoState) /\
   In (demoEdge 3 "b" "d") (edges demoState) /\
   "d" <> "b") /\
  exists s' kids,
    renameNode "b" "C" demoState = (Returned (getNormalizedId "C"), s') /\
    In (withTo (demoEdge 1 "r" "b") (getNormalizedId "C")) (edges s') /\
    from (withTo (demoEdge 1 "r" "b") (getNormalizedId "C")) = "r" /\
    In (withFrom (demoEdge 3 "b" "d") (getNormalizedId "C")) (edges s') /\
    to (withFrom (demoEdge 3 "b" "d") (getNormalizedId "C")) = "d" /\
    getNode (nodes s') "b" = None /\
    journal s' =
      journal demoState ++
      [EdgesUpdate (map ep_id (repointedEdges (edges demoState) "b"
                                 (getNormalizedId "C")));
       NodesRemove "b";
       NodesUpdate [getNormalizedId "C"];
       NodesUpdate kids].
Proof.
  assert (Hne : getNormalizedId "C" <> "b") by (vm_compute; discriminate).
  assert (Hnd : NoDup (map eid (edges demoState))) by (simpl; distinct).
  assert (H1 : In (demoEdge 1 "r" "b") (edges demoState)) by (simpl; auto).
  assert (H3 : In (demoEdge 3 "b" "d") (edges demoState)) by (simpl; auto).
  assert (Hy : "d" <> "b") by discriminate.
  split.
  - repeat split; try assumption; reflexivity.
  - apply (@renameNode_merge_repoints demoHelpers demoState "b" "C" "r" "d"
             (demoEdge 1 "r" "b") (demoEdge 3 "b" "d"));
      try assumption; reflexivity.
Defined.

Lemma renameNode_pure_carries_over_witness :
  (getNormalizedId "E" <> "b" /\
   getNode (nodes demoState) "b" = Some (demoNode "b" 1 (Some "r")) /\
   hasId (nodes demoState) (getNormalizedId "E") = false) /\
  exists s',
    renameNode "b" "E" demoState = (Returned "e", s') /\
    getNode (nodes s') "e" = Some (mkNode "e" "E" 1 1 "blue" (Some "r") 0 0 None) /\
    getNode (nodes s') "b" = None.
Proof.
  assert (Hne : getNormalizedId "E" <> "b") by (vm_compute; discriminate).
  split.
  - repeat split; [exact Hne | reflexivity..].
  - destruct (@renameNode_pure_carries_over demoHelpers demoState "b" "E"
                (demoNode "b" 1 (Some "r")) Hne eq_refl eq_refl)
      as (s' & Hrun & _ & _ & Hsame & _ & _ & _ & _ & _ & _ & _ & Hgone).
    exists s'. split; [exact Hrun|]. split; [|exact Hgone].
    apply Hsame. discriminate.
Defined.

Lemma expandNodeCallback_one_node_per_id_witness :
  (getNormalizedId "Foo" = getNormalizedId "foo" /\
   NoDup (getIds (nodes demoState)) /\
   In "foo" ["Foo"; "foo"] /\
   NoDup (newIds (nodes demoState) ([] ++ ["Foo"])) /\
   hasId (nodes demoState) "r" = true) /\
  countId (getNormalizedId "foo")
    (nodes (snd (expandNodeCallback "r" ["Foo"; "foo"] demoState))) = 1.
Proof.
  assert (Hnd : NoDup (getIds (nodes demoState))) by (simpl; distinct).
  assert (Hnew : NoDup (newIds (nodes demoState) ([] ++ ["Foo"])))
    by (vm_compute; distinct).
  split.
  - repeat split; try assumption; try reflexivity. simpl. auto.
  - apply (@expandNodeCallback_one_node_per_id demoHelpers demoState "r"
             ["Foo"; "foo"] "Foo" "foo"); [reflexivity | exact Hnd | simpl; auto |].
    right. exists [], ["foo"].
    split; [reflexivity|]. split; [simpl; auto|]. split; [exact Hnew|].
    split; [reflexivity|]. repeat constructor; discriminate.
Defined.

Lemma expandNode_rejected_keeps_graph_witness :
  (forall pageName, getSubPages false pageName ApiFailed = Rejected) /\
  fst (expandNodeSettle "b" Rejected demoState) = Returned tt /\
  nodes (snd (expandNode false "b" ApiFailed demoState)) = nodes demoState /\
  edges (snd (expandNode false "b" ApiFailed demoState)) = edges demoState /\
  journal (snd (expandNode false "b" ApiFailed demoState)) = journal demoState.
Proof.
  assert (Hrej : forall pageName, getSubPages false pageName ApiFailed = Rejected)
    by reflexivity.
  destruct (@expandNode_rejected_keeps_graph demoHelpers "b" demoState)
    as [[Hret _] Hall].
  split; [exact Hrej|]. split; [exact Hret|].
  exact (Hall false ApiFailed Hrej).
Defined.

Lemma resetProperties_idempotent_witness :
  (highlightInv tracedState /\ targetsStored (nodes tracedState) (edges tracedState)) /\
  exists s1,
    resetProperties tracedState = (Returned tt, s1) /\
    resetProperties s1 = (Returned tt, s1) /\
    (resetProperties ;; resetProperties) tracedState = resetProperties tracedState /\
    isReset s1 = true /\ highlightCleared s1.
Proof.
  assert (Hinv : highlightInv tracedState) by (intros Hr; discriminate Hr).
  assert (Ht : targetsStored (nodes tracedState) (edges tracedState))
    by (repeat constructor).
  split; [now split|].
  destruct (@resetProperties_idempotent demoHelpers tracedState)
    as (_ & Htwice & Hafter & Hreturns).
  destruct (Hreturns Ht) as [s1 Hrun].
  destruct (Hafter s1 Hrun) as (Hagain & Hflag & Hclear).
  exists s1. split; [exact Hrun|]. split; [exact Hagain|]. split; [exact Htwice|].
  split; [exact Hflag | exact (Hclear Hinv)].
Defined.

Lemma removeNodeEvent_resets_first_witness :
  (truthy (Some "d") = true /\ isReset tracedState = false /\
   selectedNode tracedState = Some "d" /\
   targetsStored (nodes tracedState) (edges tracedState)) /\
  exists s',
    removeNodeEvent (Some "d") tracedState = (Returned tt, s') /\
    hasId (nodes s') "d" = false /\ highlightCleared s' /\ isReset s' = true.
Proof.
  assert (Ht : targetsStored (nodes tracedState) (edges tracedState))
    by (repeat constructor).
  split; [split; [reflexivity|]; split; [reflexivity|]; split; [reflexivity | exact Ht]|].
  destruct (@removeNodeEvent_resets_first demoHelpers tracedState "d" removeNodeEvent
              eq_refl eq_refl (or_introl eq_refl) (or_introl eq_refl))
    as [[(s1 & log & s' & later & _ & _ & _ & _ & _ & _ & Hrun & _ & _ & Hgone & Hc & Hflag)
        | (e & s1 & log & Hthrew & _)] _].
  - exists s'. split; [exact Hrun|]. split; [exact Hgone|]. split; [exact Hc | exact Hflag].
  - exfalso. vm_compute in Hthrew. discriminate Hthrew.
Defined.

Lemma traceBack_selected_is_noop_witness :
  selectedNode tracedState = Some "d" /\
  traceBack "d" tracedState = (Returned tt, tracedState) /\
  selectedNode tracedState <> Some "c" /\
  traceBack "c" tracedState = (resetProperties ;; enterTraced "c") tracedState.
Proof.
  destruct (@traceBack_selected_is_noop demoHelpers tracedState "d") as [Hsame _].
  destruct (@traceBack_selected_is_noop demoHelpers tracedState "c") as [_ Hother].
  assert (Hne : selectedNode tracedState <> Some "c") by discriminate.
  split; [reflexivity|]. split; [exact (Hsame eq_refl)|].
  split; [exact Hne | exact (Hother Hne)].
Defined.

(** The further properties at work on the example graphs. *)

Lemma getTraceBackNodes_is_chain_witness :
  ["d"; "b"; "r"] <> [] /\
  (getTraceBackNodes demoNodes ["r"] "d" = Returned ["d"; "b"; "r"] <->
   Chain demoNodes ["r"] "d" ["d"; "b"; "r"] /\ length ["d"; "b"; "r"] <= 101).
Proof.
  assert (Hne : ["d"; "b"; "r"] <> []) by discriminate.
  split; [exact Hne|].
  exact (@getTraceBackNodes_is_chain demoNodes ["r"] "d" ["d"; "b"; "r"] Hne).
Defined.

Lemma getTraceBackNodes_total_witness :
  parentsStored demoNodes /\ hasId demoNodes "d" = true /\
  exists path, getTraceBackNodes demoNodes ["r"] "d" = Returned path.
Proof.
  assert (Hps : parentsStored demoNodes).
  { intros n p Hin Hp. simpl in Hin.
    destruct Hin as [<- | [<- | [<- | [<- | []]]]]; simpl in Hp; try discriminate;
      injection Hp as <-; reflexivity. }
  split; [exact Hps|]. split; [reflexivity|].
  exact (@getTraceBackNodes_total demoNodes ["r"] "d" Hps eq_refl).
Defined.

Lemma resetProperties_restores_witness :
  isReset tracedState = false /\
  resetProperties tracedState = (Returned tt, resetTracedState) /\
  (forall n, In n (nodes resetTracedState) -> font n = Some fullOpacity) /\
  (forall e, In e (edges resetTracedState) -> width e = Some 1).
Proof.
  assert (Hr : isReset tracedState = false) by reflexivity.
  assert (Hrun : resetProperties tracedState = (Returned tt, resetTracedState))
    by (vm_compute; reflexivity).
  assert (Hnd : NoDup (map eid (edges tracedState))) by (simpl; distinct).
  destruct (@resetProperties_restores demoHelpers tracedState resetTracedState Hr Hrun)
    as [Hnodes Hedges].
  split; [exact Hr|]. split; [exact Hrun|]. split.
  - intros n Hn. exact (proj1 (Hnodes n Hn)).
  - intros e He. exact (proj1 (Hedges Hnd e He)).
Defined.

Lemma traceBack_fades_inactive_witness :
  selectedNode demoState <> Some "d" /\
  resetProperties demoState = (Returned tt, demoState) /\
  traceBack "d" demoState = (Returned tt, tracedState) /\
  (forall n, In n (nodes tracedState) -> In (nid n) (tracenodes tracedState) ->
     font n = Some fullOpacity /\ color n = getYellowColor (level n)).
Proof.
  assert (Hsel : selectedNode demoState <> Some "d") by discriminate.
  assert (Hreset : resetProperties demoState = (Returned tt, demoState)) by reflexivity.
  assert (Hrun : traceBack "d" demoState = (Returned tt, tracedState))
    by (vm_compute; reflexivity).
  assert (Hnd : NoDup (getIds (nodes demoState))) by (simpl; distinct).
  split; [exact Hsel|]. split; [exact Hreset|]. split; [exact Hrun|].
  intros n Hn Htn.
  destruct (@traceBack_fades_inactive demoHelpers demoState demoState tracedState "d"
              Hsel Hreset Hrun n Hn) as (Hfull & _ & Hcol).
  split; [|exact (Hcol Hnd Htn)].
  apply Hfull. right. left. exact Htn.
Defined.

Lemma rightClick_forgets_node_witness :
  truthy (Some "b") = true /\ highlightInv demoState /\
  removeNodeEvent (Some "b") demoState = (Returned tt, orphanedState) /\
  hasId (nodes orphanedState) "b" = false /\
  map nodeLink (nodes orphanedState) = map nodeLink (removeNode (nodes demoState) "b") /\
  lastClickedNode orphanedState <> Some "b".
Proof.
  assert (Ht : truthy (Some "b") = true) by reflexivity.
  assert (Hinv : highlightInv demoState) by (intros _; repeat split).
  assert (Hrun : removeNodeEvent (Some "b") demoState = (Returned tt, orphanedState))
    by (vm_compute; reflexivity).
  destruct (@rightClick_forgets_node demoHelpers demoState orphanedState "b"
              removeNodeEvent Ht Hinv (or_introl eq_refl) Hrun)
    as (A1 & A2 & _ & _ & A5 & _).
  split; [exact Ht|]. split; [exact Hinv|]. split; [exact Hrun|].
  split; [exact A1|]. split; [exact A2 | exact A5].
Defined.

Lemma removeSelected_forgets_node_witness :
  orId (selectedNode tracedState) (lastClickedNode tracedState) = Some "d" /\
  truthy (Some "d") = true /\
  exists s',
    removeSelected tracedState = (Returned tt, s') /\
    hasId (nodes s') "d" = false /\ selectedNode s' = None /\
    lastClickedNode s' = None /\ isReset s' = true.
Proof.
  assert (Hsel : orId (selectedNode tracedState) (lastClickedNode tracedState)
                 = Some "d") by reflexivity.
  assert (Ht : truthy (Some "d") = true) by reflexivity.
  assert (Hrun : removeSelected tracedState
                 = (Returned tt, snd (removeSelected tracedState)))
    by (vm_compute; reflexivity).
  destruct (proj2 (@removeSelected_forgets_node demoHelpers tracedState) "d"
              (snd (removeSelected tracedState)) Hsel Ht Hrun)
    as (A1 & _ & A3 & A4 & A5 & _).
  split; [exact Hsel|]. split; [exact Ht|].
  exists (snd (removeSelected tracedState)).
  split; [exact Hrun|]. split; [exact A1|]. split; [exact A3|].
  split; [exact A4 | exact A5].
Defined.

Lemma renameNode_forgets_old_id_witness :
  getNormalizedId "B2" <> "b" /\
  exists s',
    renameNode "b" "B2" demoState = (Returned "b2", s') /\
    hasId (nodes s') "b2" = true /\ hasId (nodes s') "b" = false /\
    (forall n, In n (nodes s') -> parent n <> Some "b") /\
    (forall e, In e (edges s') -> to e <> "b").
Proof.
  assert (Hne : getNormalizedId "B2" <> "b") by (vm_compute; discriminate).
  assert (Hrun : renameNode "b" "B2" demoState
                 = (Returned "b2", snd (renameNode "b" "B2" demoState)))
    by (vm_compute; reflexivity).
  assert (Hnd : NoDup (map eid (edges demoState))) by (simpl; distinct).
  destruct (@renameNode_forgets_old_id demoHelpers demoState
              (snd (renameNode "b" "B2" demoState)) "b" "B2" "b2" Hne Hrun)
    as (_ & A2 & A3 & A4 & _ & _ & _ & A8).
  split; [exact Hne|].
  exists (snd (renameNode "b" "B2" demoState)).
  split; [exact Hrun|]. split; [exact A2|]. split; [exact A3|].
  split; [exact A4|]. exact (proj1 (proj2 (A8 Hnd))).
Defined.

Lemma expandNodeCallback_keeps_edges_apart_witness :
  NoDup (map getNormalizedId ["X"; "Y"]) /\
  uniquePairs (edges demoState) /\
  uniquePairs (edges (snd (expandNodeCallback "r" ["X"; "Y"] demoState))).
Proof.
  assert (Hnd : NoDup (map getNormalizedId ["X"; "Y"])) by (vm_compute; distinct).
  assert (Hu : uniquePairs (edges demoState)) by (unfold uniquePairs; simpl; distinct).
  split; [exact Hnd|]. split; [exact Hu|].
  exact (proj1 (@expandNodeCallback_keeps_edges_apart demoHelpers demoState "r"
                  ["X"; "Y"] Hnd) Hu).
Defined.

Lemma expandNodeCallback_adds_children_witness :
  getNode (nodes demoState) "r" = Some (demoNode "r" 0 None) /\
  exists s',
    expandNodeCallback "r" ["X"; "b"] demoState = (Returned tt, s') /\
    map edgeEnds (edges s') = map edgeEnds (edges demoState) ++ [("r", "x")] /\
    sameVariables demoState s'.
Proof.
  assert (Hpage : getNode (nodes demoState) "r" = Some (demoNode "r" 0 None))
    by reflexivity.
  assert (Hrun : expandNodeCallback "r" ["X"; "b"] demoState
                 = (Returned tt, snd (expandNodeCallback "r" ["X"; "b"] demoState)))
    by (vm_compute; reflexivity).
  destruct (@expandNodeCallback_adds_children demoHelpers demoState
              (snd (expandNodeCallback "r" ["X"; "b"] demoState)) "r" ["X"; "b"]
              (demoNode "r" 0 None) Hpage Hrun)
    as (_ & A2 & A3).
  split; [exact Hpage|].
  exists (snd (expandNodeCallback "r" ["X"; "b"] demoState)).
  split; [exact Hrun|]. split; [exact A2 | exact A3].
Defined.

Lemma expandNode_settles_witness :
  (hasId (nodes demoState) "r" = true /\
   expandNodeCall "r" demoState = (Returned tt, setLoading demoState true) /\
   fst (expandNode false "r" (ApiAnswered "r" ["X"]) demoState) = Returned tt /\
   loading (snd (expandNode false "r" (ApiAnswered "r" ["X"]) demoState)) = false) /\
  (hasId (nodes quotedState) quotedId = true /\
   expandNodeCall quotedId quotedState
   = (Threw SyntaxError, setLoading quotedState true) /\
   fst (expandNode false quotedId ApiFailed quotedState) = Threw SyntaxError /\
   loading (snd (expandNode false quotedId ApiFailed quotedState)) = false) /\
  (hasId (nodes demoState) "zz" = false /\
   expandNode false "zz" ApiFailed demoState
   = (Threw TypeError, setLoading demoState true)).
Proof.
  destruct (proj1 (@expandNode_settles demoHelpers false "r" (ApiAnswered "r" ["X"])
                     demoState) eq_refl) as (A1 & A2 & A3).
  destruct (proj1 (@expandNode_settles demoHelpers false quotedId ApiFailed
                     quotedState) eq_refl) as (B1 & B2 & B3).
  destruct (proj1 (proj2 (@expandNode_settles demoHelpers false "zz" ApiFailed
                            demoState)) eq_refl) as (_ & C2).
  split; [|split].
  - split; [reflexivity|]. split; [exact A1|]. split; [exact A2 | exact A3].
  - split; [reflexivity|]. split; [exact B1|]. split; [exact B2 | exact B3].
  - split; [reflexivity | exact C2].
Defined.

Lemma getPageTitleQuickly_last_piece_witness :
  getPageTitleQuickly "/wiki/Barack_Obama" = Returned "Barack_Obama" /\
  getPageTitleQuickly "/wiki/Barack_Obama#Early_life" = Returned "Barack_Obama" /\
  getPageTitleQuickly "/wiki/AC/DC" = Returned "DC".
Proof.
  destruct (@getPageTitleQuickly_last_piece "/wiki" "Barack_Obama" "Early_life")
    as [A1 A2]; try reflexivity; try discriminate.
  destruct (@getPageTitleQuickly_last_piece "/wiki/AC" "DC" "")
    as [B1 _]; try reflexivity; try discriminate.
  split; [exact A1|]. split; [exact A2 | exact B1].
Defined.

Lemma isArticle_no_inner_colon_witness :
  isArticle "Foo" = true /\ isArticle "Foo:" = true /\ isArticle "WP:UA" = false.
Proof.
  destruct isArticle_no_inner_colon as [Hyes Hno].
  destruct (Hyes "Foo" eq_refl) as [A1 A2].
  split; [exact A1|]. split; [exact A2|].
  apply (Hno "WP" "UA"). discriminate.
Defined.


Lemma expandEvent_second_click_expands_witness :
  lastClickedNode demoState <> Some "b" /\
  lastClickedNode (snd (expandEvent false false ApiFailed ["b"] demoState)) = Some "b" /\
  expandEvent false false (ApiAnswered "b" ["X"]) ["b"]
    (snd (expandEvent false false ApiFailed ["b"] demoState))
  = expandNode false "b" (ApiAnswered "b" ["X"])
      (snd (expandEvent false false ApiFailed ["b"] demoState)).
Proof.
  assert (Hne : lastClickedNode demoState <> Some "b") by discriminate.
  destruct (proj1 (@expandEvent_second_click_expands demoHelpers false ApiFailed
                     (ApiAnswered "b" ["X"]) "b" [] demoState) Hne)
    as (_ & _ & A3 & A4).
  split; [exact Hne|]. split; [exact A3 | exact A4].
Defined.

Lemma selectRandomNode_selects_stored_witness :
  nodes demoState <> [] /\
  exists s',
    selectRandomNode 6 demoState = (Returned (Some "c"), s') /\
    hasId (nodes demoState) "c" = true /\
    lastClickedNode s' = Some "c" /\ selectedNode s' = Some "c".
Proof.
  assert (Hne : nodes demoState <> []) by discriminate.
  assert (Hrun : selectRandomNode 6 demoState
                 = (Returned (Some "c"), snd (selectRandomNode 6 demoState)))
    by (vm_compute; reflexivity).
  destruct (proj2 (@selectRandomNode_selects_stored demoHelpers 6 demoState)
              (Some "c") (snd (selectRandomNode 6 demoState)) Hrun Hne)
    as (i & Hi & A2 & A3 & A4).
  injection Hi as <-.
  split; [exact Hne|].
  exists (snd (selectRandomNode 6 demoState)).
  split; [exact Hrun|]. split; [exact A2|]. split; [exact A3 | exact A4].
Defined.


Lemma traceBack_failure_leaves_selection_witness :
  targetsStored (nodes lostState) (edges lostState) /\
  exists s',
    traceBack "a" lostState = (Threw TypeError, s') /\
    selectedNode s' = Some "a" /\ isReset s' = false /\
    traceBack "a" s' = (Returned tt, s').
Proof.
  assert (Ht : targetsStored (nodes lostState) (edges lostState)) by constructor.
  assert (Hrun : traceBack "a" lostState
                 = (Threw TypeError, snd (traceBack "a" lostState)))
    by (vm_compute; reflexivity).
  destruct (@traceBack_failure_leaves_selection demoHelpers lostState
              (snd (traceBack "a" lostState)) "a" TypeError Ht Hrun)
    as (_ & A2 & A3 & A4 & _).
  split; [exact Ht|].
  exists (snd (traceBack "a" lostState)).
  split; [exact Hrun|]. split; [exact A2|]. split; [exact A3 | exact A4].
Defined.

Lemma expandNodeSettle_after_removal_witness :
  hasId (nodes orphanedState) "b" = false /\
  getNormalizedId "B" = "b" /\
  expandNodeSettle "b" (Resolved "B" ["X"]) orphanedState
  = (Returned tt, setLoading orphanedState false).
Proof.
  assert (Hid : hasId (nodes orphanedState) "b" = false) by reflexivity.
  assert (Hred : getNormalizedId "B" = "b") by reflexivity.
  split; [exact Hid|]. split; [exact Hred|].
  exact (@expandNodeSettle_after_removal demoHelpers "b" "B" ["X"] orphanedState
           Hid Hred).
Defined.

Lemma traceBack_marks_path_edges_witness :
  (selectedNode demoState <> Some "d" /\
   NoDup (map eid (edges demoState)) /\
   targetsStored (nodes demoState) (edges demoState) /\
   Chain (nodes demoState) (startpages demoState) "d" ["d"; "b"; "r"] /\
   uniquePairs (edges demoState)) /\
  exists s',
    traceBack "d" demoState = (Returned tt, s') /\
    tracenodes s' = ["r"; "b"; "d"] /\
    traceedges s' = [Some 1; Some 3] /\
    forall e, In e (edges s') -> alongPath ["d"; "b"; "r"] e ->
      width e = Some 5 /\ ecolor e = InheritColor "to".
Proof.
  assert (Hsel : selectedNode demoState <> Some "d") by discriminate.
  assert (Hnd : NoDup (map eid (edges demoState))) by (simpl; distinct).
  assert (Ht : targetsStored (nodes demoState) (edges demoState))
    by (repeat constructor).
  assert (Hu : uniquePairs (edges demoState)) by (unfold uniquePairs; simpl; distinct).
  assert (Hchain : Chain (nodes demoState) (startpages demoState) "d" ["d"; "b"; "r"]).
  { apply ChainStep with (p := "b") (n := demoNode "d" 2 (Some "b"));
      [reflexivity | simpl; intuition discriminate | reflexivity |].
    apply ChainStep with (p := "r") (n := demoNode "b" 1 (Some "r"));
      [reflexivity | simpl; intuition discriminate | reflexivity |].
    apply ChainRoot with (n := demoNode "r" 0 None); [reflexivity | simpl; auto]. }
  split; [split; [exact Hsel|]; split; [exact Hnd|]; split; [exact Ht|];
          split; [exact Hchain | exact Hu]|].
  destruct (@traceBack_marks_path_edges demoHelpers demoState "d" ["d"; "b"; "r"]
              Hsel Hnd Ht Hchain ltac:(simpl; lia))
    as (s1 & s' & _ & Hrun & Htn & Hte & _ & Hclass).
  exists s'. split; [exact Hrun|]. split; [exact Htn|]. split; [exact Hte|].
  intros e He Ha. destruct (Hclass e He) as (A & _ & _ & _ & E).
  exact (A (E Hu Ha)).
Defined.
